(** * SpotCheck: the retry scheduler of limacharlie/SpotCheck.py

    A shallow embedding of [SpotCheck] (constructor, [start], [stop], [wait]
    and the worker loop [_performSpotChecks] with its deferred [_doReCheck])
    as a labelled transition system.  Every greenlet of the gevent group
    [self._threads] is an actor with a program counter that names the source
    line it is about to execute; the shared attributes of the object
    ([_sensorsLeftToCheck], [_lock], [_pendingReCheck], [_stopEvent]) form
    the shared part of the state.  What the code asks of its collaborators
    (the sensor's platform, tags and online status, the outcome of the check
    callback) is supplied by the label of the step, so every behaviour of the
    environment is covered.  Time is a logical clock advanced by [LTick].

    Steps are at most one source statement long and interleave freely, which
    covers gevent's cooperative scheduling, where a greenlet yields only at
    blocking calls: every schedule of gevent is a run of the system, so what
    holds of all runs holds of the program, while a run need not be a
    schedule gevent would choose.  A call can return or raise.  The check
    callback is called inside the [try] of line 134; the sensor queries and
    the observer callbacks are not, and an exception of theirs ends the
    greenlet ([LRaise]).  [Group.join] is taken as gevent documents it: it
    returns when the group, to which line 64 adds the workers and line 127
    the deferred re-checks, is empty, or when its timeout has elapsed; a
    greenlet that has ended, by returning or by an exception, is no longer
    in the group. *)

From Stdlib Require Import ZArith Bool Lia.
From stdpp Require Import base tactics option list strings.

Local Open Scope Z_scope.

(** ** Data *)

(** A sensor is an opaque handle; the queue holds the handles themselves. *)
Definition sensor := nat.
Bind Scope nat_scope with sensor.

(** What a call of [self._cbCheck( sensor )] can do: return a value, read
    for its truth by [if not result], or raise, in which case the code takes
    [traceback.format_exc()]. *)
Inductive outcome :=
  | Returned (result : bool)
  | Raised (tb : string).

(** The constructor's arguments that the scheduler reads.  A callback is
    [None] or a function: only its presence matters to the control flow. *)
Record config := Config {
  cbOnStartCheck : bool;
  cbOnCheckDone : bool;
  cbOnOffline : bool;
  cbOnError : bool;
  nConcurrent : nat;
  nSecBetweenOnlineChecks : Z;
  isWindows : bool;
  isLinux : bool;
  isMacos : bool;
  tags : option (list string)
}.

(** The greenlets of [self._threads]: the workers spawned by [start] and
    the [_doReCheck] greenlets spawned by the offline path. *)
Inductive actor :=
  | Worker (i : nat)
  | Timer (j : nat).

(** What a greenlet does that others can observe: the queries to the
    sensor, the callbacks, the sleeps, the spawns and the queue insertions. *)
Inductive action :=
  | GetInfo (s : sensor)
  | GetTags (s : sensor)
  | IsOnline (s : sensor)
  | OnOffline (s : sensor)
  | OnStartCheck (s : sensor)
  | Check (s : sensor)
  | OnError (s : sensor) (tb : string)
  | OnCheckDone (s : sensor)
  | Sleep (seconds : Z)
  | SpawnLater (seconds : Z) (s : sensor)
  | Put (s : sensor).

(** Program counter of a worker: the line of [_performSpotChecks] it is
    about to execute, with its local variables. *)
Inductive wpc :=
  | WLoop                              (* 86: while not self._stopEvent.wait( 0 ) *)
  | WPop                               (* 88: get_nowait() *)
  | WAcquireIdle                       (* 92: with self._lock (queue was empty) *)
  | WCheckIdle                         (* 94: the test, holding the lock *)
  | WBackoff (wake : Z)                (* 96: gevent.sleep( 2 ) *)
  | WPlatform (s : sensor)             (* 100 *)
  | WTags (s : sensor)                 (* 110 *)
  | WOnline (s : sensor)               (* 116: sensor.isOnline() *)
  | WOffline (s : sensor)              (* 117: cbOnOffline, offline path *)
  | WAcquireInc (s : sensor)           (* 125: with self._lock *)
  | WInc (s : sensor)                  (* 126: += 1, holding the lock *)
  | WSpawn (s : sensor)                (* 127: spawn_later *)
  | WStart (s : sensor)                (* 130: cbOnStartCheck *)
  | WCheck (s : sensor)                (* 135: cbCheck *)
  | WError (s : sensor) (tb : string)  (* 139: cbOnError *)
  | WResult (s : sensor) (result : bool) (* 142: if not result *)
  | WRetry (s : sensor)                (* 144: cbOnOffline, false result *)
  | WSleepRetry (s : sensor) (wake : Z) (* 147: gevent.sleep( interval ) *)
  | WPut (s : sensor)                  (* 148: put *)
  | WDone (s : sensor)                 (* 152: cbOnCheckDone *)
  | WExited.                           (* the greenlet has ended *)

(** Program counter of a deferred [_doReCheck( s )]. *)
Inductive tpc :=
  | TWait (s : sensor) (due : Z)       (* spawn_later: not started yet *)
  | TAcquire (s : sensor)              (* 122: with self._lock *)
  | TPut (s : sensor)                  (* 123: put, holding the lock *)
  | TDec (s : sensor)                  (* 124: -= 1, holding the lock *)
  | TDone.

(** The caller of the public methods: idle, inside [stop]'s join, or inside
    [wait]'s join with its deadline if a timeout was given. *)
Inductive cpc :=
  | CIdle
  | CStop
  | CWait (deadline : option Z).

Record state := State {
  sensorsLeftToCheck : list sensor;
  lock : option actor;
  pendingReCheck : Z;
  stopEvent : bool;
  workers : list wpc;
  timers : list tpc;
  caller : cpc;
  now : Z;
  trace : list (actor * action)
}.

(** What the environment hands to a step that asks for something and gets
    it: the value a call returns, or the outcome of the check callback. *)
Inductive answer :=
  | ANone
  | APlat (plat : string)
  | ATags (sensorTags : list string)
  | AOnline (online : bool)
  | ACheck (o : outcome).

Inductive label :=
  | LWorker (i : nat) (a : answer)
  | LTimer (j : nat)
  | LTick (d : Z)
  | LStop
  | LWait (timeout : option Z)
  | LReturn (r : bool)
  | LRaise (i : nat).                  (* worker i's pending call raises *)

(** ** Field updates *)

Definition set_queue (q : list sensor) (st : state) : state :=
  State q (lock st) (pendingReCheck st) (stopEvent st) (workers st)
        (timers st) (caller st) (now st) (trace st).

Definition set_lock (l : option actor) (st : state) : state :=
  State (sensorsLeftToCheck st) l (pendingReCheck st) (stopEvent st)
        (workers st) (timers st) (caller st) (now st) (trace st).

Definition set_pending (n : Z) (st : state) : state :=
  State (sensorsLeftToCheck st) (lock st) n (stopEvent st) (workers st)
        (timers st) (caller st) (now st) (trace st).

Definition set_stop (b : bool) (st : state) : state :=
  State (sensorsLeftToCheck st) (lock st) (pendingReCheck st) b (workers st)
        (timers st) (caller st) (now st) (trace st).

Definition set_workers (ws : list wpc) (st : state) : state :=
  State (sensorsLeftToCheck st) (lock st) (pendingReCheck st) (stopEvent st)
        ws (timers st) (caller st) (now st) (trace st).

Definition set_timers (ts : list tpc) (st : state) : state :=
  State (sensorsLeftToCheck st) (lock st) (pendingReCheck st) (stopEvent st)
        (workers st) ts (caller st) (now st) (trace st).

Definition set_caller (c : cpc) (st : state) : state :=
  State (sensorsLeftToCheck st) (lock st) (pendingReCheck st) (stopEvent st)
        (workers st) (timers st) c (now st) (trace st).

Definition set_now (t : Z) (st : state) : state :=
  State (sensorsLeftToCheck st) (lock st) (pendingReCheck st) (stopEvent st)
        (workers st) (timers st) (caller st) t (trace st).

Definition emit (who : actor) (acts : list action) (st : state) : state :=
  State (sensorsLeftToCheck st) (lock st) (pendingReCheck st) (stopEvent st)
        (workers st) (timers st) (caller st) (now st)
        (trace st ++ map (pair who) acts).

Definition goto (i : nat) (pc : wpc) (st : state) : state :=
  set_workers (<[i:=pc]> (workers st)) st.

Definition tgoto (j : nat) (pc : tpc) (st : state) : state :=
  set_timers (<[j:=pc]> (timers st)) st.

(** [if cb is not None: cb( ... )] *)
Definition call (present : bool) (a : action) : list action :=
  if present then [a] else [].

(** ** The filters of lines 100-113 *)

(** Line 100: [self._isWindows is False or self._isLinux is False or
    self._isMacos is False]. *)
Definition platform_consulted (cfg : config) : bool :=
  negb (isWindows cfg) || negb (isLinux cfg) || negb (isMacos cfg).

(** Lines 102-107: the three tests that [continue]. *)
Definition platform_skipped (cfg : config) (platform : string) : bool :=
  if String.eqb platform "windows" && negb (isWindows cfg) then true
  else if String.eqb platform "linux" && negb (isLinux cfg) then true
  else if String.eqb platform "macos" && negb (isMacos cfg) then true
  else false.

(** Line 112: [all( [ ( x in sensorTags ) for x in self._tags ] )]. *)
Definition has_all_tags (required sensorTags : list string) : bool :=
  forallb (fun x => existsb (String.eqb x) sensorTags) required.

(** ** Construction and [start] *)

(** The attributes set by [__init__]. *)
Definition construct : state :=
  State [] None 0 false [] [] CIdle 0 [].

(** [start]: every listed sensor is put in the queue, then [nConcurrent]
    workers are spawned. *)
Definition start (cfg : config) (listing : list sensor) (st : state) : state :=
  set_workers (workers st ++ replicate (nConcurrent cfg) WLoop)
    (set_queue (sensorsLeftToCheck st ++ listing) st).

(** ** One step of a worker: [_performSpotChecks] *)

Definition worker_step (cfg : config) (i : nat) (a : answer) (st : state)
  : option state :=
  let me := Worker i in
  match workers st !! i with
  | None => None
  | Some pc =>
    match pc, a with
    | WLoop, ANone =>
        Some (goto i (if stopEvent st then WExited else WPop) st)
    | WPop, ANone =>
        match sensorsLeftToCheck st with
        | s :: q => Some (goto i (WPlatform s) (set_queue q st))
        | [] => Some (goto i WAcquireIdle st)
        end
    | WAcquireIdle, ANone =>
        match lock st with
        | None => Some (goto i WCheckIdle (set_lock (Some me) st))
        | Some _ => None
        end
    | WCheckIdle, ANone =>
        if (0 =? pendingReCheck st) && Nat.eqb 0 (length (sensorsLeftToCheck st))
        then Some (goto i WExited (set_lock None st))
        else Some (goto i (WBackoff (now st + 2))
                     (emit me [Sleep 2] (set_lock None st)))
    | WBackoff wake, ANone =>
        if wake <=? now st then Some (goto i WLoop st) else None
    | WPlatform s, _ =>
        if platform_consulted cfg then
          match a with
          | APlat platform =>
              Some (goto i (if platform_skipped cfg platform
                            then WLoop else WTags s)
                      (emit me [GetInfo s] st))
          | _ => None
          end
        else
          match a with
          | ANone => Some (goto i (WTags s) st)
          | _ => None
          end
    | WTags s, _ =>
        match tags cfg with
        | Some required =>
            match a with
            | ATags sensorTags =>
                Some (goto i (if has_all_tags required sensorTags
                              then WOnline s else WLoop)
                        (emit me [GetTags s] st))
            | _ => None
            end
        | None =>
            match a with
            | ANone => Some (goto i (WOnline s) st)
            | _ => None
            end
        end
    | WOnline s, AOnline online =>
        Some (goto i (if online then WStart s else WOffline s)
                (emit me [IsOnline s] st))
    | WOffline s, ANone =>
        Some (goto i (WAcquireInc s)
                (emit me (call (cbOnOffline cfg) (OnOffline s)) st))
    | WAcquireInc s, ANone =>
        match lock st with
        | None => Some (goto i (WInc s) (set_lock (Some me) st))
        | Some _ => None
        end
    | WInc s, ANone =>
        Some (goto i (WSpawn s)
                (set_lock None (set_pending (pendingReCheck st + 1) st)))
    | WSpawn s, ANone =>
        let delay := nSecBetweenOnlineChecks cfg in
        Some (goto i WLoop
                (emit me [SpawnLater delay s]
                   (set_timers (timers st ++ [TWait s (now st + delay)]) st)))
    | WStart s, ANone =>
        Some (goto i (WCheck s)
                (emit me (call (cbOnStartCheck cfg) (OnStartCheck s)) st))
    | WCheck s, ACheck o =>
        Some (goto i (match o with
                      | Returned result => WResult s result
                      | Raised tb => WError s tb
                      end)
                (emit me [Check s] st))
    | WError s tb, ANone =>
        Some (goto i (WResult s true)
                (emit me (call (cbOnError cfg) (OnError s tb)) st))
    | WResult s result, ANone =>
        Some (goto i (if result then WDone s else WRetry s) st)
    | WRetry s, ANone =>
        let delay := nSecBetweenOnlineChecks cfg in
        Some (goto i (WSleepRetry s (now st + delay))
                (emit me (call (cbOnOffline cfg) (OnOffline s) ++ [Sleep delay])
                   st))
    | WSleepRetry s wake, ANone =>
        if wake <=? now st then Some (goto i (WPut s) st) else None
    | WPut s, ANone =>
        Some (goto i WLoop
                (emit me [Put s]
                   (set_queue (sensorsLeftToCheck st ++ [s]) st)))
    | WDone s, ANone =>
        Some (goto i WLoop
                (emit me (call (cbOnCheckDone cfg) (OnCheckDone s)) st))
    | _, _ => None
    end
  end.

(** ** An exception nothing catches

    The call a worker is about to make outside any [try]: the sensor queries
    of lines 101, 111 and 116 and the observer callbacks of lines 118, 131,
    140, 145 and 153, the latter when they are given.  Line 140 is inside
    the [except] clause of line 136, which does not protect it. *)
Definition unguarded_call (cfg : config) (pc : wpc) : option action :=
  match pc with
  | WPlatform s => if platform_consulted cfg then Some (GetInfo s) else None
  | WTags s => match tags cfg with Some _ => Some (GetTags s) | None => None end
  | WOnline s => Some (IsOnline s)
  | WOffline s | WRetry s =>
      if cbOnOffline cfg then Some (OnOffline s) else None
  | WStart s => if cbOnStartCheck cfg then Some (OnStartCheck s) else None
  | WError s tb => if cbOnError cfg then Some (OnError s tb) else None
  | WDone s => if cbOnCheckDone cfg then Some (OnCheckDone s) else None
  | _ => None
  end.

(** When that call raises, the exception leaves [_performSpotChecks] and
    the greenlet ends where it is: the sensor it holds goes with it. *)
Definition worker_raise (cfg : config) (i : nat) (st : state) : option state :=
  match workers st !! i with
  | None => None
  | Some pc =>
      match unguarded_call cfg pc with
      | Some a => Some (goto i WExited (emit (Worker i) [a] st))
      | None => None
      end
  end.

(** ** One step of a deferred re-check: [_doReCheck] *)

Definition timer_step (j : nat) (st : state) : option state :=
  let me := Timer j in
  match timers st !! j with
  | None => None
  | Some (TWait s due) =>
      if due <=? now st then Some (tgoto j (TAcquire s) st) else None
  | Some (TAcquire s) =>
      match lock st with
      | None => Some (tgoto j (TPut s) (set_lock (Some me) st))
      | Some _ => None
      end
  | Some (TPut s) =>
      Some (tgoto j (TDec s)
              (emit me [Put s] (set_queue (sensorsLeftToCheck st ++ [s]) st)))
  | Some (TDec s) =>
      Some (tgoto j TDone
              (set_lock None (set_pending (pendingReCheck st - 1) st)))
  | Some TDone => None
  end.

(** ** [stop], [wait] and the group's [join] *)

Definition worker_exited (pc : wpc) : bool :=
  match pc with WExited => true | _ => false end.

Definition timer_done (pc : tpc) : bool :=
  match pc with TDone => true | _ => false end.

(** [self._threads] is empty: every greenlet added to the group has
    finished.  This is what [Group.join] waits for. *)
Definition group_empty (st : state) : bool :=
  forallb worker_exited (workers st) && forallb timer_done (timers st).

Definition caller_step (l : label) (st : state) : option state :=
  match l, caller st with
  | LStop, CIdle => Some (set_caller CStop (set_stop true st))
  | LWait timeout, CIdle =>
      Some (set_caller (CWait (option_map (Z.add (now st)) timeout)) st)
  | LReturn true, (CStop | CWait _) =>
      if group_empty st then Some (set_caller CIdle st) else None
  | LReturn false, CWait (Some deadline) =>
      if (deadline <=? now st) && negb (group_empty st)
      then Some (set_caller CIdle st) else None
  | _, _ => None
  end.

(** ** The transition system *)

Definition step (cfg : config) (l : label) (st : state) : option state :=
  match l with
  | LWorker i a => worker_step cfg i a st
  | LTimer j => timer_step j st
  | LTick d => if 0 <? d then Some (set_now (now st + d) st) else None
  | LStop | LWait _ | LReturn _ => caller_step l st
  | LRaise i => worker_raise cfg i st
  end.

Fixpoint run (cfg : config) (ls : list label) (st : state) : option state :=
  match ls with
  | [] => Some st
  | l :: ls' =>
      match step cfg l st with
      | Some st' => run cfg ls' st'
      | None => None
      end
  end.

(** The states the scheduler can be in after [start] on a listing. *)
Definition reachable (cfg : config) (listing : list sensor) (st : state) : Prop :=
  exists ls, run cfg ls (start cfg listing construct) = Some st.

(** ** Bookkeeping for the invariants *)

Fixpoint tally {A : Type} (f : A -> Z) (l : list A) : Z :=
  match l with
  | [] => 0
  | x :: l' => f x + tally f l'
  end.

(** A worker between its increment (126) and its spawn (127) accounts for
    one unit of [_pendingReCheck]; so does every deferred re-check that has
    not decremented yet (124). *)
Definition worker_owes (pc : wpc) : Z :=
  match pc with WSpawn _ => 1 | _ => 0 end.

Definition timer_owes (pc : tpc) : Z :=
  match pc with TDone => 0 | _ => 1 end.

(** The program points inside a [with self._lock] block. *)
Definition worker_holds (pc : wpc) : bool :=
  match pc with WCheckIdle | WInc _ => true | _ => false end.

Definition timer_holds (pc : tpc) : bool :=
  match pc with TPut _ | TDec _ => true | _ => false end.

(** How the lock may change when a greenlet moves between program points
    that are inside ([true]) or outside ([false]) a [with self._lock]. *)
Definition lock_moves (me : actor) (held held' : bool) (l l' : option actor) : Prop :=
  match held, held' with
  | false, true => l = None /\ l' = Some me
  | true, false => l' = None
  | _, _ => l' = l
  end.

(** ** A greenlet's own part of the trace *)

Definition actor_eqb (x y : actor) : bool :=
  match x, y with
  | Worker i, Worker k => Nat.eqb i k
  | Timer j, Timer k => Nat.eqb j k
  | _, _ => false
  end.

Fixpoint actions_of (who : actor) (tr : list (actor * action)) : list action :=
  match tr with
  | [] => []
  | (w, a) :: tr' =>
      if actor_eqb who w then a :: actions_of who tr' else actions_of who tr'
  end.

(** The labels [ls] hold no step of worker [i]: they are steps of other
    workers, of deferred re-checks, of the clock and of the caller. *)
Definition quiet (i : nat) (ls : list label) : Prop :=
  Forall (fun l => (forall a, l <> LWorker i a) /\ l <> LRaise i) ls.

(** ** Vocabulary of the claims *)

(** The answer line 101 needs: the platform when the filter is active,
    nothing when all three flags are true. *)
Definition platform_answer (cfg : config) (platform : string) : answer :=
  if platform_consulted cfg then APlat platform else ANone.

(** The answer line 111 needs. *)
Definition tags_answer (cfg : config) (sensorTags : list string) : answer :=
  match tags cfg with Some _ => ATags sensorTags | None => ANone end.

Definition tags_pass (cfg : config) (sensorTags : list string) : bool :=
  match tags cfg with
  | Some required => has_all_tags required sensorTags
  | None => true
  end.

(** What lines 101 and 111 add to the trace. *)
Definition platform_query (cfg : config) (s : sensor) : list action :=
  if platform_consulted cfg then [GetInfo s] else [].

Definition tags_query (cfg : config) (s : sensor) : list action :=
  match tags cfg with Some _ => [GetTags s] | None => [] end.

(** The platform is one of the platforms whose flag is true: the
    inclusion filter as the configuration table words it. *)
Definition platform_enabled (cfg : config) (platform : string) : bool :=
  (String.eqb platform "windows" && isWindows cfg)
  || (String.eqb platform "linux" && isLinux cfg)
  || (String.eqb platform "macos" && isMacos cfg).

(** The state reached from [start] on [listing] by the labels [ls]. *)
Definition after (cfg : config) (listing : list sensor) (ls : list label) : state :=
  match run cfg ls (start cfg listing construct) with
  | Some st => st
  | None => construct
  end.

(** Configurations used at concrete inputs: every callback given, a retry
    interval of 60 seconds, no tag filter. *)
Definition one_worker : config :=
  Config true true true true 1 60 true true true None.

Definition two_workers : config :=
  Config true true true true 2 60 true true true None.

Definition no_windows : config :=
  Config true true true true 1 60 false true true None.

Definition no_platforms : config :=
  Config true true true true 1 60 false false false None.

Definition tagged : config :=
  Config true true true true 1 60 true true true (Some ["vip"%string]).

Definition no_workers : config :=
  Config true true true true 0 60 true true true None.

(** A worker's steps from the top of the loop to line 126, for a sensor
    that passes the filters of [one_worker] and is offline. *)
Definition to_increment (i : nat) : list label :=
  [LWorker i ANone; LWorker i ANone; LWorker i ANone; LWorker i ANone;
   LWorker i (AOnline false); LWorker i ANone; LWorker i ANone].

(** A worker's steps from the top of the loop to the retry sleep of line
    147, for a sensor whose check returns false. *)
Definition to_retry_sleep (i : nat) : list label :=
  [LWorker i ANone; LWorker i ANone; LWorker i ANone; LWorker i ANone;
   LWorker i (AOnline true); LWorker i ANone;
   LWorker i (ACheck (Returned false)); LWorker i ANone; LWorker i ANone].

(** A worker's steps from the top of the loop to the test of line 94, on an
    empty queue. *)
Definition to_idle_check (i : nat) : list label :=
  [LWorker i ANone; LWorker i ANone; LWorker i ANone].

(** A worker's steps from the top of the loop to the check callback, for a
    sensor that passes the filters of [one_worker] and is online. *)
Definition to_check (i : nat) : list label :=
  [LWorker i ANone; LWorker i ANone; LWorker i ANone; LWorker i ANone;
   LWorker i (AOnline true); LWorker i ANone].

Record inv (st : state) : Prop := Inv {
  inv_pending :
    pendingReCheck st
    = tally worker_owes (workers st) + tally timer_owes (timers st);
  inv_wlock : forall i pc,
    workers st !! i = Some pc -> worker_holds pc = true ->
    lock st = Some (Worker i);
  inv_tlock : forall j pc,
    timers st !! j = Some pc -> timer_holds pc = true ->
    lock st = Some (Timer j)
}.

(** ** Further bookkeeping: who holds the lock, where the sensors are *)

(** The lock names a greenlet only while that greenlet is inside a
    [with self._lock] block. *)
Definition lock_owned (st : state) : Prop :=
  match lock st with
  | None => True
  | Some (Worker i) =>
      exists pc, workers st !! i = Some pc /\ worker_holds pc = true
  | Some (Timer j) =>
      exists pc, timers st !! j = Some pc /\ timer_holds pc = true
  end.

(** The label of a greenlet's next step when it needs no answer. *)
Definition own_label (who : actor) : label :=
  match who with
  | Worker i => LWorker i ANone
  | Timer j => LTimer j
  end.

(** The sensor a worker holds in its local variable [sensor] between the
    pop of line 88 and the end of the visit. *)
Definition worker_sensor (pc : wpc) : list sensor :=
  match pc with
  | WPlatform s | WTags s | WOnline s | WOffline s | WAcquireInc s | WInc s
  | WSpawn s | WStart s | WCheck s | WError s _ | WResult s _ | WRetry s
  | WSleepRetry s _ | WPut s | WDone s => [s]
  | WLoop | WPop | WAcquireIdle | WCheckIdle | WBackoff _ | WExited => []
  end.

(** The sensor a deferred re-check holds in its argument [s] until it has
    put it in the queue (line 123). *)
Definition timer_sensor (pc : tpc) : list sensor :=
  match pc with
  | TWait s _ | TAcquire s | TPut s => [s]
  | TDec _ | TDone => []
  end.

(** Every place a sensor handle can be: the queue, a worker's local
    variable, a deferred re-check's argument. *)
Definition in_flight (st : state) : list sensor :=
  sensorsLeftToCheck st
  ++ flat_map worker_sensor (workers st)
  ++ flat_map timer_sensor (timers st).

(** ** Schedules *)

(** The labels of one successful visit by worker [i], from the top of the
    loop back to it: the sensor [s] reports the platform [plat s] and the
    tags [stags s], is online, and its check returns true. *)
Definition visit_labels (cfg : config) (plat : sensor -> string)
           (stags : sensor -> list string) (i : nat) (s : sensor) : list label :=
  [LWorker i ANone; LWorker i ANone;
   LWorker i (platform_answer cfg (plat s));
   LWorker i (tags_answer cfg (stags s));
   LWorker i (AOnline true); LWorker i ANone;
   LWorker i (ACheck (Returned true)); LWorker i ANone; LWorker i ANone].

(** What such a visit adds to the worker's trace. *)
Definition visit_actions (cfg : config) (s : sensor) : list action :=
  platform_query cfg s ++ tags_query cfg s ++ [IsOnline s]
  ++ call (cbOnStartCheck cfg) (OnStartCheck s) ++ [Check s]
  ++ call (cbOnCheckDone cfg) (OnCheckDone s).

(** The labels by which worker [i] finds the queue empty and leaves: loop
    test, failed pop, lock, test of line 94. *)
Definition exit_labels (i : nat) : list label :=
  replicate 4 (LWorker i ANone).

(** Two workers and two sensors, every visit succeeding: both workers
    test the stop event, worker 0 pops sensor 7 and worker 1 sensor 8, worker
    1 finishes its visit first, and both leave through the test of line 94. *)
Definition two_visits : list label :=
  [LWorker 0 ANone; LWorker 1 ANone; LWorker 0 ANone; LWorker 1 ANone]
  ++ map (LWorker 1) [ANone; ANone; AOnline true; ANone;
                      ACheck (Returned true); ANone; ANone]
  ++ map (LWorker 0) [ANone; ANone; AOnline true; ANone;
                      ACheck (Returned true); ANone; ANone]
  ++ exit_labels 1 ++ exit_labels 0.

(** One worker and a sensor that is offline twice: the visit up to the
    spawn of the deferred re-check, the failed pop and the test of line 94
    with its 2 seconds of sleep, the retry interval, the deferred re-check,
    and the second visit up to the spawn of the next one. *)
Definition offline_twice : list label :=
  to_increment 0 ++ [LWorker 0 ANone; LWorker 0 ANone]
  ++ replicate 4 (LWorker 0 ANone) ++ [LTick 60] ++ replicate 4 (LTimer 0)
  ++ [LWorker 0 ANone]
  ++ to_increment 0 ++ [LWorker 0 ANone; LWorker 0 ANone].

(** ** Distance to the exit

    An upper bound on the number of stages a worker at [pc] still has to go
    through before it can leave its loop, once the stop event is set and the
    environment answers favourably (the sensor is online, the check returns
    true). *)
Definition wdist (pc : wpc) : nat :=
  match pc with
  | WExited => 0
  | WLoop => 1
  | WBackoff _ | WDone _ | WPut _ | WSpawn _ => 2
  | WAcquireIdle | WCheckIdle | WSleepRetry _ _ | WInc _ | WAcquireInc _ => 3
  | WRetry _ | WOffline _ => 4
  | WResult _ _ => 5
  | WError _ _ => 6
  | WCheck _ => 7
  | WStart _ => 8
  | WOnline _ => 9
  | WTags _ => 10
  | WPlatform _ => 11
  | WPop => 12
  end.

(** Tags that pass the tag filter of [cfg]: the required ones. *)
Definition passing_tags (cfg : config) : list string :=
  match tags cfg with Some required => required | None => [] end.

(** The labels that let the clock reach [wake]. *)
Definition tick_to (wake : Z) (st : state) : list label :=
  if wake <=? now st then [] else [LTick (wake - now st)].

(** ** Counting sensors, exceptions and workers *)

(** How often the handle [s] occurs in a list of handles. *)
Definition occurs (s : sensor) (l : list sensor) : Z :=
  tally (fun x => if Nat.eqb s x then 1 else 0) l.

(** How many of the labels are exceptions that nothing catches. *)
Definition raised (l : label) : Z :=
  match l with LRaise _ => 1 | _ => 0 end.

Definition raises (ls : list label) : Z := tally raised ls.

Definition worker_ended (pc : wpc) : Z :=
  if worker_exited pc then 1 else 0.

(** A worker that is in its loop and holds no sensor: it is on its way to
    the next pop or to the test of line 94. *)
Definition worker_free (pc : wpc) : Z :=
  match pc with
  | WLoop | WPop | WAcquireIdle | WCheckIdle | WBackoff _ => 1
  | _ => 0
  end.

(** A deferred re-check that still has its sensor to put. *)
Definition timer_has (pc : tpc) : Z :=
  match pc with
  | TWait _ _ | TAcquire _ | TPut _ => 1
  | TDec _ | TDone => 0
  end.

(** Without a stop, at least [died] workers have ended, and if more have
    ended than that (one of them then returned through the test of line 94,
    [died] being the number of exceptions so far), the queue and the deferred
    re-checks together hold no more sensors than there are workers free to
    take them. *)
Definition enough_workers (died : Z) (st : state) : Prop :=
  stopEvent st = false ->
  died <= tally worker_ended (workers st)
  /\ (died < tally worker_ended (workers st) ->
      Z.of_nat (length (sensorsLeftToCheck st)) + tally timer_has (timers st)
      <= tally worker_free (workers st)).

(** ** Runs in which every visit succeeds *)

(** The environment's answer lets the visit go on to the check and the
    check end the visit: the sensor passes the filters, is online, and its
    check returns a true value or raises; no other call raises. *)
Definition favourable (cfg : config) (l : label) : bool :=
  match l with
  | LWorker _ (APlat platform) => negb (platform_skipped cfg platform)
  | LWorker _ (ATags sensorTags) => tags_pass cfg sensorTags
  | LWorker _ (AOnline online) => online
  | LWorker _ (ACheck (Returned result)) => result
  | LRaise _ => false
  | _ => true
  end.

(** The sensors the check callback was called with, in the order of the
    calls. *)
Definition checked (tr : list (actor * action)) : list sensor :=
  flat_map (fun e => match snd e with Check s => [s] | _ => [] end) tr.

(** The program points of the offline path and of the retry path. *)
Definition off_track (pc : wpc) : Z :=
  match pc with
  | WOffline _ | WAcquireInc _ | WInc _ | WSpawn _ | WRetry _
  | WSleepRetry _ _ | WPut _ | WResult _ false => 1
  | _ => 0
  end.

(** The sensor a worker holds and has not yet called the check with. *)
Definition unchecked (pc : wpc) : list sensor :=
  match pc with
  | WPlatform s | WTags s | WOnline s | WStart s | WCheck s => [s]
  | _ => []
  end.

(** In a run in which every visit succeeds no deferred re-check exists,
    no worker is on the offline or the retry path, and every listed sensor
    is either checked already, or in the queue, or held by a worker that has
    yet to call the check with it. *)
Definition on_track (listing : list sensor) (st : state) : Prop :=
  timers st = []
  /\ tally off_track (workers st) = 0
  /\ forall s,
       occurs s (checked (trace st)) + occurs s (sensorsLeftToCheck st)
       + tally (fun pc => occurs s (unchecked pc)) (workers st)
       = occurs s listing.

(** The same with a single worker, where the order is kept. *)
Definition in_order (listing : list sensor) (st : state) : Prop :=
  exists pc,
    workers st = [pc] /\ off_track pc = 0 /\ timers st = []
    /\ checked (trace st) ++ unchecked pc ++ sensorsLeftToCheck st = listing.

(** ** Runs in which a sensor stays offline *)

(** The label is a step of a worker that holds the sensor [s]. *)
Definition visits (s : sensor) (l : label) (st : state) : bool :=
  match l with
  | LWorker i _ | LRaise i =>
      match workers st !! i with
      | Some pc => existsb (Nat.eqb s) (worker_sensor pc)
      | None => false
      end
  | _ => false
  end.

(** The environment's answer keeps the visit on the offline path: the
    sensor passes the filters and is reported offline, and no call raises. *)
Definition keeps (cfg : config) (l : label) : bool :=
  match l with
  | LWorker _ (APlat platform) => negb (platform_skipped cfg platform)
  | LWorker _ (ATags sensorTags) => tags_pass cfg sensorTags
  | LWorker _ (AOnline online) => negb online
  | LRaise _ => false
  | _ => true
  end.

(** Along the run [ls] from [st], every step of a visit of [s] keeps it on
    the offline path; the visits of other sensors are free. *)
Fixpoint offline_throughout (cfg : config) (s : sensor) (ls : list label)
         (st : state) : bool :=
  match ls with
  | [] => true
  | l :: ls' =>
      (if visits s l st then keeps cfg l else true)
      && match step cfg l st with
         | Some st' => offline_throughout cfg s ls' st'
         | None => true
         end
  end.

(** The program points from line 130 on, when the sensor held is [s]. *)
Definition checking (s : sensor) (pc : wpc) : Z :=
  match pc with
  | WStart x | WCheck x | WError x _ | WResult x _ | WRetry x
  | WSleepRetry x _ | WPut x | WDone x => occurs s [x]
  | _ => 0
  end.

(** How many handles of [s] the scheduler holds: in the queue, in the
    workers' local variables, in the deferred re-checks. *)
Definition copies (s : sensor) (st : state) : Z :=
  occurs s (sensorsLeftToCheck st)
  + tally (fun pc => occurs s (worker_sensor pc)) (workers st)
  + tally (fun pc => occurs s (timer_sensor pc)) (timers st).

(** None of the [n] handles of [s] is lost, no worker is past line 129 with
    it, and the check was never called with it. *)
Definition kept_offline (s : sensor) (n : Z) (st : state) : Prop :=
  copies s st = n
  /\ tally (checking s) (workers st) = 0
  /\ occurs s (checked (trace st)) = 0.

(** ** The command line's [--tags] (line 190)

    [lambda x: [ _.strip().lower() for _ in x.split( ',' ) ]] on the byte
    strings of Python 2, for which this file is written (line 302 decodes a
    [str] from hex): [strip] removes the six whitespace bytes of the C
    locale from both ends and [lower] maps the bytes A-Z to a-z. *)

(** [c in ' \t\n\v\f\r'] *)
Definition is_space (c : Ascii.ascii) : bool :=
  let n := Ascii.nat_of_ascii c in
  Nat.eqb n 32 || (Nat.leb 9 n && Nat.leb n 13).

Definition is_upper (c : Ascii.ascii) : bool :=
  let n := Ascii.nat_of_ascii c in Nat.leb 65 n && Nat.leb n 90.

Definition lower_char (c : Ascii.ascii) : Ascii.ascii :=
  if is_upper c then Ascii.ascii_of_nat (Ascii.nat_of_ascii c + 32) else c.

(** [str.lower] *)
Fixpoint lower (x : string) : string :=
  match x with
  | String.EmptyString => String.EmptyString
  | String.String c x' => String.String (lower_char c) (lower x')
  end.

(** [str.lstrip], [str.rstrip] and [str.strip] without argument. *)
Fixpoint lstrip (x : string) : string :=
  match x with
  | String.EmptyString => String.EmptyString
  | String.String c x' => if is_space c then lstrip x' else x
  end.

Fixpoint rstrip (x : string) : string :=
  match x with
  | String.EmptyString => String.EmptyString
  | String.String c x' =>
      match rstrip x' with
      | String.EmptyString =>
          if is_space c then String.EmptyString
          else String.String c String.EmptyString
      | r => String.String c r
      end
  end.

Definition strip (x : string) : string := rstrip (lstrip x).

(** [x.split( sep )] for a one-byte separator: one field more than there
    are separators, the empty string giving one empty field. *)
Fixpoint split (sep : Ascii.ascii) (x : string) : list string :=
  match x with
  | String.EmptyString => [String.EmptyString]
  | String.String c x' =>
      if Ascii.eqb c sep then String.EmptyString :: split sep x'
      else match split sep x' with
           | field :: fields => String.String c field :: fields
           | [] => [String.String c String.EmptyString]
           end
  end.

(** The byte [','] *)
Definition comma : Ascii.ascii := Ascii.ascii_of_nat 44.

Definition parse_tags (x : string) : list string :=
  map (fun field => lower (strip field)) (split comma x).

(** How often the byte [c] occurs in [x]. *)
Fixpoint occurrences (c : Ascii.ascii) (x : string) : nat :=
  match x with
  | String.EmptyString => 0%nat
  | String.String d x' =>
      ((if Ascii.eqb d c then 1 else 0) + occurrences c x')%nat
  end.

(** Every byte of [x] satisfies [p]. *)
Fixpoint all_bytes (p : Ascii.ascii -> bool) (x : string) : bool :=
  match x with
  | String.EmptyString => true
  | String.String c x' => p c && all_bytes p x'
  end.

Definition first_byte (x : string) : option Ascii.ascii :=
  match x with String.EmptyString => None | String.String c _ => Some c end.

Fixpoint last_byte (x : string) : option Ascii.ascii :=
  match x with
  | String.EmptyString => None
  | String.String c String.EmptyString => Some c
  | String.String _ x' => last_byte x'
  end.

(** [x] neither starts nor ends with a whitespace byte. *)
Definition trimmed (x : string) : bool :=
  match first_byte x, last_byte x with
  | Some c, Some d => negb (is_space c) && negb (is_space d)
  | _, _ => true
  end.

(** ** Symbolic execution of a greenlet's own steps *)

Ltac own_step Hi Hlt :=
  cbn [run step]; first [unfold worker_step at 1 | unfold timer_step at 1];
  cbn [workers timers goto tgoto emit set_workers set_timers set_queue
       set_lock set_pending set_now set_stop set_caller sensorsLeftToCheck
       lock pendingReCheck stopEvent now trace caller];
  first [ rewrite Hi
        | rewrite list_lookup_insert_eq
            by (rewrite ?length_insert, ?length_app; first [exact Hlt | lia]) ];
  cbn match.

Lemma tally_app {A : Type} (f : A -> Z) (l1 l2 : list A) :
  tally f (l1 ++ l2) = tally f l1 + tally f l2.
Proof. induction l1 as [|x l1 IH]; simpl; [reflexivity | rewrite IH; lia]. Qed.

Lemma tally_insert {A : Type} (f : A -> Z) (l : list A) (i : nat) (x y : A) :
  l !! i = Some x -> tally f (<[i:=y]> l) = tally f l - f x + f y.
Proof.
  revert i. induction l as [|z l IH]; intros [|i] Hi; simpl in *; try discriminate.
  - injection Hi as ->. lia.
  - rewrite (IH i Hi). lia.
Qed.

Lemma tally_replicate {A : Type} (f : A -> Z) (n : nat) (x : A) :
  tally f (replicate n x) = Z.of_nat n * f x.
Proof. induction n as [|n IH]; [reflexivity |]. cbn [replicate tally]. rewrite IH. lia. Qed.

Lemma tally_nonneg {A : Type} (f : A -> Z) (l : list A) :
  (forall x, 0 <= f x) -> 0 <= tally f l.
Proof. intros Hf. induction l as [|x l IH]; simpl; [lia | specialize (Hf x); lia]. Qed.

Lemma tally_zero {A : Type} (f : A -> Z) (l : list A) (i : nat) (x : A) :
  (forall y, 0 <= f y) -> tally f l = 0 -> l !! i = Some x -> f x = 0.
Proof.
  intros Hf. revert i. induction l as [|z l IH]; intros [|i] H0 Hi; simpl in *; try discriminate.
  - injection Hi as ->. pose proof (tally_nonneg f l Hf). specialize (Hf x). lia.
  - apply (IH i); [|exact Hi]. pose proof (tally_nonneg f l Hf). specialize (Hf z). lia.
Qed.

Lemma worker_owes_nonneg pc : 0 <= worker_owes pc.
Proof. destruct pc; simpl; lia. Qed.

Lemma timer_owes_nonneg pc : 0 <= timer_owes pc.
Proof. destruct pc; simpl; lia. Qed.

(** An unguarded call is made outside the [with self._lock] blocks, by a
    worker that holds a sensor and has not left its loop. *)
Lemma unguarded_call_pc cfg pc a :
  unguarded_call cfg pc = Some a ->
  worker_holds pc = false /\ worker_owes pc = 0 /\ worker_exited pc = false
  /\ exists s, worker_sensor pc = [s].
Proof.
  intros H. destruct pc; try discriminate H;
    (split; [reflexivity|]; split; [reflexivity|]; split; [reflexivity|];
     eexists; reflexivity).
Qed.

Lemma worker_raise_inv cfg i st st' :
  worker_raise cfg i st = Some st' ->
  exists pc a,
    workers st !! i = Some pc /\ unguarded_call cfg pc = Some a
    /\ st' = goto i WExited (emit (Worker i) [a] st).
Proof.
  unfold worker_raise. intros H.
  destruct (workers st !! i) as [pc|]; [|discriminate].
  destruct (unguarded_call cfg pc) as [a|] eqn:Hc; [|discriminate].
  injection H as <-. exists pc, a. repeat split. exact Hc.
Qed.

Lemma inv_start cfg listing : inv (start cfg listing construct).
Proof.
  split; simpl.
  - rewrite tally_replicate. simpl. lia.
  - intros i pc Hi Hh. apply lookup_replicate in Hi as [-> _]. discriminate.
  - intros j pc Hj. rewrite lookup_nil in Hj. discriminate.
Qed.

(** ** Preservation of the invariant *)

(** The invariant reads only the counter, the lock and the two lists of
    program counters. *)
Lemma inv_frame st st' :
  pendingReCheck st' = pendingReCheck st -> lock st' = lock st ->
  workers st' = workers st -> timers st' = timers st ->
  inv st -> inv st'.
Proof.
  intros Hp Hl Hw Ht [I1 I2 I3]. split; rewrite ?Hp, ?Hl, ?Hw, ?Ht; assumption.
Qed.

(** A worker moves from [pc] to [pc'], possibly spawning deferred
    re-checks [new]. *)
Lemma inv_worker_move st st' i pc pc' (new : list tpc) :
  inv st -> workers st !! i = Some pc ->
  workers st' = <[i:=pc']> (workers st) ->
  timers st' = timers st ++ new ->
  Forall (fun q => timer_holds q = false) new ->
  pendingReCheck st' + worker_owes pc
    = pendingReCheck st + worker_owes pc' + tally timer_owes new ->
  lock_moves (Worker i) (worker_holds pc) (worker_holds pc') (lock st) (lock st') ->
  inv st'.
Proof.
  intros [I1 I2 I3] Hi Hw Ht Hnew Hp Hl.
  assert (Hlt : (i < length (workers st))%nat) by (eapply lookup_lt_Some; eassumption).
  unfold lock_moves in Hl. split.
  - rewrite Hw, Ht, tally_app, (tally_insert _ _ _ pc) by assumption. lia.
  - intros k q Hk Hq. rewrite Hw in Hk.
    destruct (decide (k = i)) as [->|Hne].
    + rewrite list_lookup_insert_eq in Hk by assumption. injection Hk as <-.
      rewrite Hq in Hl. destruct (worker_holds pc) eqn:E.
      * rewrite Hl. eapply I2; eassumption.
      * apply Hl.
    + rewrite list_lookup_insert_ne in Hk by congruence.
      pose proof (I2 k q Hk Hq) as Hk'.
      destruct (worker_holds pc) eqn:E.
      * pose proof (I2 i pc Hi E). congruence.
      * destruct (worker_holds pc'); [destruct Hl; congruence | congruence].
  - intros k q Hk Hq. rewrite Ht in Hk.
    apply lookup_app_Some in Hk as [Hk|[_ Hk]].
    + pose proof (I3 k q Hk Hq) as Hk'.
      destruct (worker_holds pc) eqn:E.
      * pose proof (I2 i pc Hi E). congruence.
      * destruct (worker_holds pc'); [destruct Hl; congruence | congruence].
    + rewrite Forall_lookup in Hnew. rewrite (Hnew _ _ Hk) in Hq. discriminate.
Qed.

(** A deferred re-check moves from [pc] to [pc']. *)
Lemma inv_timer_move st st' j pc pc' :
  inv st -> timers st !! j = Some pc ->
  workers st' = workers st ->
  timers st' = <[j:=pc']> (timers st) ->
  pendingReCheck st' + timer_owes pc = pendingReCheck st + timer_owes pc' ->
  lock_moves (Timer j) (timer_holds pc) (timer_holds pc') (lock st) (lock st') ->
  inv st'.
Proof.
  intros [I1 I2 I3] Hj Hw Ht Hp Hl.
  assert (Hlt : (j < length (timers st))%nat) by (eapply lookup_lt_Some; eassumption).
  unfold lock_moves in Hl. split.
  - rewrite Hw, Ht, (tally_insert _ _ _ pc) by assumption. lia.
  - intros k q Hk Hq. rewrite Hw in Hk.
    pose proof (I2 k q Hk Hq) as Hk'.
    destruct (timer_holds pc) eqn:E.
    + pose proof (I3 j pc Hj E). congruence.
    + destruct (timer_holds pc'); [destruct Hl; congruence | congruence].
  - intros k q Hk Hq. rewrite Ht in Hk.
    destruct (decide (k = j)) as [->|Hne].
    + rewrite list_lookup_insert_eq in Hk by assumption. injection Hk as <-.
      rewrite Hq in Hl. destruct (timer_holds pc) eqn:E.
      * rewrite Hl. eapply I3; eassumption.
      * apply Hl.
    + rewrite list_lookup_insert_ne in Hk by congruence.
      pose proof (I3 k q Hk Hq) as Hk'.
      destruct (timer_holds pc) eqn:E.
      * pose proof (I3 j pc Hj E). congruence.
      * destruct (timer_holds pc'); [destruct Hl; congruence | congruence].
Qed.

Lemma inv_worker_step cfg i a st st' :
  inv st -> worker_step cfg i a st = Some st' -> inv st'.
Proof.
  intros I H. unfold worker_step in H.
  destruct (workers st !! i) as [pc|] eqn:Hi; [|discriminate].
  destruct pc, a; try discriminate;
    repeat match type of H with
           | context [match ?x with _ => _ end] => destruct x eqn:?
           end;
    try discriminate; injection H as <-;
    (eapply (inv_worker_move st _ i _ _ []); [exact I | exact Hi | reflexivity | cbn; rewrite ?app_nil_r; reflexivity | constructor | cbn; lia | cbn; auto])
    || idtac.
  all: try (eapply (inv_worker_move st _ i _ _ [TWait _ _]); [exact I | exact Hi | reflexivity | reflexivity | repeat constructor | cbn; lia | cbn; auto]).
Qed.

Lemma inv_timer_step j st st' :
  inv st -> timer_step j st = Some st' -> inv st'.
Proof.
  intros I H. unfold timer_step in H.
  destruct (timers st !! j) as [pc|] eqn:Hj; [|discriminate].
  destruct pc;
    repeat match type of H with
           | context [match ?x with _ => _ end] => destruct x eqn:?
           end;
    try discriminate; injection H as <-;
    (eapply (inv_timer_move st _ j); [exact I | exact Hj | reflexivity | reflexivity | cbn; lia | cbn; auto]).
Qed.

Lemma inv_caller_step l st st' :
  inv st -> caller_step l st = Some st' -> inv st'.
Proof.
  intros I H. unfold caller_step in H.
  repeat match type of H with
         | context [match ?x with _ => _ end] => destruct x eqn:?
         end;
    try discriminate; injection H as <-;
    (apply (inv_frame st); first [reflexivity | exact I]).
Qed.

Lemma inv_worker_raise cfg i st st' :
  inv st -> worker_raise cfg i st = Some st' -> inv st'.
Proof.
  intros I H. apply worker_raise_inv in H as (pc & a & Hi & Hc & ->).
  destruct (unguarded_call_pc _ _ _ Hc) as (Hh & Ho & _).
  eapply (inv_worker_move st _ i pc WExited []);
    [ exact I | exact Hi | reflexivity | cbn; rewrite app_nil_r; reflexivity
    | constructor | cbn; rewrite Ho; lia
    | unfold lock_moves; rewrite Hh; reflexivity ].
Qed.

Lemma inv_step cfg l st st' :
  inv st -> step cfg l st = Some st' -> inv st'.
Proof.
  intros I H. destruct l.
  - exact (inv_worker_step _ _ _ _ _ I H).
  - exact (inv_timer_step _ _ _ I H).
  - simpl in H. destruct (0 <? d); [|discriminate]. injection H as <-.
    apply (inv_frame st); first [reflexivity | exact I].
  - exact (inv_caller_step _ _ _ I H).
  - exact (inv_caller_step _ _ _ I H).
  - exact (inv_caller_step _ _ _ I H).
  - exact (inv_worker_raise _ _ _ _ I H).
Qed.

Lemma inv_run cfg ls st st' :
  inv st -> run cfg ls st = Some st' -> inv st'.
Proof.
  revert st. induction ls as [|l ls IH]; intros st I H; simpl in H.
  - injection H as <-. exact I.
  - destruct (step cfg l st) as [st1|] eqn:E; [|discriminate].
    eapply IH; [eapply inv_step; eassumption | exact H].
Qed.

Lemma inv_reachable cfg listing st :
  reachable cfg listing st -> inv st.
Proof. intros [ls H]. eapply inv_run; [apply inv_start | exact H]. Qed.

Lemma run_app cfg ls1 ls2 st :
  run cfg (ls1 ++ ls2) st
  = match run cfg ls1 st with Some st' => run cfg ls2 st' | None => None end.
Proof.
  revert st. induction ls1 as [|l ls1 IH]; intros st; simpl; [reflexivity|].
  destruct (step cfg l st); [apply IH | reflexivity].
Qed.

Lemma reachable_step cfg listing l st st' :
  reachable cfg listing st -> step cfg l st = Some st' ->
  reachable cfg listing st'.
Proof.
  intros [ls H] Hs. exists (ls ++ [l]). rewrite run_app, H. simpl. rewrite Hs. reflexivity.
Qed.

Lemma reachable_run cfg listing ls st st' :
  reachable cfg listing st -> run cfg ls st = Some st' ->
  reachable cfg listing st'.
Proof.
  intros [ls0 H] Hr. exists (ls0 ++ ls). rewrite run_app, H. exact Hr.
Qed.


Lemma actor_eqb_refl who : actor_eqb who who = true.
Proof. destruct who; simpl; apply Nat.eqb_refl. Qed.

Lemma actions_of_app who tr1 tr2 :
  actions_of who (tr1 ++ tr2) = actions_of who tr1 ++ actions_of who tr2.
Proof.
  induction tr1 as [|[w a] tr1 IH]; simpl; [reflexivity|].
  destruct (actor_eqb who w); simpl; rewrite IH; reflexivity.
Qed.

Lemma actions_of_own who acts : actions_of who (map (pair who) acts) = acts.
Proof.
  induction acts as [|a acts IH]; simpl; [reflexivity|].
  rewrite actor_eqb_refl, IH. reflexivity.
Qed.

Lemma actions_of_other who who' acts :
  actor_eqb who who' = false -> actions_of who (map (pair who') acts) = [].
Proof.
  intros H. induction acts as [|a acts IH]; simpl; [reflexivity|].
  rewrite H. exact IH.
Qed.

Lemma actions_of_emit who who' acts st :
  actions_of who (trace (emit who' acts st))
  = actions_of who (trace st)
    ++ (if actor_eqb who who' then acts else []).
Proof.
  cbn. rewrite actions_of_app. destruct (actor_eqb who who') eqn:E.
  - destruct who, who'; simpl in E; try discriminate;
      apply Nat.eqb_eq in E; subst; rewrite actions_of_own; reflexivity.
  - rewrite actions_of_other by exact E. reflexivity.
Qed.

(** Steps of other greenlets, of the clock and of the caller leave a
    worker where it is and add nothing to its part of the trace: its visit
    of a sensor is made of its own steps. *)
Lemma other_step_keeps_worker cfg l st st' i :
  step cfg l st = Some st' ->
  (forall a, l <> LWorker i a) /\ l <> LRaise i ->
  workers st' !! i = workers st !! i
  /\ actions_of (Worker i) (trace st') = actions_of (Worker i) (trace st)
  /\ now st <= now st'.
Proof.
  intros H [Hl Hr]. destruct l as [k a| j | d | | timeout | r | k]; simpl in H.
  - assert (k <> i) as Hk by (intros ->; exact (Hl a eq_refl)).
    assert (Hik : actor_eqb (Worker i) (Worker k) = false)
      by (simpl; apply Nat.eqb_neq; congruence).
    unfold worker_step in H.
    destruct (workers st !! k) as [pc|]; [|discriminate].
    destruct pc, a; try discriminate;
      repeat match type of H with
             | context [match ?x with _ => _ end] => destruct x eqn:?
             end;
      try discriminate; injection H as <-;
      (split; [cbn; apply list_lookup_insert_ne; exact Hk|]);
      (split; [|cbn; lia]);
      cbn [goto set_workers set_queue set_timers set_lock set_pending trace];
      rewrite ?actions_of_emit, ?Hik, ?app_nil_r; reflexivity.
  - unfold timer_step in H.
    destruct (timers st !! j) as [pc|]; [|discriminate].
    destruct pc;
      repeat match type of H with
             | context [match ?x with _ => _ end] => destruct x eqn:?
             end;
      try discriminate; injection H as <-;
      (split; [reflexivity|]); (split; [|cbn; lia]);
      cbn [tgoto set_workers set_queue set_timers set_lock set_pending trace];
      rewrite ?actions_of_emit; cbn [actor_eqb]; rewrite ?app_nil_r; reflexivity.
  - destruct (0 <? d) eqn:Hd; [|discriminate]. injection H as <-.
    apply Z.ltb_lt in Hd. cbn. repeat split; [reflexivity .. | lia].
  - unfold caller_step in H. destruct (caller st); try discriminate.
    injection H as <-. cbn. repeat split; [reflexivity .. | lia].
  - unfold caller_step in H. destruct (caller st); try discriminate.
    injection H as <-. cbn. repeat split; [reflexivity .. | lia].
  - unfold caller_step in H.
    repeat match type of H with
           | context [match ?x with _ => _ end] => destruct x eqn:?
           end;
      try discriminate; injection H as <-; cbn;
      (repeat split; [reflexivity .. | lia]).
  - assert (k <> i) as Hk by (intros ->; exact (Hr eq_refl)).
    assert (Hik : actor_eqb (Worker i) (Worker k) = false)
      by (simpl; apply Nat.eqb_neq; congruence).
    apply worker_raise_inv in H as (pc & a & _ & _ & ->).
    split; [cbn; apply list_lookup_insert_ne; exact Hk|].
    split; [|cbn; lia].
    cbn [goto set_workers trace]. rewrite actions_of_emit, Hik, app_nil_r.
    reflexivity.
Qed.

Lemma quiet_run_keeps_worker cfg ls st st' i :
  run cfg ls st = Some st' -> quiet i ls ->
  workers st' !! i = workers st !! i
  /\ actions_of (Worker i) (trace st') = actions_of (Worker i) (trace st)
  /\ now st <= now st'.
Proof.
  revert st. induction ls as [|l ls IH]; intros st H Hq; simpl in H.
  - injection H as <-. repeat split; [reflexivity .. | lia].
  - destruct (step cfg l st) as [st1|] eqn:E; [|discriminate].
    apply Forall_cons in Hq as [Hl Hq].
    destruct (other_step_keeps_worker _ _ _ _ i E Hl) as (Hw & Ha & Hn).
    destruct (IH st1 H Hq) as (Hw' & Ha' & Hn').
    repeat split; [congruence .. | lia].
Qed.

(** The next own step of a worker, after any steps of the others, is taken
    at the same program counter and with the same own trace. *)
Lemma own_step_after_quiet cfg i ls a rest st st' pc :
  workers st !! i = Some pc -> quiet i ls ->
  run cfg (ls ++ LWorker i a :: rest) st = Some st' ->
  exists st1 st2,
    workers st1 !! i = Some pc
    /\ actions_of (Worker i) (trace st1) = actions_of (Worker i) (trace st)
    /\ now st <= now st1
    /\ step cfg (LWorker i a) st1 = Some st2
    /\ run cfg rest st2 = Some st'.
Proof.
  intros Hi Hq H. rewrite run_app in H.
  destruct (run cfg ls st) as [st1|] eqn:E; [|discriminate].
  destruct (quiet_run_keeps_worker _ _ _ _ i E Hq) as (Hw & Ha & Hn).
  simpl in H. destruct (worker_step cfg i a st1) as [st2|] eqn:E2; [|discriminate].
  exists st1, st2. rewrite Hw. repeat split; assumption.
Qed.

(** In an interleaved run: peel the steps of the others up to the next own
    step of worker [i], which is taken at the program counter [Hi] records. *)
Ltac peel_own lem Hrun Hi Hq Hi1 Ha1 Hn1 Hs :=
  let st1 := fresh "st" in
  let st2 := fresh "st" in
  let Hr := fresh "Hrun" in
  destruct (lem _ _ _ _ _ _ _ _ Hi Hq Hrun) as (st1 & st2 & Hi1 & Ha1 & Hn1 & Hs & Hr);
  cbn [step] in Hs; unfold worker_step in Hs; rewrite Hi1 in Hs;
  clear Hrun; rename Hr into Hrun;
  repeat match goal with
         | H : actions_of _ (trace ?X) = _ |- _ =>
             lazymatch type of Ha1 with
             | _ = actions_of _ (trace X) => rewrite H in Ha1
             end
         end.

(** After an own step [Hs : Some X = Some st2]: where the worker is in [X],
    what its own trace is, and that the step took no time. *)
Ltac settle_own i Hs Hrun Hi1 Ha1 Hn1 Hi2 Ha2 Hn2 :=
  injection Hs as <-;
  match type of Hrun with
  | run _ _ ?X = _ =>
      eassert (Hi2 : workers X !! i = Some _)
        by (cbn; apply list_lookup_insert_eq; eapply lookup_lt_Some; exact Hi1);
      eassert (Ha2 : actions_of (Worker i) (trace X) = _)
        by (cbn [goto emit set_workers set_queue set_timers set_lock
                 set_pending trace];
            rewrite ?actions_of_app, ?actions_of_own, Ha1; reflexivity);
      assert (Hn2 : now X = now ltac:(match type of Hi1 with workers ?st0 !! _ = _ => exact st0 end))
        by reflexivity
  end.

(** The first own step of an interleaved run, taken at the state the
    hypotheses describe; [Hq] rewrites what the step reads of that state. *)
Ltac first_own i Hrun Hi Hq Hi1 Ha1 Hn1 :=
  cbn [run step] in Hrun; unfold worker_step in Hrun at 1;
  rewrite Hi in Hrun; cbn match in Hrun; try rewrite Hq in Hrun;
  match type of Hrun with
  | run _ _ ?X = _ =>
      eassert (Hi1 : workers X !! i = Some _)
        by (cbn; apply list_lookup_insert_eq; eapply lookup_lt_Some; exact Hi);
      eassert (Ha1 : actions_of (Worker i) (trace X) = _)
        by (cbn [goto emit set_workers set_queue set_timers set_lock
                 set_pending trace];
            rewrite ?actions_of_app, ?actions_of_own; reflexivity);
      assert (Hn1 : now X = now ltac:(match type of Hi with workers ?st0 !! _ = _ => exact st0 end))
        by reflexivity
  end.

(** ** Outcome of the check callback (lines 134-153) *)

(** C1, as the code has it: when the check callback raises, the worker
    calls onError (if given) once with the sensor and the traceback, does not
    put the sensor back, and, because line 141 sets [result = True], goes on
    to line 152 and calls onCheckDone (if given) once for the same sensor.
    The same holds of the worker's own trace in every interleaving with the
    other greenlets. *)
Theorem check_error_reported_once cfg st i s tb :
  workers st !! i = Some (WCheck s) ->
  (exists st',
     run cfg [LWorker i (ACheck (Raised tb)); LWorker i ANone;
              LWorker i ANone; LWorker i ANone] st = Some st'
     /\ trace st' = trace st ++ map (pair (Worker i))
                      ([Check s] ++ call (cbOnError cfg) (OnError s tb)
                       ++ call (cbOnCheckDone cfg) (OnCheckDone s))
     /\ workers st' = <[i:=WLoop]> (workers st)
     /\ sensorsLeftToCheck st' = sensorsLeftToCheck st
     /\ timers st' = timers st
     /\ pendingReCheck st' = pendingReCheck st)
  /\ (forall ls1 ls2 ls3 a1 a2 a3 st',
        quiet i ls1 -> quiet i ls2 -> quiet i ls3 ->
        run cfg (LWorker i (ACheck (Raised tb)) :: ls1 ++ LWorker i a1
                 :: ls2 ++ LWorker i a2 :: ls3 ++ [LWorker i a3]) st = Some st' ->
        workers st' !! i = Some WLoop
        /\ actions_of (Worker i) (trace st')
           = actions_of (Worker i) (trace st)
             ++ [Check s] ++ call (cbOnError cfg) (OnError s tb)
             ++ call (cbOnCheckDone cfg) (OnCheckDone s)).
Proof.
  intros Hi.
  assert (Hlt : (i < length (workers st))%nat) by (eapply lookup_lt_Some; eassumption).
  split.
  - eexists. split.
    + do 4 own_step Hi Hlt. reflexivity.
    + cbn. rewrite !list_insert_insert_eq, !map_app, <- !app_assoc.
      repeat split; reflexivity.
  - intros ls1 ls2 ls3 a1 a2 a3 st' Q1 Q2 Q3 Hrun.
    first_own i Hrun Hi Hi Hi1 Ha1 Hn1.
    peel_own own_step_after_quiet Hrun Hi1 Q1 Hi2 Ha2 Hn2 Hs.
    destruct a1; try discriminate Hs.
    settle_own i Hs Hrun Hi2 Ha2 Hn2 Hi3 Ha3 Hn3.
    peel_own own_step_after_quiet Hrun Hi3 Q2 Hi4 Ha4 Hn4 Hs.
    destruct a2; try discriminate Hs.
    settle_own i Hs Hrun Hi4 Ha4 Hn4 Hi5 Ha5 Hn5.
    peel_own own_step_after_quiet Hrun Hi5 Q3 Hi6 Ha6 Hn6 Hs.
    destruct a3; try discriminate Hs.
    settle_own i Hs Hrun Hi6 Ha6 Hn6 Hi7 Ha7 Hn7.
    injection Hrun as <-. split; [exact Hi7|].
    rewrite Ha7, <- ?app_assoc. reflexivity.
Qed.

Lemma check_error_reported_once_witness :
  workers (after one_worker [7%nat] (to_check 0)) !! 0%nat = Some (WCheck 7)
  /\ exists st',
       run one_worker [LWorker 0 (ACheck (Raised "boom")); LWorker 0 ANone;
                       LWorker 0 ANone; LWorker 0 ANone]
         (after one_worker [7%nat] (to_check 0)) = Some st'
       /\ trace st' = trace (after one_worker [7%nat] (to_check 0))
                      ++ [(Worker 0, Check 7); (Worker 0, OnError 7 "boom");
                          (Worker 0, OnCheckDone 7)]
       /\ workers st' = [WLoop]
       /\ sensorsLeftToCheck st' = []
       /\ timers st' = []
       /\ pendingReCheck st' = 0.
Proof.
  split; [reflexivity|].
  exact (proj1 (check_error_reported_once one_worker
                  (after one_worker [7%nat] (to_check 0)) 0 7 "boom" eq_refl)).
Defined.

(** C1 as stated fails: with every callback given, a sensor whose check
    raises gets onError and then onCheckDone on the same visit. *)
Lemma check_error_then_done_counterexample :
  exists st,
    run one_worker (to_check 0 ++ [LWorker 0 (ACheck (Raised "boom"));
                                   LWorker 0 ANone; LWorker 0 ANone;
                                   LWorker 0 ANone])
      (start one_worker [7%nat] construct) = Some st
    /\ trace st = [(Worker 0, IsOnline 7); (Worker 0, OnStartCheck 7);
                   (Worker 0, Check 7); (Worker 0, OnError 7 "boom");
                   (Worker 0, OnCheckDone 7)]
    /\ sensorsLeftToCheck st = [].
Proof. eexists. split; [vm_compute; reflexivity | split; reflexivity]. Qed.

(** C5: when the check callback returns false, the worker calls onOffline
    (if given), sleeps the retry interval itself, and only when that sleep is
    over puts the sensor back and returns to the top of the loop; onCheckDone
    is not called on that visit.  In every interleaving with the other
    greenlets the worker's own trace of the visit is the check, onOffline,
    the sleep and the put, and the put comes no earlier than the retry
    interval after the check was called. *)
Theorem false_result_sleeps_then_requeues cfg st i s :
  workers st !! i = Some (WCheck s) ->
  (exists st1,
     run cfg [LWorker i (ACheck (Returned false)); LWorker i ANone;
              LWorker i ANone] st = Some st1
     /\ workers st1
        = <[i:=WSleepRetry s (now st + nSecBetweenOnlineChecks cfg)]> (workers st)
     /\ trace st1 = trace st ++ map (pair (Worker i))
                      ([Check s] ++ call (cbOnOffline cfg) (OnOffline s)
                       ++ [Sleep (nSecBetweenOnlineChecks cfg)])
     /\ sensorsLeftToCheck st1 = sensorsLeftToCheck st
     /\ pendingReCheck st1 = pendingReCheck st
     /\ timers st1 = timers st
     /\ forall st2 wake,
          workers st2 !! i = Some (WSleepRetry s wake) ->
          (now st2 < wake -> forall a, step cfg (LWorker i a) st2 = None)
          /\ (wake <= now st2 ->
              exists st3,
                run cfg [LWorker i ANone; LWorker i ANone] st2 = Some st3
                /\ workers st3 = <[i:=WLoop]> (workers st2)
                /\ sensorsLeftToCheck st3 = sensorsLeftToCheck st2 ++ [s]
                /\ trace st3 = trace st2 ++ [(Worker i, Put s)]
                /\ pendingReCheck st3 = pendingReCheck st2
                /\ timers st3 = timers st2))
  /\ (forall ls1 ls2 ls3 ls4 a1 a2 a3 a4 st',
        quiet i ls1 -> quiet i ls2 -> quiet i ls3 -> quiet i ls4 ->
        run cfg (LWorker i (ACheck (Returned false)) :: ls1 ++ LWorker i a1
                 :: ls2 ++ LWorker i a2 :: ls3 ++ LWorker i a3
                 :: ls4 ++ [LWorker i a4]) st = Some st' ->
        workers st' !! i = Some WLoop
        /\ actions_of (Worker i) (trace st')
           = actions_of (Worker i) (trace st)
             ++ [Check s] ++ call (cbOnOffline cfg) (OnOffline s)
             ++ [Sleep (nSecBetweenOnlineChecks cfg); Put s]
        /\ now st + nSecBetweenOnlineChecks cfg <= now st').
Proof.
  intros Hi.
  assert (Hlt : (i < length (workers st))%nat) by (eapply lookup_lt_Some; eassumption).
  split.
  - eexists. split; [do 3 own_step Hi Hlt; reflexivity|].
    cbn. rewrite !list_insert_insert_eq, !map_app, <- !app_assoc.
    do 5 (split; [reflexivity|]).
    intros st2 wake Hi2.
    assert (Hlt2 : (i < length (workers st2))%nat) by (eapply lookup_lt_Some; eassumption).
    split.
    + intros Hnow a. cbn [step]. unfold worker_step. rewrite Hi2.
      destruct a; try reflexivity.
      destruct (Z.leb_spec wake (now st2)); [lia | reflexivity].
    + intros Hnow. apply Z.leb_le in Hnow. eexists. split.
      * own_step Hi2 Hlt2. rewrite Hnow. own_step Hi2 Hlt2. reflexivity.
      * cbn. rewrite !list_insert_insert_eq. repeat split; reflexivity.
  - intros ls1 ls2 ls3 ls4 a1 a2 a3 a4 st' Q1 Q2 Q3 Q4 Hrun.
    first_own i Hrun Hi Hi Hi1 Ha1 Hn1.
    peel_own own_step_after_quiet Hrun Hi1 Q1 Hi2 Ha2 Hn2 Hs.
    destruct a1; try discriminate Hs.
    settle_own i Hs Hrun Hi2 Ha2 Hn2 Hi3 Ha3 Hn3.
    peel_own own_step_after_quiet Hrun Hi3 Q2 Hi4 Ha4 Hn4 Hs.
    destruct a2; try discriminate Hs.
    settle_own i Hs Hrun Hi4 Ha4 Hn4 Hi5 Ha5 Hn5.
    peel_own own_step_after_quiet Hrun Hi5 Q3 Hi6 Ha6 Hn6 Hs.
    destruct a3; try discriminate Hs.
    match type of Hs with
    | (if ?w <=? ?n then _ else _) = _ =>
        destruct (Z.leb_spec w n) as [Hwake|]; [|discriminate Hs]
    end.
    settle_own i Hs Hrun Hi6 Ha6 Hn6 Hi7 Ha7 Hn7.
    peel_own own_step_after_quiet Hrun Hi7 Q4 Hi8 Ha8 Hn8 Hs.
    destruct a4; try discriminate Hs.
    settle_own i Hs Hrun Hi8 Ha8 Hn8 Hi9 Ha9 Hn9.
    injection Hrun as <-. split; [exact Hi9|]. split.
    + rewrite Ha9, <- ?app_assoc. reflexivity.
    + lia.
Qed.

Lemma false_result_sleeps_then_requeues_witness :
  workers (after one_worker [7%nat] (to_check 0)) !! 0%nat = Some (WCheck 7)
  /\ exists st1,
       run one_worker [LWorker 0 (ACheck (Returned false)); LWorker 0 ANone;
                       LWorker 0 ANone]
         (after one_worker [7%nat] (to_check 0)) = Some st1
       /\ workers st1 = [WSleepRetry 7 60]
       /\ trace st1 = [(Worker 0, IsOnline 7); (Worker 0, OnStartCheck 7);
                       (Worker 0, Check 7); (Worker 0, OnOffline 7);
                       (Worker 0, Sleep 60)]
       /\ sensorsLeftToCheck st1 = [].
Proof.
  split; [reflexivity|].
  destruct (proj1 (false_result_sleeps_then_requeues one_worker
                     (after one_worker [7%nat] (to_check 0)) 0 7 eq_refl))
    as (st1 & Hrun & Hw & Ht & Hq & _).
  exists st1. repeat split; assumption.
Defined.

(** ** Offline sensors (lines 116-128) *)

(** C4: for a sensor that reached line 116 and is reported offline, the
    worker calls onOffline (if given), takes the lock, adds one to the
    pending counter and releases the lock, spawns the deferred re-check with
    the retry interval as its delay, and is back at the top of the loop with
    no sleep of its own.  The deferred re-check cannot start before its due
    time; once started it takes the lock, puts the sensor in the queue,
    subtracts one from the counter and releases the lock.  In every
    interleaving with the other greenlets the worker's own trace of the
    visit holds no sleep. *)
Theorem offline_sensor_rescheduled cfg st i s :
  workers st !! i = Some (WOnline s) -> lock st = None ->
  (exists st0,
     run cfg [LWorker i (AOnline false); LWorker i ANone; LWorker i ANone] st
       = Some st0
     /\ workers st0 = <[i:=WInc s]> (workers st)
     /\ lock st0 = Some (Worker i)
     /\ pendingReCheck st0 = pendingReCheck st
     /\ exists st1,
          run cfg [LWorker i ANone; LWorker i ANone] st0 = Some st1
          /\ workers st1 = <[i:=WLoop]> (workers st)
          /\ lock st1 = None
          /\ pendingReCheck st1 = pendingReCheck st + 1
          /\ timers st1
             = timers st ++ [TWait s (now st + nSecBetweenOnlineChecks cfg)]
          /\ trace st1 = trace st ++ map (pair (Worker i))
                           ([IsOnline s] ++ call (cbOnOffline cfg) (OnOffline s)
                            ++ [SpawnLater (nSecBetweenOnlineChecks cfg) s])
          /\ sensorsLeftToCheck st1 = sensorsLeftToCheck st
          /\ now st1 = now st)
  /\ (forall st2 j due,
       timers st2 !! j = Some (TWait s due) ->
       (now st2 < due -> step cfg (LTimer j) st2 = None)
       /\ (due <= now st2 -> lock st2 = None ->
           exists st3,
             run cfg [LTimer j; LTimer j] st2 = Some st3
             /\ timers st3 = <[j:=TPut s]> (timers st2)
             /\ lock st3 = Some (Timer j)
             /\ exists st4,
                  run cfg [LTimer j; LTimer j] st3 = Some st4
                  /\ timers st4 = <[j:=TDone]> (timers st2)
                  /\ lock st4 = None
                  /\ sensorsLeftToCheck st4 = sensorsLeftToCheck st2 ++ [s]
                  /\ pendingReCheck st4 = pendingReCheck st2 - 1
                  /\ trace st4 = trace st2 ++ [(Timer j, Put s)]
                  /\ workers st4 = workers st2))
  /\ (forall ls1 ls2 ls3 ls4 a1 a2 a3 a4 st',
        quiet i ls1 -> quiet i ls2 -> quiet i ls3 -> quiet i ls4 ->
        run cfg (LWorker i (AOnline false) :: ls1 ++ LWorker i a1
                 :: ls2 ++ LWorker i a2 :: ls3 ++ LWorker i a3
                 :: ls4 ++ [LWorker i a4]) st = Some st' ->
        workers st' !! i = Some WLoop
        /\ actions_of (Worker i) (trace st')
           = actions_of (Worker i) (trace st)
             ++ [IsOnline s] ++ call (cbOnOffline cfg) (OnOffline s)
             ++ [SpawnLater (nSecBetweenOnlineChecks cfg) s]).
Proof.
  intros Hi Hl.
  assert (Hlt : (i < length (workers st))%nat) by (eapply lookup_lt_Some; eassumption).
  split; [|split].
  - eexists. split; [do 3 own_step Hi Hlt; rewrite Hl; reflexivity|].
    cbn. rewrite !list_insert_insert_eq.
    do 3 (split; [reflexivity|]).
    eexists. split; [do 2 own_step Hi Hlt; reflexivity|].
    cbn. rewrite !list_insert_insert_eq, !map_app, <- !app_assoc.
    repeat split; reflexivity.
  - intros st2 j due Hj.
    assert (Hlt2 : (j < length (timers st2))%nat) by (eapply lookup_lt_Some; eassumption).
    split.
    + intros Hnow. cbn [step]. unfold timer_step. rewrite Hj.
      destruct (Z.leb_spec due (now st2)); [lia | reflexivity].
    + intros Hnow Hl2. apply Z.leb_le in Hnow.
      eexists. split; [own_step Hj Hlt2; rewrite Hnow; own_step Hj Hlt2; rewrite Hl2; reflexivity|].
      cbn. rewrite !list_insert_insert_eq.
      do 2 (split; [reflexivity|]).
      eexists. split; [do 2 own_step Hj Hlt2; reflexivity|].
      cbn. rewrite !list_insert_insert_eq. repeat split; reflexivity.
  - intros ls1 ls2 ls3 ls4 a1 a2 a3 a4 st' Q1 Q2 Q3 Q4 Hrun.
    first_own i Hrun Hi Hi Hi1 Ha1 Hn1.
    peel_own own_step_after_quiet Hrun Hi1 Q1 Hi2 Ha2 Hn2 Hs.
    destruct a1; try discriminate Hs.
    settle_own i Hs Hrun Hi2 Ha2 Hn2 Hi3 Ha3 Hn3.
    peel_own own_step_after_quiet Hrun Hi3 Q2 Hi4 Ha4 Hn4 Hs.
    destruct a2; try discriminate Hs.
    match type of Hs with
    | context [lock ?X] => destruct (lock X); try discriminate Hs
    end.
    settle_own i Hs Hrun Hi4 Ha4 Hn4 Hi5 Ha5 Hn5.
    peel_own own_step_after_quiet Hrun Hi5 Q3 Hi6 Ha6 Hn6 Hs.
    destruct a3; try discriminate Hs.
    settle_own i Hs Hrun Hi6 Ha6 Hn6 Hi7 Ha7 Hn7.
    peel_own own_step_after_quiet Hrun Hi7 Q4 Hi8 Ha8 Hn8 Hs.
    destruct a4; try discriminate Hs.
    settle_own i Hs Hrun Hi8 Ha8 Hn8 Hi9 Ha9 Hn9.
    injection Hrun as <-. split; [exact Hi9|].
    rewrite Ha9, <- ?app_assoc. reflexivity.
Qed.

Lemma offline_sensor_rescheduled_witness :
  workers (after one_worker [7%nat] (replicate 4 (LWorker 0 ANone))) !! 0%nat
    = Some (WOnline 7)
  /\ lock (after one_worker [7%nat] (replicate 4 (LWorker 0 ANone))) = None
  /\ exists st0 st1,
       run one_worker [LWorker 0 (AOnline false); LWorker 0 ANone; LWorker 0 ANone]
         (after one_worker [7%nat] (replicate 4 (LWorker 0 ANone))) = Some st0
       /\ lock st0 = Some (Worker 0)
       /\ run one_worker [LWorker 0 ANone; LWorker 0 ANone] st0 = Some st1
       /\ workers st1 = [WLoop]
       /\ pendingReCheck st1 = 1
       /\ timers st1 = [TWait 7 60]
       /\ trace st1 = [(Worker 0, IsOnline 7); (Worker 0, OnOffline 7);
                       (Worker 0, SpawnLater 60 7)].
Proof.
  split; [reflexivity|]. split; [reflexivity|].
  destruct (proj1 (offline_sensor_rescheduled one_worker
                     (after one_worker [7%nat] (replicate 4 (LWorker 0 ANone)))
                     0 7 eq_refl eq_refl))
    as (st0 & H0 & _ & Hl0 & _ & st1 & H1 & Hw & _ & Hp & Ht & Htr & _).
  exists st0, st1.
  split; [exact H0|]. split; [exact Hl0|]. split; [exact H1|].
  split; [exact Hw|]. split; [exact Hp|]. split; [exact Ht|]. exact Htr.
Defined.

(** ** The filters (lines 99-113) *)

Lemma platform_skipped_spec cfg platform :
  platform_skipped cfg platform = true
  <-> (platform = "windows"%string /\ isWindows cfg = false)
      \/ (platform = "linux"%string /\ isLinux cfg = false)
      \/ (platform = "macos"%string /\ isMacos cfg = false).
Proof.
  unfold platform_skipped. rewrite <- !(String.eqb_eq platform).
  destruct (String.eqb platform "windows"), (String.eqb platform "linux"),
    (String.eqb platform "macos"), (isWindows cfg), (isLinux cfg), (isMacos cfg);
    simpl; split; intros H; try reflexivity; try discriminate H;
    try (clear; tauto); destruct H as [[? ?]|[[? ?]|[? ?]]]; discriminate.
Qed.

(** C6, as the code has it: on the visit on which a sensor popped from the
    queue is dropped by the platform filter or by the tag filter, it is not
    put back, no deferred re-check is spawned for it, and the visit calls
    none of check, onStartCheck, onCheckDone, onOffline, onError: the only
    things done with it on that visit are the queries of lines 101 and 111.
    The same holds of the worker's own trace in every interleaving with the
    other greenlets.  The filters are applied anew on every visit, to what
    the sensor reports then; earlier visits of the same sensor are not
    covered. *)
Theorem filtered_sensor_dropped_silently cfg st i s q :
  workers st !! i = Some WPop -> sensorsLeftToCheck st = s :: q ->
  (forall platform,
     platform_consulted cfg = true -> platform_skipped cfg platform = true ->
     exists st',
       run cfg [LWorker i ANone; LWorker i (APlat platform)] st = Some st'
       /\ workers st' = <[i:=WLoop]> (workers st)
       /\ trace st' = trace st ++ [(Worker i, GetInfo s)]
       /\ sensorsLeftToCheck st' = q
       /\ timers st' = timers st
       /\ pendingReCheck st' = pendingReCheck st)
  /\ (forall platform required sensorTags,
        platform_consulted cfg = false \/ platform_skipped cfg platform = false ->
        tags cfg = Some required -> has_all_tags required sensorTags = false ->
        exists st',
          run cfg [LWorker i ANone; LWorker i (platform_answer cfg platform);
                   LWorker i (ATags sensorTags)] st = Some st'
          /\ workers st' = <[i:=WLoop]> (workers st)
          /\ trace st' = trace st ++ map (pair (Worker i))
                           (platform_query cfg s ++ [GetTags s])
          /\ sensorsLeftToCheck st' = q
          /\ timers st' = timers st
          /\ pendingReCheck st' = pendingReCheck st)
  /\ (forall ls1 platform st',
        quiet i ls1 ->
        platform_consulted cfg = true -> platform_skipped cfg platform = true ->
        run cfg (LWorker i ANone :: ls1 ++ [LWorker i (APlat platform)]) st
          = Some st' ->
        workers st' !! i = Some WLoop
        /\ actions_of (Worker i) (trace st')
           = actions_of (Worker i) (trace st) ++ [GetInfo s])
  /\ (forall ls1 ls2 a1 required sensorTags st',
        quiet i ls1 -> quiet i ls2 ->
        tags cfg = Some required -> has_all_tags required sensorTags = false ->
        run cfg (LWorker i ANone :: ls1 ++ LWorker i a1
                 :: ls2 ++ [LWorker i (ATags sensorTags)]) st = Some st' ->
        workers st' !! i = Some WLoop
        /\ actions_of (Worker i) (trace st')
           = actions_of (Worker i) (trace st)
             ++ platform_query cfg s ++ [GetTags s]).
Proof.
  intros Hi Hq.
  assert (Hlt : (i < length (workers st))%nat) by (eapply lookup_lt_Some; eassumption).
  split; [|split; [|split]].
  - intros platform Hc Hs. eexists. split.
    + own_step Hi Hlt. rewrite Hq. own_step Hi Hlt. rewrite Hc, Hs. reflexivity.
    + cbn. rewrite !list_insert_insert_eq. repeat split; reflexivity.
  - intros platform required sensorTags Hp Ht Hn.
    unfold platform_answer, platform_query.
    destruct (platform_consulted cfg) eqn:Hc.
    + destruct Hp as [Hp|Hp]; [discriminate|].
      eexists. split.
      * own_step Hi Hlt. rewrite Hq. own_step Hi Hlt. rewrite Hc, Hp.
        own_step Hi Hlt. rewrite Ht, Hn. reflexivity.
      * cbn. rewrite !list_insert_insert_eq, <- !app_assoc. repeat split; reflexivity.
    + eexists. split.
      * own_step Hi Hlt. rewrite Hq. own_step Hi Hlt. rewrite Hc.
        own_step Hi Hlt. rewrite Ht, Hn. reflexivity.
      * cbn. rewrite !list_insert_insert_eq. repeat split; reflexivity.
  - intros ls1 platform st' Q1 Hc Hsk Hrun.
    first_own i Hrun Hi Hq Hi1 Ha1 Hn1.
    peel_own own_step_after_quiet Hrun Hi1 Q1 Hi2 Ha2 Hn2 Hs.
    rewrite Hc, Hsk in Hs.
    settle_own i Hs Hrun Hi2 Ha2 Hn2 Hi3 Ha3 Hn3.
    injection Hrun as <-. split; [exact Hi3 | exact Ha3].
  - intros ls1 ls2 a1 required sensorTags st' Q1 Q2 Ht Hn Hrun.
    first_own i Hrun Hi Hq Hi1 Ha1 Hn1.
    peel_own own_step_after_quiet Hrun Hi1 Q1 Hi2 Ha2 Hn2 Hs.
    unfold platform_query.
    destruct (platform_consulted cfg) eqn:Hc; destruct a1; try discriminate Hs.
    + settle_own i Hs Hrun Hi2 Ha2 Hn2 Hi3 Ha3 Hn3.
      destruct (platform_skipped cfg plat) eqn:Hsk.
      * peel_own own_step_after_quiet Hrun Hi3 Q2 Hi4 Ha4 Hn4 Hs. discriminate Hs.
      * peel_own own_step_after_quiet Hrun Hi3 Q2 Hi4 Ha4 Hn4 Hs.
        rewrite Ht, Hn in Hs.
        settle_own i Hs Hrun Hi4 Ha4 Hn4 Hi5 Ha5 Hn5.
        injection Hrun as <-. split; [exact Hi5|].
        rewrite Ha5, <- ?app_assoc. reflexivity.
    + settle_own i Hs Hrun Hi2 Ha2 Hn2 Hi3 Ha3 Hn3.
      peel_own own_step_after_quiet Hrun Hi3 Q2 Hi4 Ha4 Hn4 Hs.
      rewrite Ht, Hn in Hs.
      settle_own i Hs Hrun Hi4 Ha4 Hn4 Hi5 Ha5 Hn5.
      injection Hrun as <-. split; [exact Hi5|].
      rewrite Ha5, <- ?app_assoc. reflexivity.
Qed.

Lemma filtered_sensor_dropped_silently_witness :
  workers (after no_windows [7%nat] [LWorker 0 ANone]) !! 0%nat = Some WPop
  /\ sensorsLeftToCheck (after no_windows [7%nat] [LWorker 0 ANone]) = [7%nat]
  /\ platform_consulted no_windows = true
  /\ platform_skipped no_windows "windows" = true
  /\ exists st',
       run no_windows [LWorker 0 ANone; LWorker 0 (APlat "windows")]
         (after no_windows [7%nat] [LWorker 0 ANone]) = Some st'
       /\ workers st' = [WLoop]
       /\ trace st' = [(Worker 0, GetInfo 7)]
       /\ sensorsLeftToCheck st' = []
       /\ timers st' = []
       /\ pendingReCheck st' = 0.
Proof.
  do 4 (split; [reflexivity|]).
  exact (proj1 (filtered_sensor_dropped_silently no_windows
                  (after no_windows [7%nat] [LWorker 0 ANone]) 0 7 []
                  eq_refl eq_refl) "windows"%string eq_refl eq_refl).
Defined.

(** C6 as stated fails: the tags are fetched on every visit (line 111), so
    a sensor can pass the tag filter on one visit, be checked with a false
    result, reported through onOffline and put back, and be dropped by the
    tag filter on its next visit, its tags having changed meanwhile.  The
    callbacks were invoked for a sensor the filter drops, and the sensor was
    re-enqueued. *)
Lemma filtered_after_requeue_counterexample :
  exists st,
    run tagged
      ([LWorker 0 ANone; LWorker 0 ANone; LWorker 0 ANone;
        LWorker 0 (ATags ["vip"%string]); LWorker 0 (AOnline true);
        LWorker 0 ANone; LWorker 0 (ACheck (Returned false));
        LWorker 0 ANone; LWorker 0 ANone; LTick 60;
        LWorker 0 ANone; LWorker 0 ANone]
       ++ [LWorker 0 ANone; LWorker 0 ANone; LWorker 0 ANone;
           LWorker 0 (ATags [])])
      (start tagged [7%nat] construct) = Some st
    /\ has_all_tags ["vip"%string] [] = false
    /\ trace st = [(Worker 0, GetTags 7); (Worker 0, IsOnline 7);
                   (Worker 0, OnStartCheck 7); (Worker 0, Check 7);
                   (Worker 0, OnOffline 7); (Worker 0, Sleep 60);
                   (Worker 0, Put 7); (Worker 0, GetTags 7)]
    /\ workers st = [WLoop]
    /\ sensorsLeftToCheck st = []
    /\ timers st = [].
Proof.
  eexists. split; [vm_compute; reflexivity|].
  repeat split; reflexivity.
Qed.

(** C7, as the code has it: when at least one platform flag is false the
    worker fetches the platform of the popped sensor and drops the sensor,
    without putting it back, exactly when the platform is one of windows,
    linux, macos with its flag false; any other platform goes on to the tag
    filter.  When all three flags are true the platform is not fetched. *)
Theorem platform_filter_drops_disabled_platform cfg st i s :
  workers st !! i = Some (WPlatform s) ->
  (platform_consulted cfg = true
   <-> isWindows cfg = false \/ isLinux cfg = false \/ isMacos cfg = false)
  /\ (platform_consulted cfg = true ->
      step cfg (LWorker i ANone) st = None
      /\ forall platform,
           exists st',
             step cfg (LWorker i (APlat platform)) st = Some st'
             /\ trace st' = trace st ++ [(Worker i, GetInfo s)]
             /\ sensorsLeftToCheck st' = sensorsLeftToCheck st
             /\ timers st' = timers st
             /\ workers st'
                = <[i:=if platform_skipped cfg platform then WLoop else WTags s]>
                    (workers st))
  /\ (forall platform,
        platform_skipped cfg platform = true
        <-> (platform = "windows"%string /\ isWindows cfg = false)
            \/ (platform = "linux"%string /\ isLinux cfg = false)
            \/ (platform = "macos"%string /\ isMacos cfg = false))
  /\ (platform_consulted cfg = false ->
      step cfg (LWorker i ANone) st = Some (goto i (WTags s) st)
      /\ forall platform, step cfg (LWorker i (APlat platform)) st = None).
Proof.
  intros Hi. split; [|split; [|split]].
  - unfold platform_consulted.
    destruct (isWindows cfg), (isLinux cfg), (isMacos cfg); simpl;
      split; intros H; try reflexivity; try discriminate H;
      try (clear; tauto); destruct H as [?|[?|?]]; discriminate.
  - intros Hc. cbn [step]. unfold worker_step. rewrite Hi, Hc.
    split; [reflexivity|]. intros platform. eexists. split; [reflexivity|].
    cbn. repeat split; reflexivity.
  - apply platform_skipped_spec.
  - intros Hc. cbn [step]. unfold worker_step. rewrite Hi, Hc.
    split; reflexivity.
Qed.

Lemma platform_filter_drops_disabled_platform_witness :
  workers (after no_windows [7%nat] [LWorker 0 ANone; LWorker 0 ANone]) !! 0%nat
    = Some (WPlatform 7)
  /\ platform_consulted no_windows = true
  /\ exists st',
       step no_windows (LWorker 0 (APlat "windows"))
         (after no_windows [7%nat] [LWorker 0 ANone; LWorker 0 ANone]) = Some st'
       /\ trace st' = [(Worker 0, GetInfo 7)]
       /\ sensorsLeftToCheck st' = []
       /\ timers st' = []
       /\ workers st' = [WLoop].
Proof.
  split; [reflexivity|]. split; [reflexivity|].
  exact (proj2 (proj1 (proj2 (platform_filter_drops_disabled_platform no_windows
           (after no_windows [7%nat] [LWorker 0 ANone; LWorker 0 ANone]) 0 7
           eq_refl)) eq_refl) "windows"%string).
Defined.

(** C7 as stated fails: with the windows flag false, a sensor whose
    platform is none of the enabled ones (here "chrome") is not dropped. *)
Lemma unlisted_platform_kept_counterexample :
  platform_consulted no_windows = true
  /\ platform_enabled no_windows "chrome" = false
  /\ exists st',
       run no_windows [LWorker 0 ANone; LWorker 0 ANone; LWorker 0 (APlat "chrome")]
         (start no_windows [7%nat] construct) = Some st'
       /\ workers st' = [WTags 7]
       /\ trace st' = [(Worker 0, GetInfo 7)].
Proof.
  split; [reflexivity|]. split; [reflexivity|].
  eexists. split; [vm_compute; reflexivity | split; reflexivity].
Qed.

(** C9: a sensor whose platform is none of windows, linux, macos passes
    the platform filter whatever the flags are, all three false included,
    and goes on to the tag filter; if it has the required tags and is online,
    the check callback is reached. *)
Theorem unknown_platform_passes_filter cfg st i s platform sensorTags :
  platform <> "windows"%string -> platform <> "linux"%string ->
  platform <> "macos"%string ->
  workers st !! i = Some (WPlatform s) ->
  platform_skipped cfg platform = false
  /\ (exists st',
        step cfg (LWorker i (platform_answer cfg platform)) st = Some st'
        /\ workers st' = <[i:=WTags s]> (workers st)
        /\ sensorsLeftToCheck st' = sensorsLeftToCheck st)
  /\ (tags_pass cfg sensorTags = true ->
      exists st',
        run cfg [LWorker i (platform_answer cfg platform);
                 LWorker i (tags_answer cfg sensorTags);
                 LWorker i (AOnline true); LWorker i ANone] st = Some st'
        /\ workers st' = <[i:=WCheck s]> (workers st)
        /\ trace st' = trace st ++ map (pair (Worker i))
                         (platform_query cfg s ++ tags_query cfg s
                          ++ [IsOnline s]
                          ++ call (cbOnStartCheck cfg) (OnStartCheck s))).
Proof.
  intros Hw Hl Hm Hi.
  assert (Hlt : (i < length (workers st))%nat) by (eapply lookup_lt_Some; eassumption).
  assert (Hs : platform_skipped cfg platform = false).
  { destruct (platform_skipped cfg platform) eqn:E; [|reflexivity].
    apply platform_skipped_spec in E as [[? _]|[[? _]|[? _]]]; congruence. }
  split; [exact Hs|]. split.
  - unfold platform_answer. cbn [step]. unfold worker_step. rewrite Hi.
    destruct (platform_consulted cfg); [rewrite Hs|];
      (eexists; split; [reflexivity | split; reflexivity]).
  - unfold tags_pass, platform_answer, tags_answer, platform_query, tags_query.
    intros Ht.
    destruct (platform_consulted cfg) eqn:Hc, (tags cfg) as [required|] eqn:Hr;
      (eexists; split;
       [ own_step Hi Hlt; rewrite Hc, ?Hs; own_step Hi Hlt; rewrite Hr, ?Ht;
         do 2 own_step Hi Hlt; reflexivity
       | cbn; rewrite !list_insert_insert_eq, ?map_app, <- ?app_assoc;
         split; reflexivity ]).
Qed.

Lemma unknown_platform_passes_filter_witness :
  workers (after no_platforms [7%nat] [LWorker 0 ANone; LWorker 0 ANone]) !! 0%nat
    = Some (WPlatform 7)
  /\ platform_skipped no_platforms "chrome" = false
  /\ exists st',
       run no_platforms [LWorker 0 (APlat "chrome"); LWorker 0 ANone;
                         LWorker 0 (AOnline true); LWorker 0 ANone]
         (after no_platforms [7%nat] [LWorker 0 ANone; LWorker 0 ANone])
         = Some st'
       /\ workers st' = [WCheck 7]
       /\ trace st' = [(Worker 0, GetInfo 7); (Worker 0, IsOnline 7);
                       (Worker 0, OnStartCheck 7)].
Proof.
  split; [reflexivity|]. split; [reflexivity|].
  refine (proj2 (proj2 (unknown_platform_passes_filter no_platforms
           (after no_platforms [7%nat] [LWorker 0 ANone; LWorker 0 ANone]) 0 7
           "chrome" [] _ _ _ eq_refl)) eq_refl); discriminate.
Defined.

(** ** The pending counter (lines 92-95, 121-127) *)

(** C3: in every reachable state the pending counter is at least zero; a
    step changes it only while the stepping greenlet holds the lock, and then
    it is either the offline path's line 126, which adds one on the way to
    the spawn of the deferred re-check, or line 124 of a deferred re-check,
    which subtracts one right after that re-check's put.  Conversely line 126
    always adds one and line 124 always subtracts one. *)
Theorem pending_counter_discipline cfg listing st :
  reachable cfg listing st ->
  0 <= pendingReCheck st
  /\ (forall l st',
        step cfg l st = Some st' -> pendingReCheck st' <> pendingReCheck st ->
        (exists i s,
           l = LWorker i ANone /\ workers st !! i = Some (WInc s)
           /\ lock st = Some (Worker i)
           /\ pendingReCheck st' = pendingReCheck st + 1
           /\ workers st' !! i = Some (WSpawn s))
        \/ (exists j s,
              l = LTimer j /\ timers st !! j = Some (TDec s)
              /\ lock st = Some (Timer j)
              /\ pendingReCheck st' = pendingReCheck st - 1
              /\ timers st' !! j = Some TDone))
  /\ (forall i s,
        workers st !! i = Some (WInc s) ->
        exists st',
          step cfg (LWorker i ANone) st = Some st'
          /\ pendingReCheck st' = pendingReCheck st + 1
          /\ workers st' !! i = Some (WSpawn s))
  /\ (forall j s,
        timers st !! j = Some (TPut s) ->
        exists st',
          run cfg [LTimer j; LTimer j] st = Some st'
          /\ sensorsLeftToCheck st' = sensorsLeftToCheck st ++ [s]
          /\ pendingReCheck st' = pendingReCheck st - 1
          /\ timers st' !! j = Some TDone).
Proof.
  intros Hreach. pose proof (inv_reachable _ _ _ Hreach) as [I1 I2 I3].
  split; [|split; [|split]].
  - rewrite I1.
    pose proof (tally_nonneg worker_owes (workers st) worker_owes_nonneg).
    pose proof (tally_nonneg timer_owes (timers st) timer_owes_nonneg). lia.
  - intros l st' H Hne. destruct l as [i a| j | d | | timeout | r | i].
    + cbn [step] in H. unfold worker_step in H.
      destruct (workers st !! i) as [pc|] eqn:Hi; [|discriminate].
      assert (Hlt : (i < length (workers st))%nat) by (eapply lookup_lt_Some; eassumption).
      destruct pc, a; try discriminate;
        repeat match type of H with
               | context [match ?x with _ => _ end] => destruct x eqn:?
               end;
        try discriminate; injection H as <-;
        try (exfalso; apply Hne; reflexivity).
      left. exists i, s. split; [reflexivity|]. split; [exact Hi|].
      split; [exact (I2 i (WInc s) Hi eq_refl)|]. split; [reflexivity|].
      cbn. apply list_lookup_insert_eq. exact Hlt.
    + cbn [step] in H. unfold timer_step in H.
      destruct (timers st !! j) as [pc|] eqn:Hj; [|discriminate].
      assert (Hlt : (j < length (timers st))%nat) by (eapply lookup_lt_Some; eassumption).
      destruct pc;
        repeat match type of H with
               | context [match ?x with _ => _ end] => destruct x eqn:?
               end;
        try discriminate; injection H as <-;
        try (exfalso; apply Hne; reflexivity).
      right. exists j, s. split; [reflexivity|]. split; [exact Hj|].
      split; [exact (I3 j (TDec s) Hj eq_refl)|]. split; [reflexivity|].
      cbn. apply list_lookup_insert_eq. exact Hlt.
    + simpl in H. destruct (0 <? d); [|discriminate]. injection H as <-.
      exfalso. apply Hne. reflexivity.
    + unfold step, caller_step in H. destruct (caller st); try discriminate.
      injection H as <-. exfalso. apply Hne. reflexivity.
    + unfold step, caller_step in H. destruct (caller st); try discriminate.
      injection H as <-. exfalso. apply Hne. reflexivity.
    + unfold step, caller_step in H.
      repeat match type of H with
             | context [match ?x with _ => _ end] => destruct x eqn:?
             end;
        try discriminate; injection H as <-; exfalso; apply Hne; reflexivity.
    + cbn [step] in H. apply worker_raise_inv in H as (pc & a & _ & _ & ->).
      exfalso. apply Hne. reflexivity.
  - intros i s Hi.
    assert (Hlt : (i < length (workers st))%nat) by (eapply lookup_lt_Some; eassumption).
    eexists. split; [cbn [step]; unfold worker_step; rewrite Hi; reflexivity|].
    cbn. split; [reflexivity|]. apply list_lookup_insert_eq. exact Hlt.
  - intros j s Hj.
    assert (Hlt : (j < length (timers st))%nat) by (eapply lookup_lt_Some; eassumption).
    eexists. split; [do 2 own_step Hj Hlt; reflexivity|].
    cbn. split; [reflexivity|]. split; [reflexivity|].
    apply list_lookup_insert_eq. rewrite length_insert. exact Hlt.
Qed.

Lemma pending_counter_discipline_witness :
  reachable one_worker [7%nat] (after one_worker [7%nat] (to_increment 0))
  /\ workers (after one_worker [7%nat] (to_increment 0)) !! 0%nat = Some (WInc 7)
  /\ 0 <= pendingReCheck (after one_worker [7%nat] (to_increment 0))
  /\ exists st',
       step one_worker (LWorker 0 ANone)
         (after one_worker [7%nat] (to_increment 0)) = Some st'
       /\ pendingReCheck st' = 1
       /\ workers st' !! 0%nat = Some (WSpawn 7).
Proof.
  assert (R : reachable one_worker [7%nat] (after one_worker [7%nat] (to_increment 0)))
    by (exists (to_increment 0); vm_compute; reflexivity).
  split; [exact R|]. split; [reflexivity|].
  pose proof (pending_counter_discipline one_worker [7%nat] _ R) as (H0 & _ & Hinc & _).
  split; [exact H0|]. exact (Hinc 0%nat 7%nat eq_refl).
Defined.

(** ** Leaving the loop (lines 86-97) *)

(** C2, as the code has it: a worker's greenlet ends in three ways only.
    It returns at line 86, on a set stop event; it returns at line 95, where
    holding the lock it has found the pending counter zero and the queue
    empty, and at that moment no deferred re-check is outstanding and no
    worker is between the increment and the spawn; or a sensor query or an
    observer callback, called outside any [try], raises and the exception
    ends the greenlet, whatever the queue and the counter hold.  A pop on an
    empty queue leads to the test of line 94; when the test fails the worker
    releases the lock, sleeps 2 seconds and is back at the top of the loop,
    from where, the stop event not being set, it pops again. *)
Theorem worker_exit_discipline cfg listing st :
  reachable cfg listing st ->
  (forall l i pc st',
     step cfg l st = Some st' ->
     workers st !! i = Some pc -> pc <> WExited ->
     workers st' !! i = Some WExited ->
     (l = LWorker i ANone /\ pc = WLoop /\ stopEvent st = true)
     \/ (l = LWorker i ANone /\ pc = WCheckIdle
         /\ lock st = Some (Worker i)
         /\ pendingReCheck st = 0
         /\ sensorsLeftToCheck st = []
         /\ (forall j pc, timers st !! j = Some pc -> pc = TDone)
         /\ (forall k s, workers st !! k <> Some (WSpawn s)))
     \/ (l = LRaise i
         /\ exists a, unguarded_call cfg pc = Some a
                      /\ trace st' = trace st ++ [(Worker i, a)]))
  /\ (forall i pc a,
        workers st !! i = Some pc -> unguarded_call cfg pc = Some a ->
        exists st',
          step cfg (LRaise i) st = Some st'
          /\ workers st' = <[i:=WExited]> (workers st)
          /\ sensorsLeftToCheck st' = sensorsLeftToCheck st
          /\ pendingReCheck st' = pendingReCheck st
          /\ stopEvent st' = stopEvent st)
  /\ (forall i,
        workers st !! i = Some WPop -> sensorsLeftToCheck st = [] ->
        lock st = None ->
        exists st',
          run cfg [LWorker i ANone; LWorker i ANone] st = Some st'
          /\ workers st' = <[i:=WCheckIdle]> (workers st)
          /\ lock st' = Some (Worker i))
  /\ (forall i,
        workers st !! i = Some WCheckIdle ->
        pendingReCheck st <> 0 \/ sensorsLeftToCheck st <> [] ->
        exists st',
          step cfg (LWorker i ANone) st = Some st'
          /\ workers st' = <[i:=WBackoff (now st + 2)]> (workers st)
          /\ lock st' = None
          /\ trace st' = trace st ++ [(Worker i, Sleep 2)])
  /\ (forall i wake,
        workers st !! i = Some (WBackoff wake) ->
        (now st < wake -> forall a, step cfg (LWorker i a) st = None)
        /\ (wake <= now st -> stopEvent st = false ->
            exists st',
              run cfg [LWorker i ANone; LWorker i ANone] st = Some st'
              /\ workers st' = <[i:=WPop]> (workers st))).
Proof.
  intros Hreach. pose proof (inv_reachable _ _ _ Hreach) as [I1 I2 I3].
  split; [|split; [|split; [|split]]].
  - intros l i pc st' H Hi Hne Hex.
    assert (Hlt : (i < length (workers st))%nat) by (eapply lookup_lt_Some; eassumption).
    assert (Hown : (exists a, l = LWorker i a) \/ l = LRaise i
                   \/ ((forall a, l <> LWorker i a) /\ l <> LRaise i)).
    { destruct l as [k a| j | d | | timeout | r | k];
        try (right; right; split; [intros a'|]; discriminate);
        (destruct (decide (k = i)) as [->|Hk];
         [ first [left; eexists; reflexivity | right; left; reflexivity]
         | right; right; split; [intros a'|]; congruence ]). }
    destruct Hown as [[a ->]|[->|Hother]].
    2:{ right. right. split; [reflexivity|]. cbn [step] in H.
        apply worker_raise_inv in H as (pc0 & a & Hi0 & Hc & ->).
        rewrite Hi in Hi0. injection Hi0 as <-.
        exists a. split; [exact Hc | reflexivity]. }
    2:{ destruct (other_step_keeps_worker _ _ _ _ i H Hother) as (Hw & _).
        rewrite Hw, Hi in Hex. congruence. }
    cbn [step] in H. unfold worker_step in H. rewrite Hi in H.
    destruct pc, a; try discriminate;
      repeat match type of H with
             | context [match ?x with _ => _ end] => destruct x eqn:?
             end;
      try discriminate; injection H as <-;
      cbn in Hex; rewrite list_lookup_insert_eq in Hex by exact Hlt;
      try discriminate Hex.
    + left. repeat split; reflexivity.
    + right. left. split; [reflexivity|].
      match goal with H : (_ && _) = true |- _ => apply andb_true_iff in H as [Hp Hq] end.
      apply Z.eqb_eq in Hp. apply Nat.eqb_eq in Hq.
      assert (Hw0 : tally worker_owes (workers st) = 0 /\ tally timer_owes (timers st) = 0).
      { pose proof (tally_nonneg worker_owes (workers st) worker_owes_nonneg).
        pose proof (tally_nonneg timer_owes (timers st) timer_owes_nonneg). lia. }
      destruct Hw0 as [Hw0 Ht0].
      split; [reflexivity|]. split; [exact (I2 i WCheckIdle Hi eq_refl)|].
      split; [lia|]. split; [destruct (sensorsLeftToCheck st); [reflexivity | discriminate]|].
      split.
      * intros j pc Hj.
        pose proof (tally_zero timer_owes _ _ _ timer_owes_nonneg Ht0 Hj) as Hz.
        destruct pc; simpl in Hz; try lia. reflexivity.
      * intros k s Hk.
        pose proof (tally_zero worker_owes _ _ _ worker_owes_nonneg Hw0 Hk) as Hz.
        simpl in Hz. lia.
  - intros i pc a Hi Hc. eexists. split.
    + cbn [step]. unfold worker_raise. rewrite Hi, Hc. reflexivity.
    + cbn. repeat split; reflexivity.
  - intros i Hi Hq Hl.
    assert (Hlt : (i < length (workers st))%nat) by (eapply lookup_lt_Some; eassumption).
    eexists. split; [own_step Hi Hlt; rewrite Hq; own_step Hi Hlt; rewrite Hl; reflexivity|].
    cbn. rewrite !list_insert_insert_eq. split; reflexivity.
  - intros i Hi Hne.
    assert (Hc : (0 =? pendingReCheck st) && Nat.eqb 0 (length (sensorsLeftToCheck st)) = false).
    { apply andb_false_iff. destruct Hne as [Hne|Hne].
      - left. apply Z.eqb_neq. lia.
      - right. apply Nat.eqb_neq. destruct (sensorsLeftToCheck st); [congruence | discriminate]. }
    eexists. split; [cbn [step]; unfold worker_step; rewrite Hi, Hc; reflexivity|].
    cbn. repeat split; reflexivity.
  - intros i wake Hi.
    assert (Hlt : (i < length (workers st))%nat) by (eapply lookup_lt_Some; eassumption).
    split.
    + intros Hnow a. cbn [step]. unfold worker_step. rewrite Hi.
      destruct a; try reflexivity.
      destruct (Z.leb_spec wake (now st)); [lia | reflexivity].
    + intros Hnow Hs. apply Z.leb_le in Hnow.
      eexists. split; [own_step Hi Hlt; rewrite Hnow; own_step Hi Hlt; rewrite Hs; reflexivity|].
      cbn. rewrite !list_insert_insert_eq. reflexivity.
Qed.

Lemma worker_exit_discipline_witness :
  reachable two_workers [7%nat]
    (after two_workers [7%nat] (to_retry_sleep 0 ++ to_idle_check 1))
  /\ step two_workers (LWorker 1 ANone)
       (after two_workers [7%nat] (to_retry_sleep 0 ++ to_idle_check 1))
     = Some (after two_workers [7%nat]
               (to_retry_sleep 0 ++ to_idle_check 1 ++ [LWorker 1 ANone]))
  /\ workers (after two_workers [7%nat]
                (to_retry_sleep 0 ++ to_idle_check 1 ++ [LWorker 1 ANone]))
       !! 1%nat = Some WExited
  /\ pendingReCheck
       (after two_workers [7%nat] (to_retry_sleep 0 ++ to_idle_check 1)) = 0
  /\ sensorsLeftToCheck
       (after two_workers [7%nat] (to_retry_sleep 0 ++ to_idle_check 1)) = [].
Proof.
  assert (R : reachable two_workers [7%nat]
                (after two_workers [7%nat] (to_retry_sleep 0 ++ to_idle_check 1)))
    by (exists (to_retry_sleep 0 ++ to_idle_check 1); vm_compute; reflexivity).
  assert (S : step two_workers (LWorker 1 ANone)
                (after two_workers [7%nat] (to_retry_sleep 0 ++ to_idle_check 1))
              = Some (after two_workers [7%nat]
                        (to_retry_sleep 0 ++ to_idle_check 1 ++ [LWorker 1 ANone])))
    by (vm_compute; reflexivity).
  assert (E : workers (after two_workers [7%nat]
                         (to_retry_sleep 0 ++ to_idle_check 1 ++ [LWorker 1 ANone]))
                !! 1%nat = Some WExited)
    by (vm_compute; reflexivity).
  split; [exact R|]. split; [exact S|]. split; [exact E|].
  destruct (proj1 (worker_exit_discipline two_workers [7%nat] _ R)
              (LWorker 1 ANone) 1%nat WCheckIdle _ S eq_refl
              ltac:(discriminate) E)
    as [(_ & Hloop & _)|[(_ & _ & _ & Hp & Hq & _)|(Hl & _)]].
  - discriminate Hloop.
  - split; [exact Hp | exact Hq].
  - discriminate Hl.
Defined.

(** C2 as stated fails three times over.  A worker that sees the stop
    event set leaves the loop without the test under the lock, the queue
    still holding a sensor.  With no stop at all, a worker leaves through the
    test of line 94 while another worker sleeps at line 147 holding a sensor
    that it then puts back in the queue.  And when [isOnline] raises for the
    first of two sensors, the only worker ends with the second sensor still
    in the queue and no stop: the group is empty and [wait] returns True. *)
Lemma worker_exits_early_counterexample :
  (exists st st',
     run one_worker [LStop] (start one_worker [7%nat] construct) = Some st
     /\ sensorsLeftToCheck st = [7%nat] /\ lock st = None
     /\ workers st = [WLoop]
     /\ step one_worker (LWorker 0 ANone) st = Some st'
     /\ workers st' = [WExited])
  /\ (exists st st' st'',
        run two_workers (to_retry_sleep 0 ++ to_idle_check 1)
          (start two_workers [7%nat] construct) = Some st
        /\ stopEvent st = false
        /\ workers st = [WSleepRetry 7 60; WCheckIdle]
        /\ step two_workers (LWorker 1 ANone) st = Some st'
        /\ workers st' = [WSleepRetry 7 60; WExited]
        /\ run two_workers [LTick 60; LWorker 0 ANone; LWorker 0 ANone] st'
           = Some st''
        /\ sensorsLeftToCheck st'' = [7%nat]
        /\ workers st'' = [WLoop; WExited])
  /\ (exists st st' st'',
        run one_worker (replicate 4 (LWorker 0 ANone))
          (start one_worker [7%nat; 8%nat] construct) = Some st
        /\ workers st = [WOnline 7]
        /\ sensorsLeftToCheck st = [8%nat]
        /\ step one_worker (LRaise 0) st = Some st'
        /\ workers st' = [WExited]
        /\ sensorsLeftToCheck st' = [8%nat]
        /\ stopEvent st' = false
        /\ group_empty st' = true
        /\ run one_worker [LWait None; LReturn true] st' = Some st''
        /\ sensorsLeftToCheck st'' = [8%nat]).
Proof.
  split; [|split].
  - eexists. eexists. split; [vm_compute; reflexivity|].
    repeat split; vm_compute; reflexivity.
  - eexists. eexists. eexists. split; [vm_compute; reflexivity|].
    split; [reflexivity|]. split; [reflexivity|].
    split; [vm_compute; reflexivity|]. split; [reflexivity|].
    split; [vm_compute; reflexivity|]. split; reflexivity.
  - eexists. eexists. eexists. split; [vm_compute; reflexivity|].
    split; [reflexivity|]. split; [reflexivity|].
    split; [vm_compute; reflexivity|]. split; [reflexivity|].
    split; [reflexivity|]. split; [reflexivity|]. split; [reflexivity|].
    split; [vm_compute; reflexivity | reflexivity].
Qed.

(** ** [stop] and [wait] (lines 68-83) *)

Lemma forallb_lookup {A : Type} (f : A -> bool) (l : list A) (i : nat) (x : A) :
  forallb f l = true -> l !! i = Some x -> f x = true.
Proof.
  revert i. induction l as [|y l IH]; intros [|i] H Hi; simpl in *; try discriminate.
  - injection Hi as ->. apply andb_true_iff in H as [H _]. exact H.
  - apply andb_true_iff in H as [_ H]. exact (IH i H Hi).
Qed.

(** Once the group is empty nothing but the clock and the caller moves. *)
Lemma drained_step cfg l st st' :
  group_empty st = true -> step cfg l st = Some st' ->
  sensorsLeftToCheck st' = sensorsLeftToCheck st
  /\ pendingReCheck st' = pendingReCheck st
  /\ workers st' = workers st
  /\ timers st' = timers st
  /\ trace st' = trace st.
Proof.
  intros Hg H. unfold group_empty in Hg. apply andb_true_iff in Hg as [Hw Ht].
  destruct l as [i a| j | d | | timeout | r | i].
  - cbn [step] in H. unfold worker_step in H.
    destruct (workers st !! i) as [pc|] eqn:Hi; [|discriminate].
    pose proof (forallb_lookup _ _ _ _ Hw Hi) as Hpc.
    destruct pc; try discriminate Hpc. destruct a; discriminate H.
  - cbn [step] in H. unfold timer_step in H.
    destruct (timers st !! j) as [pc|] eqn:Hj; [|discriminate].
    pose proof (forallb_lookup _ _ _ _ Ht Hj) as Hpc.
    destruct pc; try discriminate Hpc. discriminate H.
  - simpl in H. destruct (0 <? d); [|discriminate]. injection H as <-.
    repeat split; reflexivity.
  - unfold step, caller_step in H. destruct (caller st); try discriminate.
    injection H as <-. repeat split; reflexivity.
  - unfold step, caller_step in H. destruct (caller st); try discriminate.
    injection H as <-. repeat split; reflexivity.
  - unfold step, caller_step in H.
    repeat match type of H with
           | context [match ?x with _ => _ end] => destruct x eqn:?
           end;
      try discriminate; injection H as <-; repeat split; reflexivity.
  - cbn [step] in H. apply worker_raise_inv in H as (pc & a & Hi & Hc & _).
    pose proof (forallb_lookup _ _ _ _ Hw Hi) as Hpc.
    destruct (unguarded_call_pc _ _ _ Hc) as (_ & _ & He & _). congruence.
Qed.

Lemma drained_run cfg ls st st' :
  group_empty st = true -> run cfg ls st = Some st' ->
  sensorsLeftToCheck st' = sensorsLeftToCheck st
  /\ pendingReCheck st' = pendingReCheck st
  /\ workers st' = workers st
  /\ timers st' = timers st
  /\ trace st' = trace st.
Proof.
  revert st. induction ls as [|l ls IH]; intros st Hg H; simpl in H.
  - injection H as <-. repeat split; reflexivity.
  - destruct (step cfg l st) as [st1|] eqn:E; [|discriminate].
    destruct (drained_step _ _ _ _ Hg E) as (Hq & Hp & Hw & Ht & Htr).
    assert (Hg1 : group_empty st1 = true) by (unfold group_empty; rewrite Hw, Ht; exact Hg).
    destruct (IH st1 Hg1 H) as (Hq' & Hp' & Hw' & Ht' & Htr').
    repeat split; congruence.
Qed.

(** C8: [stop] sets the stop event and enters the join of the group; the
    join of [stop], like that of a [wait] without timeout, returns only when
    every greenlet of the group has finished, workers and deferred re-checks
    alike.  From then on every worker has left its loop, no deferred re-check
    is outstanding, and no later step changes the queue or the pending
    counter. *)
Theorem stop_returns_when_group_drained cfg st :
  (forall st',
     step cfg LStop st = Some st' ->
     stopEvent st' = true /\ caller st' = CStop
     /\ workers st' = workers st /\ timers st' = timers st)
  /\ (forall r st',
        caller st = CStop \/ caller st = CWait None ->
        step cfg (LReturn r) st = Some st' ->
        r = true
        /\ (forall i pc, workers st' !! i = Some pc -> pc = WExited)
        /\ (forall j pc, timers st' !! j = Some pc -> pc = TDone)
        /\ forall ls st'',
             run cfg ls st' = Some st'' ->
             sensorsLeftToCheck st'' = sensorsLeftToCheck st'
             /\ pendingReCheck st'' = pendingReCheck st'
             /\ workers st'' = workers st'
             /\ timers st'' = timers st'
             /\ trace st'' = trace st').
Proof.
  split.
  - intros st' H. unfold step, caller_step in H.
    destruct (caller st); try discriminate. injection H as <-.
    repeat split; reflexivity.
  - intros r st' Hc H. unfold step, caller_step in H.
    assert (Hg : group_empty st = true /\ r = true /\ st' = set_caller CIdle st).
    { destruct r, Hc as [Hc|Hc]; rewrite Hc in H; try discriminate H;
        destruct (group_empty st); try discriminate H;
        injection H as <-; repeat split; reflexivity. }
    destruct Hg as (Hg & -> & ->). split; [reflexivity|].
    unfold group_empty in Hg. apply andb_true_iff in Hg as [Hw Ht].
    split; [|split].
    + intros i pc Hi. pose proof (forallb_lookup _ _ _ _ Hw Hi) as Hpc.
      destruct pc; try discriminate Hpc. reflexivity.
    + intros j pc Hj. pose proof (forallb_lookup _ _ _ _ Ht Hj) as Hpc.
      destruct pc; try discriminate Hpc. reflexivity.
    + intros ls st'' Hrun. eapply drained_run; [|exact Hrun].
      unfold group_empty. cbn. rewrite Hw, Ht. reflexivity.
Qed.

Lemma stop_returns_when_group_drained_witness :
  caller (after one_worker [] [LStop; LWorker 0 ANone]) = CStop
  /\ step one_worker (LReturn true) (after one_worker [] [LStop; LWorker 0 ANone])
     = Some (after one_worker [] [LStop; LWorker 0 ANone; LReturn true])
  /\ (forall i pc,
        workers (after one_worker [] [LStop; LWorker 0 ANone; LReturn true]) !! i
          = Some pc -> pc = WExited)
  /\ forall ls st'',
       run one_worker ls (after one_worker [] [LStop; LWorker 0 ANone; LReturn true])
         = Some st'' ->
       sensorsLeftToCheck st'' = [] /\ pendingReCheck st'' = 0.
Proof.
  assert (C : caller (after one_worker [] [LStop; LWorker 0 ANone]) = CStop)
    by (vm_compute; reflexivity).
  assert (S : step one_worker (LReturn true)
                (after one_worker [] [LStop; LWorker 0 ANone])
              = Some (after one_worker [] [LStop; LWorker 0 ANone; LReturn true]))
    by (vm_compute; reflexivity).
  split; [exact C|]. split; [exact S|].
  destruct (proj2 (stop_returns_when_group_drained one_worker
                     (after one_worker [] [LStop; LWorker 0 ANone]))
              true _ (or_introl C) S) as (_ & Hw & _ & Hrun).
  split; [exact Hw|].
  intros ls st'' H. destruct (Hrun ls st'' H) as (Hq & Hp & _).
  split; [exact Hq | exact Hp].
Defined.

(** ** The retry sleep and the completion test (lines 142-149, 92-96) *)

(** C10: the false-result path leaves the pending counter alone, so a
    sensor held by a worker asleep at line 147 is neither in the queue nor
    in the counter.  There is a reachable state, no stop requested, in which
    a second worker makes the test of line 94 with the counter at zero and
    the queue empty, and leaves, while the first worker sleeps holding the
    sensor.  Whatever the state, the sleeping worker can do nothing but wake
    when its time has come and put the sensor back, which it always can once
    the clock has advanced; it is then at the top of its loop and, the stop
    event not being set and nothing else queued, pops that very sensor. *)
Theorem retry_sleep_outside_pending_count :
  (forall cfg st i s,
     workers st !! i = Some (WResult s false) ->
     exists st1,
       run cfg [LWorker i ANone; LWorker i ANone] st = Some st1
       /\ workers st1
          = <[i:=WSleepRetry s (now st + nSecBetweenOnlineChecks cfg)]> (workers st)
       /\ pendingReCheck st1 = pendingReCheck st
       /\ sensorsLeftToCheck st1 = sensorsLeftToCheck st
       /\ timers st1 = timers st)
  /\ (exists st st',
        reachable two_workers [7%nat] st
        /\ workers st = [WSleepRetry 7 60; WCheckIdle]
        /\ sensorsLeftToCheck st = []
        /\ pendingReCheck st = 0
        /\ stopEvent st = false
        /\ step two_workers (LWorker 1 ANone) st = Some st'
        /\ workers st' = [WSleepRetry 7 60; WExited])
  /\ (forall cfg st i s wake,
        workers st !! i = Some (WSleepRetry s wake) ->
        exists st1,
          run cfg ((if wake <=? now st then [] else [LTick (wake - now st)])
                   ++ [LWorker i ANone; LWorker i ANone]) st = Some st1
          /\ sensorsLeftToCheck st1 = sensorsLeftToCheck st ++ [s]
          /\ workers st1 = <[i:=WLoop]> (workers st)
          /\ pendingReCheck st1 = pendingReCheck st
          /\ timers st1 = timers st
          /\ (stopEvent st = false -> sensorsLeftToCheck st = [] ->
              exists st2,
                run cfg [LWorker i ANone; LWorker i ANone] st1 = Some st2
                /\ workers st2 = <[i:=WPlatform s]> (workers st)
                /\ sensorsLeftToCheck st2 = [])).
Proof.
  split; [|split].
  - intros cfg st i s Hi.
    assert (Hlt : (i < length (workers st))%nat) by (eapply lookup_lt_Some; eassumption).
    eexists. split; [do 2 own_step Hi Hlt; reflexivity|].
    cbn. rewrite !list_insert_insert_eq. repeat split; reflexivity.
  - eexists. eexists.
    split; [exists (to_retry_sleep 0 ++ to_idle_check 1); vm_compute; reflexivity|].
    split; [reflexivity|]. split; [reflexivity|]. split; [reflexivity|].
    split; [reflexivity|]. split; [vm_compute; reflexivity | reflexivity].
  - intros cfg st i s wake Hi.
    assert (Hlt : (i < length (workers st))%nat) by (eapply lookup_lt_Some; eassumption).
    destruct (Z.leb_spec wake (now st)) as [Hnow|Hnow].
    + apply Z.leb_le in Hnow. eexists. split.
      * cbn [app]. own_step Hi Hlt. rewrite Hnow. own_step Hi Hlt. reflexivity.
      * cbn. rewrite !list_insert_insert_eq. do 4 (split; [reflexivity|]).
        intros Hs Hq. eexists. split.
        -- own_step Hi Hlt. rewrite Hs. own_step Hi Hlt. rewrite Hq. cbn [app].
           reflexivity.
        -- cbn. rewrite !list_insert_insert_eq. split; reflexivity.
    + assert (Hd : (0 <? wake - now st) = true) by (apply Z.ltb_lt; lia).
      assert (Hw : (wake <=? now st + (wake - now st)) = true) by (apply Z.leb_le; lia).
      eexists. split.
      * cbn [app run step]. rewrite Hd.
        own_step Hi Hlt. rewrite Hw. own_step Hi Hlt. reflexivity.
      * cbn. rewrite !list_insert_insert_eq. do 4 (split; [reflexivity|]).
        intros Hs Hq. eexists. split.
        -- own_step Hi Hlt. rewrite Hs. own_step Hi Hlt. rewrite Hq. cbn [app].
           reflexivity.
        -- cbn. rewrite !list_insert_insert_eq. split; reflexivity.
Qed.

Lemma retry_sleep_outside_pending_count_witness :
  workers (after two_workers [7%nat]
             (to_retry_sleep 0 ++ to_idle_check 1 ++ [LWorker 1 ANone]))
    = [WSleepRetry 7 60; WExited]
  /\ exists st1 st2,
       run two_workers [LTick 60; LWorker 0 ANone; LWorker 0 ANone]
         (after two_workers [7%nat]
            (to_retry_sleep 0 ++ to_idle_check 1 ++ [LWorker 1 ANone]))
         = Some st1
       /\ sensorsLeftToCheck st1 = [7%nat]
       /\ workers st1 = [WLoop; WExited]
       /\ pendingReCheck st1 = 0
       /\ run two_workers [LWorker 0 ANone; LWorker 0 ANone] st1 = Some st2
       /\ workers st2 = [WPlatform 7; WExited]
       /\ sensorsLeftToCheck st2 = [].
Proof.
  split; [vm_compute; reflexivity|].
  destruct (proj2 (proj2 retry_sleep_outside_pending_count) two_workers
              (after two_workers [7%nat]
                 (to_retry_sleep 0 ++ to_idle_check 1 ++ [LWorker 1 ANone]))
              0%nat 7%nat 60 ltac:(vm_compute; reflexivity))
    as (st1 & H1 & Hq & Hw & Hp & _ & Hnext).
  destruct (Hnext ltac:(vm_compute; reflexivity) ltac:(vm_compute; reflexivity))
    as (st2 & H2 & Hw2 & Hq2).
  exists st1, st2.
  split; [exact H1|]. split; [exact Hq|]. split; [exact Hw|].
  split; [exact Hp|]. split; [exact H2|]. split; [exact Hw2 | exact Hq2].
Defined.

(** * Further properties of the scheduler *)

(** ** The lock (lines 50, 92-95, 122-126) *)

Lemma owned_worker_move st st' i pc pc' (new : list tpc) :
  lock_owned st -> workers st !! i = Some pc ->
  workers st' = <[i:=pc']> (workers st) ->
  timers st' = timers st ++ new ->
  lock_moves (Worker i) (worker_holds pc) (worker_holds pc') (lock st) (lock st') ->
  lock_owned st'.
Proof.
  intros O Hi Hw Ht Hl.
  assert (Hlt : (i < length (workers st))%nat) by (eapply lookup_lt_Some; eassumption).
  unfold lock_owned, lock_moves in *.
  destruct (worker_holds pc) eqn:E, (worker_holds pc') eqn:E'.
  - rewrite Hl. destruct (lock st) as [[k|j]|]; [| |exact I].
    + destruct O as (q & Hk & Hq). rewrite Hw.
      destruct (decide (k = i)) as [->|Hne].
      * exists pc'. split; [apply list_lookup_insert_eq; exact Hlt | exact E'].
      * exists q. split; [rewrite list_lookup_insert_ne by congruence; exact Hk | exact Hq].
    + destruct O as (q & Hj & Hq). exists q. rewrite Ht.
      split; [apply lookup_app_l_Some; exact Hj | exact Hq].
  - rewrite Hl. exact I.
  - destruct Hl as [_ ->]. exists pc'. rewrite Hw.
    split; [apply list_lookup_insert_eq; exact Hlt | exact E'].
  - rewrite Hl. destruct (lock st) as [[k|j]|]; [| |exact I].
    + destruct O as (q & Hk & Hq). rewrite Hw.
      destruct (decide (k = i)) as [->|Hne]; [congruence|].
      exists q. split; [rewrite list_lookup_insert_ne by congruence; exact Hk | exact Hq].
    + destruct O as (q & Hj & Hq). exists q. rewrite Ht.
      split; [apply lookup_app_l_Some; exact Hj | exact Hq].
Qed.

Lemma owned_timer_move st st' j pc pc' :
  lock_owned st -> timers st !! j = Some pc ->
  workers st' = workers st ->
  timers st' = <[j:=pc']> (timers st) ->
  lock_moves (Timer j) (timer_holds pc) (timer_holds pc') (lock st) (lock st') ->
  lock_owned st'.
Proof.
  intros O Hj Hw Ht Hl.
  assert (Hlt : (j < length (timers st))%nat) by (eapply lookup_lt_Some; eassumption).
  unfold lock_owned, lock_moves in *.
  destruct (timer_holds pc) eqn:E, (timer_holds pc') eqn:E'.
  - rewrite Hl. destruct (lock st) as [[k|k]|]; [| |exact I].
    + destruct O as (q & Hk & Hq). exists q. rewrite Hw. split; assumption.
    + destruct O as (q & Hk & Hq). rewrite Ht.
      destruct (decide (k = j)) as [->|Hne].
      * exists pc'. split; [apply list_lookup_insert_eq; exact Hlt | exact E'].
      * exists q. split; [rewrite list_lookup_insert_ne by congruence; exact Hk | exact Hq].
  - rewrite Hl. exact I.
  - destruct Hl as [_ ->]. exists pc'. rewrite Ht.
    split; [apply list_lookup_insert_eq; exact Hlt | exact E'].
  - rewrite Hl. destruct (lock st) as [[k|k]|]; [| |exact I].
    + destruct O as (q & Hk & Hq). exists q. rewrite Hw. split; assumption.
    + destruct O as (q & Hk & Hq). rewrite Ht.
      destruct (decide (k = j)) as [->|Hne]; [congruence|].
      exists q. split; [rewrite list_lookup_insert_ne by congruence; exact Hk | exact Hq].
Qed.

Lemma owned_frame st st' :
  lock st' = lock st -> workers st' = workers st -> timers st' = timers st ->
  lock_owned st -> lock_owned st'.
Proof. intros Hl Hw Ht O. unfold lock_owned in *. rewrite Hl, Hw, Ht. exact O. Qed.

Lemma owned_step cfg l st st' :
  lock_owned st -> step cfg l st = Some st' -> lock_owned st'.
Proof.
  intros O H. destruct l as [i a| j | d | | timeout | r | i].
  - cbn [step] in H. unfold worker_step in H.
    destruct (workers st !! i) as [pc|] eqn:Hi; [|discriminate].
    destruct pc, a; try discriminate;
      repeat match type of H with
             | context [match ?x with _ => _ end] => destruct x eqn:?
             end;
      try discriminate; injection H as <-;
      first [ eapply (owned_worker_move st _ i _ _ []);
              [exact O | exact Hi | reflexivity
              | cbn; rewrite ?app_nil_r; reflexivity | cbn; auto]
            | eapply (owned_worker_move st _ i _ _ [TWait _ _]);
              [exact O | exact Hi | reflexivity | reflexivity | cbn; auto] ].
  - cbn [step] in H. unfold timer_step in H.
    destruct (timers st !! j) as [pc|] eqn:Hj; [|discriminate].
    destruct pc;
      repeat match type of H with
             | context [match ?x with _ => _ end] => destruct x eqn:?
             end;
      try discriminate; injection H as <-;
      (eapply (owned_timer_move st _ j);
       [exact O | exact Hj | reflexivity | reflexivity | cbn; auto]).
  - simpl in H. destruct (0 <? d); [|discriminate]. injection H as <-.
    apply (owned_frame st); first [reflexivity | exact O].
  - unfold step, caller_step in H. destruct (caller st); try discriminate.
    injection H as <-. apply (owned_frame st); first [reflexivity | exact O].
  - unfold step, caller_step in H. destruct (caller st); try discriminate.
    injection H as <-. apply (owned_frame st); first [reflexivity | exact O].
  - unfold step, caller_step in H.
    repeat match type of H with
           | context [match ?x with _ => _ end] => destruct x eqn:?
           end;
      try discriminate; injection H as <-;
      (apply (owned_frame st); first [reflexivity | exact O]).
  - cbn [step] in H. apply worker_raise_inv in H as (pc & a & Hi & Hc & ->).
    destruct (unguarded_call_pc _ _ _ Hc) as (Hh & _).
    eapply (owned_worker_move st _ i pc WExited []);
      [ exact O | exact Hi | reflexivity | cbn; rewrite app_nil_r; reflexivity
      | unfold lock_moves; rewrite Hh; reflexivity ].
Qed.

Lemma owned_reachable cfg listing st :
  reachable cfg listing st -> lock_owned st.
Proof.
  intros [ls H]. revert H.
  assert (O : lock_owned (start cfg listing construct)) by exact I.
  revert O. generalize (start cfg listing construct). clear listing.
  induction ls as [|l ls IH]; intros st0 O H; simpl in H.
  - injection H as <-. exact O.
  - destruct (step cfg l st0) as [st1|] eqn:E; [|discriminate].
    eapply IH; [eapply owned_step; eassumption | exact H].
Qed.

(** X1: mutual exclusion.  In every reachable state a greenlet inside a
    [with self._lock] block (the test of line 94, the increment of line 126,
    the put and decrement of lines 123-124) is the one the lock names, so no
    two greenlets are inside such blocks at once; and the lock names a
    greenlet only while it is inside one. *)
Theorem lock_mutual_exclusion cfg listing st :
  reachable cfg listing st ->
  (forall i pc, workers st !! i = Some pc -> worker_holds pc = true ->
                lock st = Some (Worker i))
  /\ (forall j pc, timers st !! j = Some pc -> timer_holds pc = true ->
                   lock st = Some (Timer j))
  /\ (forall i k pc pc',
        workers st !! i = Some pc -> workers st !! k = Some pc' ->
        worker_holds pc = true -> worker_holds pc' = true -> i = k)
  /\ (forall j k pc pc',
        timers st !! j = Some pc -> timers st !! k = Some pc' ->
        timer_holds pc = true -> timer_holds pc' = true -> j = k)
  /\ (forall i j pc pc',
        workers st !! i = Some pc -> timers st !! j = Some pc' ->
        worker_holds pc = true -> timer_holds pc' = true -> False)
  /\ (forall i, lock st = Some (Worker i) ->
                exists pc, workers st !! i = Some pc /\ worker_holds pc = true)
  /\ (forall j, lock st = Some (Timer j) ->
                exists pc, timers st !! j = Some pc /\ timer_holds pc = true).
Proof.
  intros R. pose proof (inv_reachable _ _ _ R) as [_ I2 I3].
  pose proof (owned_reachable _ _ _ R) as O. unfold lock_owned in O.
  split; [exact I2|]. split; [exact I3|]. split; [|split; [|split; [|split]]].
  - intros i k pc pc' Hi Hk Hp Hp'.
    pose proof (I2 _ _ Hi Hp). pose proof (I2 _ _ Hk Hp'). congruence.
  - intros j k pc pc' Hj Hk Hp Hp'.
    pose proof (I3 _ _ Hj Hp). pose proof (I3 _ _ Hk Hp'). congruence.
  - intros i j pc pc' Hi Hj Hp Hp'.
    pose proof (I2 _ _ Hi Hp). pose proof (I3 _ _ Hj Hp'). congruence.
  - intros i Hl. rewrite Hl in O. exact O.
  - intros j Hl. rewrite Hl in O. exact O.
Qed.

Lemma lock_mutual_exclusion_witness :
  reachable one_worker [7%nat] (after one_worker [7%nat] (to_increment 0))
  /\ lock (after one_worker [7%nat] (to_increment 0)) = Some (Worker 0)
  /\ exists pc,
       workers (after one_worker [7%nat] (to_increment 0)) !! 0%nat = Some pc
       /\ worker_holds pc = true.
Proof.
  assert (R : reachable one_worker [7%nat] (after one_worker [7%nat] (to_increment 0)))
    by (exists (to_increment 0); vm_compute; reflexivity).
  split; [exact R|]. split; [reflexivity|].
  exact (proj1 (proj2 (proj2 (proj2 (proj2 (proj2
           (lock_mutual_exclusion one_worker [7%nat] _ R)))))) 0%nat eq_refl).
Defined.

(** X2: the lock is never stuck.  In every reachable state in which the
    lock is held, its holder has an enabled step, and after at most two of
    its own steps the lock is free again: every [with self._lock] block is
    left, the one of line 92 through the [return] of line 95 included. *)
Theorem lock_holder_releases cfg listing st who :
  reachable cfg listing st -> lock st = Some who ->
  exists st',
    (run cfg [own_label who] st = Some st'
     \/ run cfg [own_label who; own_label who] st = Some st')
    /\ lock st' = None.
Proof.
  intros R Hl. pose proof (owned_reachable _ _ _ R) as O.
  unfold lock_owned in O. rewrite Hl in O.
  destruct who as [i|j]; destruct O as (pc & Hi & Hp).
  - assert (Hlt : (i < length (workers st))%nat) by (eapply lookup_lt_Some; eassumption).
    destruct pc; try discriminate Hp.
    + destruct ((0 =? pendingReCheck st)
                && Nat.eqb 0 (length (sensorsLeftToCheck st))) eqn:E;
        (eexists; split;
         [left; cbn [own_label]; own_step Hi Hlt; rewrite E; reflexivity
         | reflexivity]).
    + eexists. split;
        [left; cbn [own_label]; own_step Hi Hlt; reflexivity | reflexivity].
  - assert (Hlt : (j < length (timers st))%nat) by (eapply lookup_lt_Some; eassumption).
    destruct pc; try discriminate Hp.
    + eexists. split;
        [right; cbn [own_label]; do 2 own_step Hi Hlt; reflexivity | reflexivity].
    + eexists. split;
        [left; cbn [own_label]; own_step Hi Hlt; reflexivity | reflexivity].
Qed.

Lemma lock_holder_releases_witness :
  reachable one_worker [7%nat] (after one_worker [7%nat] (to_increment 0))
  /\ lock (after one_worker [7%nat] (to_increment 0)) = Some (Worker 0)
  /\ exists st',
       (run one_worker [LWorker 0 ANone]
          (after one_worker [7%nat] (to_increment 0)) = Some st'
        \/ run one_worker [LWorker 0 ANone; LWorker 0 ANone]
             (after one_worker [7%nat] (to_increment 0)) = Some st')
       /\ lock st' = None.
Proof.
  assert (R : reachable one_worker [7%nat] (after one_worker [7%nat] (to_increment 0)))
    by (exists (to_increment 0); vm_compute; reflexivity).
  split; [exact R|]. split; [reflexivity|].
  exact (lock_holder_releases one_worker [7%nat] _ (Worker 0) R eq_refl).
Defined.

(** ** What the pending counter counts (lines 51, 124, 126) *)

(** X3: in every reachable state the pending counter is exactly the
    number of deferred re-checks that have not yet run their decrement plus
    the number of workers between the increment of line 126 and the spawn of
    line 127; so it is zero exactly when no deferred re-check is outstanding
    and no worker is about to spawn one. *)
Theorem pending_counter_exact cfg listing st :
  reachable cfg listing st ->
  pendingReCheck st
  = tally worker_owes (workers st) + tally timer_owes (timers st)
  /\ (pendingReCheck st = 0
      <-> (forall j pc, timers st !! j = Some pc -> pc = TDone)
          /\ (forall i s, workers st !! i <> Some (WSpawn s))).
Proof.
  intros R. pose proof (inv_reachable _ _ _ R) as [I1 _ _].
  split; [exact I1|].
  pose proof (tally_nonneg worker_owes (workers st) worker_owes_nonneg) as Hw.
  pose proof (tally_nonneg timer_owes (timers st) timer_owes_nonneg) as Ht.
  split.
  - intros H0. split.
    + intros j pc Hj.
      assert (Hz : timer_owes pc = 0)
        by (apply (tally_zero timer_owes (timers st) j pc timer_owes_nonneg); [lia | exact Hj]).
      destruct pc; simpl in Hz; try lia. reflexivity.
    + intros i s Hi.
      assert (Hz : worker_owes (WSpawn s) = 0)
        by (apply (tally_zero worker_owes (workers st) i (WSpawn s) worker_owes_nonneg); [lia | exact Hi]).
      simpl in Hz. lia.
  - intros [HT HW]. rewrite I1.
    assert (Ht0 : tally timer_owes (timers st) = 0).
    { clear -HT. induction (timers st) as [|pc ts IH]; [reflexivity|].
      simpl. rewrite (HT 0%nat pc eq_refl). simpl.
      apply IH. intros j q Hj. exact (HT (S j) q Hj). }
    assert (Hw0 : tally worker_owes (workers st) = 0).
    { clear -HW. induction (workers st) as [|pc ws IH]; [reflexivity|].
      simpl. rewrite IH; [|intros i s Hi; exact (HW (S i) s Hi)].
      destruct pc; try reflexivity. exfalso. exact (HW 0%nat s eq_refl). }
    lia.
Qed.

Lemma pending_counter_exact_witness :
  reachable one_worker [7%nat]
    (after one_worker [7%nat] (to_increment 0 ++ [LWorker 0 ANone; LWorker 0 ANone]))
  /\ pendingReCheck
       (after one_worker [7%nat] (to_increment 0 ++ [LWorker 0 ANone; LWorker 0 ANone]))
     = 1
  /\ timers
       (after one_worker [7%nat] (to_increment 0 ++ [LWorker 0 ANone; LWorker 0 ANone]))
     = [TWait 7 60].
Proof.
  assert (R : reachable one_worker [7%nat]
                (after one_worker [7%nat]
                   (to_increment 0 ++ [LWorker 0 ANone; LWorker 0 ANone])))
    by (exists (to_increment 0 ++ [LWorker 0 ANone; LWorker 0 ANone]);
        vm_compute; reflexivity).
  split; [exact R|].
  split; [exact (proj1 (pending_counter_exact one_worker [7%nat] _ R)) | reflexivity].
Defined.

(** ** Where the sensors are (lines 60, 88, 123, 127, 148) *)

Lemma flat_map_insert_perm {A : Type} (f : A -> list sensor) (l : list A)
      (i : nat) (x y : A) :
  l !! i = Some x -> flat_map f (<[i:=y]> l) ++ f x ≡ₚ flat_map f l ++ f y.
Proof.
  revert i. induction l as [|z l IH]; intros [|i] Hi; simpl in *; try discriminate.
  - injection Hi as ->. solve_Permutation.
  - rewrite <- !app_assoc, (IH i Hi). reflexivity.
Qed.

(** A worker moves from [pc] to [pc']: what it and the queue and the new
    deferred re-checks hold afterwards was held by it and the queue before. *)
Lemma in_flight_worker_move st st' i pc pc' (new : list tpc) :
  workers st !! i = Some pc ->
  workers st' = <[i:=pc']> (workers st) ->
  timers st' = timers st ++ new ->
  sensorsLeftToCheck st' ++ worker_sensor pc' ++ flat_map timer_sensor new
    ⊆+ sensorsLeftToCheck st ++ worker_sensor pc ->
  in_flight st' ⊆+ in_flight st.
Proof.
  intros Hi Hw Ht Hb. unfold in_flight. rewrite Hw, Ht, flat_map_app.
  apply (submseteq_app_inv_r _ _ (worker_sensor pc)).
  pose proof (flat_map_insert_perm worker_sensor _ _ _ pc' Hi) as Hp.
  transitivity ((sensorsLeftToCheck st' ++ worker_sensor pc'
                 ++ flat_map timer_sensor new)
                ++ flat_map worker_sensor (workers st)
                ++ flat_map timer_sensor (timers st)).
  - apply Permutation_submseteq.
    transitivity (sensorsLeftToCheck st'
                  ++ (flat_map worker_sensor (<[i:=pc']> (workers st))
                      ++ worker_sensor pc)
                  ++ flat_map timer_sensor (timers st)
                  ++ flat_map timer_sensor new); [solve_Permutation|].
    rewrite Hp. solve_Permutation.
  - transitivity ((sensorsLeftToCheck st ++ worker_sensor pc)
                  ++ flat_map worker_sensor (workers st)
                  ++ flat_map timer_sensor (timers st)).
    + apply submseteq_app; [exact Hb | reflexivity].
    + apply Permutation_submseteq. solve_Permutation.
Qed.

Lemma in_flight_timer_move st st' j pc pc' :
  timers st !! j = Some pc ->
  workers st' = workers st ->
  timers st' = <[j:=pc']> (timers st) ->
  sensorsLeftToCheck st' ++ timer_sensor pc'
    ⊆+ sensorsLeftToCheck st ++ timer_sensor pc ->
  in_flight st' ⊆+ in_flight st.
Proof.
  intros Hj Hw Ht Hb. unfold in_flight. rewrite Hw, Ht.
  apply (submseteq_app_inv_r _ _ (timer_sensor pc)).
  pose proof (flat_map_insert_perm timer_sensor _ _ _ pc' Hj) as Hp.
  transitivity ((sensorsLeftToCheck st' ++ timer_sensor pc')
                ++ flat_map worker_sensor (workers st)
                ++ flat_map timer_sensor (timers st)).
  - apply Permutation_submseteq.
    transitivity (sensorsLeftToCheck st'
                  ++ flat_map worker_sensor (workers st)
                  ++ (flat_map timer_sensor (<[j:=pc']> (timers st))
                      ++ timer_sensor pc)); [solve_Permutation|].
    rewrite Hp. solve_Permutation.
  - transitivity ((sensorsLeftToCheck st ++ timer_sensor pc)
                  ++ flat_map worker_sensor (workers st)
                  ++ flat_map timer_sensor (timers st)).
    + apply submseteq_app; [exact Hb | reflexivity].
    + apply Permutation_submseteq. solve_Permutation.
Qed.

Lemma in_flight_step cfg l st st' :
  step cfg l st = Some st' -> in_flight st' ⊆+ in_flight st.
Proof.
  intros H. destruct l as [i a| j | d | | timeout | r | i].
  - cbn [step] in H. unfold worker_step in H.
    destruct (workers st !! i) as [pc|] eqn:Hi; [|discriminate].
    destruct pc, a; try discriminate;
      repeat match type of H with
             | context [match ?x with _ => _ end] => destruct x eqn:?
             end;
      try discriminate; injection H as <-;
      first [ eapply (in_flight_worker_move st _ i _ _ []);
              [exact Hi | reflexivity | cbn; rewrite ?app_nil_r; reflexivity |]
            | eapply (in_flight_worker_move st _ i _ _ [TWait _ _]);
              [exact Hi | reflexivity | reflexivity |] ];
      cbn;
      repeat match goal with
             | E : sensorsLeftToCheck _ = _ |- _ => rewrite E
             end;
      solve_submseteq.
  - cbn [step] in H. unfold timer_step in H.
    destruct (timers st !! j) as [pc|] eqn:Hj; [|discriminate].
    destruct pc;
      repeat match type of H with
             | context [match ?x with _ => _ end] => destruct x eqn:?
             end;
      try discriminate; injection H as <-;
      (eapply (in_flight_timer_move st _ j); [exact Hj | reflexivity | reflexivity |]);
      cbn; solve_submseteq.
  - simpl in H. destruct (0 <? d); [|discriminate]. injection H as <-. reflexivity.
  - unfold step, caller_step in H. destruct (caller st); try discriminate.
    injection H as <-. reflexivity.
  - unfold step, caller_step in H. destruct (caller st); try discriminate.
    injection H as <-. reflexivity.
  - unfold step, caller_step in H.
    repeat match type of H with
           | context [match ?x with _ => _ end] => destruct x eqn:?
           end;
      try discriminate; injection H as <-; reflexivity.
  - cbn [step] in H. apply worker_raise_inv in H as (pc & a & Hi & Hc & ->).
    eapply (in_flight_worker_move st _ i pc WExited []);
      [exact Hi | reflexivity | cbn; rewrite app_nil_r; reflexivity |].
    cbn. solve_submseteq.
Qed.

Lemma in_flight_run cfg ls st st' :
  run cfg ls st = Some st' -> in_flight st' ⊆+ in_flight st.
Proof.
  revert st. induction ls as [|l ls IH]; intros st H; simpl in H.
  - injection H as <-. reflexivity.
  - destruct (step cfg l st) as [st1|] eqn:E; [|discriminate].
    transitivity (in_flight st1); [exact (IH _ H) | exact (in_flight_step _ _ _ _ E)].
Qed.

Lemma in_flight_start cfg listing :
  in_flight (start cfg listing construct) = listing.
Proof.
  unfold in_flight. cbn.
  assert (H : forall n, flat_map worker_sensor (replicate n WLoop) = [])
    by (induction n as [|n IH]; [reflexivity | exact IH]).
  rewrite H, !app_nil_r. reflexivity.
Qed.

Lemma elem_of_flat_map_lookup {A : Type} (f : A -> list sensor) (l : list A)
      (i : nat) (x : A) (e : sensor) :
  l !! i = Some x -> e ∈ f x -> e ∈ flat_map f l.
Proof.
  revert i. induction l as [|z l IH]; intros [|i] Hi He; simpl in *; try discriminate.
  - injection Hi as ->. apply elem_of_app. left. exact He.
  - apply elem_of_app. right. exact (IH i Hi He).
Qed.

Lemma NoDup_flat_map_lookup {A : Type} (f : A -> list sensor) (l : list A)
      (i k : nat) (x y : A) (e : sensor) :
  NoDup (flat_map f l) -> l !! i = Some x -> l !! k = Some y ->
  e ∈ f x -> e ∈ f y -> i = k.
Proof.
  revert i k. induction l as [|z l IH]; intros [|i] [|k] N Hi Hk Hx Hy;
    simpl in *; try discriminate; try reflexivity;
    apply NoDup_app in N as (_ & Hd & N).
  - injection Hi as ->. exfalso. apply (Hd e Hx).
    exact (elem_of_flat_map_lookup f l k y e Hk Hy).
  - injection Hk as ->. exfalso. apply (Hd e Hy).
    exact (elem_of_flat_map_lookup f l i x e Hi Hx).
  - f_equal. exact (IH i k N Hi Hk Hx Hy).
Qed.

(** X4: sensor handles are conserved.  In every reachable state the
    handles in the queue, in the workers' local variables and in the
    arguments of the deferred re-checks are, counted with multiplicity, among
    those [start] listed: the scheduler never invents or duplicates a handle.
    When the listing has no duplicates, no sensor is visited by two workers
    at once, and a sensor being visited or awaiting its deferred re-check is
    not in the queue. *)
Theorem sensors_conserved cfg listing st :
  reachable cfg listing st ->
  in_flight st ⊆+ listing
  /\ (NoDup listing ->
      NoDup (sensorsLeftToCheck st)
      /\ (forall i k pc pc' s,
            workers st !! i = Some pc -> workers st !! k = Some pc' ->
            s ∈ worker_sensor pc -> s ∈ worker_sensor pc' -> i = k)
      /\ (forall i pc s,
            workers st !! i = Some pc -> s ∈ worker_sensor pc ->
            (s ∉ sensorsLeftToCheck st))
      /\ (forall j pc s,
            timers st !! j = Some pc -> s ∈ timer_sensor pc ->
            (s ∉ sensorsLeftToCheck st)
            /\ (forall i pc', workers st !! i = Some pc' -> s ∉ worker_sensor pc'))).
Proof.
  intros [ls R].
  assert (Hsub : in_flight st ⊆+ listing).
  { pose proof (in_flight_run _ _ _ _ R) as H.
    rewrite in_flight_start in H. exact H. }
  split; [exact Hsub|]. intros N.
  assert (N' : NoDup (in_flight st)).
  { apply submseteq_sublist_l in Hsub as (l2 & Hs & Hp).
    apply (sublist_NoDup _ l2); [rewrite Hp; exact N | exact Hs]. }
  unfold in_flight in N'.
  apply NoDup_app in N' as (Nq & Dq & N').
  apply NoDup_app in N' as (Nw & Dw & Nt).
  split; [exact Nq|]. split; [|split].
  - intros i k pc pc' s Hi Hk Hs Hs'.
    exact (NoDup_flat_map_lookup worker_sensor _ i k pc pc' s Nw Hi Hk Hs Hs').
  - intros i pc s Hi Hs Hq. apply (Dq s Hq). apply elem_of_app. left.
    exact (elem_of_flat_map_lookup worker_sensor _ i pc s Hi Hs).
  - intros j pc s Hj Hs.
    pose proof (elem_of_flat_map_lookup timer_sensor _ j pc s Hj Hs) as Ht.
    split.
    + intros Hq. apply (Dq s Hq). apply elem_of_app. right. exact Ht.
    + intros i pc' Hi Hs'. apply (Dw s); [|exact Ht].
      exact (elem_of_flat_map_lookup worker_sensor _ i pc' s Hi Hs').
Qed.

Lemma sensors_conserved_witness :
  reachable two_workers [7%nat; 8%nat]
    (after two_workers [7%nat; 8%nat] (to_check 0 ++ to_check 1))
  /\ workers (after two_workers [7%nat; 8%nat] (to_check 0 ++ to_check 1))
     = [WCheck 7; WCheck 8]
  /\ in_flight (after two_workers [7%nat; 8%nat] (to_check 0 ++ to_check 1))
     ⊆+ [7%nat; 8%nat]
  /\ NoDup (sensorsLeftToCheck
              (after two_workers [7%nat; 8%nat] (to_check 0 ++ to_check 1))).
Proof.
  assert (R : reachable two_workers [7%nat; 8%nat]
                (after two_workers [7%nat; 8%nat] (to_check 0 ++ to_check 1)))
    by (exists (to_check 0 ++ to_check 1); vm_compute; reflexivity).
  split; [exact R|]. split; [reflexivity|].
  pose proof (sensors_conserved two_workers [7%nat; 8%nat] _ R) as [Hs Hn].
  split; [exact Hs|].
  refine (proj1 (Hn _)).
  apply NoDup_cons. split; [|apply NoDup_singleton].
  intros H. apply list_elem_of_singleton in H. discriminate H.
Defined.

(** ** The successful visit (lines 88-153) *)

(** X5: a sensor that passes both filters, is online and whose check
    returns true is visited once from the pop to the top of the loop: the
    worker queries it, calls onStartCheck (if given), the check, then
    onCheckDone (if given), each once and in that order, takes no time of its
    own, spawns nothing, leaves the pending counter alone and does not put
    the sensor back.  From the check on, the same holds of the worker's own
    trace in every interleaving with the other greenlets. *)
Theorem successful_visit cfg st i s q platform sensorTags :
  workers st !! i = Some WPop -> sensorsLeftToCheck st = s :: q ->
  platform_skipped cfg platform = false -> tags_pass cfg sensorTags = true ->
  (exists st',
     run cfg [LWorker i ANone; LWorker i (platform_answer cfg platform);
              LWorker i (tags_answer cfg sensorTags); LWorker i (AOnline true);
              LWorker i ANone; LWorker i (ACheck (Returned true));
              LWorker i ANone; LWorker i ANone] st = Some st'
     /\ workers st' = <[i:=WLoop]> (workers st)
     /\ sensorsLeftToCheck st' = q
     /\ trace st' = trace st ++ map (pair (Worker i))
                      (platform_query cfg s ++ tags_query cfg s
                       ++ [IsOnline s]
                       ++ call (cbOnStartCheck cfg) (OnStartCheck s)
                       ++ [Check s]
                       ++ call (cbOnCheckDone cfg) (OnCheckDone s))
     /\ timers st' = timers st
     /\ pendingReCheck st' = pendingReCheck st
     /\ now st' = now st)
  /\ (forall st0 ls1 ls2 a1 a2 st',
        workers st0 !! i = Some (WCheck s) ->
        quiet i ls1 -> quiet i ls2 ->
        run cfg (LWorker i (ACheck (Returned true)) :: ls1 ++ LWorker i a1
                 :: ls2 ++ [LWorker i a2]) st0 = Some st' ->
        workers st' !! i = Some WLoop
        /\ actions_of (Worker i) (trace st')
           = actions_of (Worker i) (trace st0)
             ++ [Check s] ++ call (cbOnCheckDone cfg) (OnCheckDone s)).
Proof.
  intros Hi Hq Hp Ht.
  assert (Hlt : (i < length (workers st))%nat) by (eapply lookup_lt_Some; eassumption).
  split.
  - unfold tags_pass, platform_answer, tags_answer, platform_query, tags_query in *.
    destruct (platform_consulted cfg) eqn:Hc, (tags cfg) as [required|] eqn:Hr;
      (eexists; split;
       [ own_step Hi Hlt; rewrite Hq; own_step Hi Hlt; rewrite Hc, ?Hp;
         own_step Hi Hlt; rewrite Hr, ?Ht; do 5 own_step Hi Hlt; reflexivity
       | cbn; rewrite !list_insert_insert_eq, ?map_app, <- ?app_assoc;
         repeat split; reflexivity ]).
  - intros st0 ls1 ls2 a1 a2 st' Hi0 Q1 Q2 Hrun.
    first_own i Hrun Hi0 Hi0 Hi1 Ha1 Hn1.
    peel_own own_step_after_quiet Hrun Hi1 Q1 Hi2 Ha2 Hn2 Hs.
    destruct a1; try discriminate Hs.
    settle_own i Hs Hrun Hi2 Ha2 Hn2 Hi3 Ha3 Hn3.
    peel_own own_step_after_quiet Hrun Hi3 Q2 Hi4 Ha4 Hn4 Hs.
    destruct a2; try discriminate Hs.
    settle_own i Hs Hrun Hi4 Ha4 Hn4 Hi5 Ha5 Hn5.
    injection Hrun as <-. split; [exact Hi5|].
    rewrite Ha5, <- ?app_assoc. reflexivity.
Qed.

Lemma successful_visit_witness :
  workers (after one_worker [7%nat] [LWorker 0 ANone]) !! 0%nat = Some WPop
  /\ sensorsLeftToCheck (after one_worker [7%nat] [LWorker 0 ANone]) = [7%nat]
  /\ exists st',
       run one_worker [LWorker 0 ANone; LWorker 0 ANone; LWorker 0 ANone;
                       LWorker 0 (AOnline true); LWorker 0 ANone;
                       LWorker 0 (ACheck (Returned true));
                       LWorker 0 ANone; LWorker 0 ANone]
         (after one_worker [7%nat] [LWorker 0 ANone]) = Some st'
       /\ workers st' = [WLoop]
       /\ sensorsLeftToCheck st' = []
       /\ trace st' = [(Worker 0, IsOnline 7); (Worker 0, OnStartCheck 7);
                       (Worker 0, Check 7); (Worker 0, OnCheckDone 7)]
       /\ timers st' = []
       /\ pendingReCheck st' = 0
       /\ now st' = 0.
Proof.
  split; [reflexivity|]. split; [reflexivity|].
  exact (proj1 (successful_visit one_worker
                  (after one_worker [7%nat] [LWorker 0 ANone]) 0 7 []
                  "linux" [] eq_refl eq_refl eq_refl eq_refl)).
Defined.

(** ** The tag filter (lines 110-113) *)

(** X6: the tag filter keeps a sensor exactly when every required tag is,
    as the same string, among the sensor's tags; order and repetition on
    either side do not matter, and an empty list of required tags keeps every
    sensor (though its tags are still fetched, the list not being [None]). *)
Theorem tag_filter_is_inclusion (required sensorTags : list string) :
  (has_all_tags required sensorTags = true
   <-> forall x, x ∈ required -> x ∈ sensorTags)
  /\ has_all_tags [] sensorTags = true
  /\ (forall cfg st i s,
        tags cfg = Some required -> workers st !! i = Some (WTags s) ->
        step cfg (LWorker i ANone) st = None
        /\ exists st',
             step cfg (LWorker i (ATags sensorTags)) st = Some st'
             /\ trace st' = trace st ++ [(Worker i, GetTags s)]
             /\ workers st'
                = <[i:=if has_all_tags required sensorTags
                       then WOnline s else WLoop]> (workers st)
             /\ sensorsLeftToCheck st' = sensorsLeftToCheck st).
Proof.
  split; [|split].
  - unfold has_all_tags. rewrite forallb_forall. split.
    + intros H x Hx. apply list_elem_of_In in Hx.
      specialize (H x Hx). apply existsb_exists in H as (y & Hy & E).
      apply String.eqb_eq in E. subst y. apply list_elem_of_In. exact Hy.
    + intros H x Hx. apply list_elem_of_In in Hx. specialize (H x Hx).
      apply existsb_exists. exists x.
      split; [apply list_elem_of_In; exact H | apply String.eqb_refl].
  - reflexivity.
  - intros cfg st i s Ht Hi. cbn [step]. unfold worker_step. rewrite Hi, Ht.
    split; [reflexivity|]. eexists. split; [reflexivity|].
    cbn. repeat split; reflexivity.
Qed.

Lemma tag_filter_is_inclusion_witness :
  tags tagged = Some ["vip"%string]
  /\ workers (after tagged [7%nat] (replicate 3 (LWorker 0 ANone))) !! 0%nat
     = Some (WTags 7)
  /\ has_all_tags ["vip"%string] ["VIP"%string; "prod"%string] = false
  /\ exists st',
       step tagged (LWorker 0 (ATags ["VIP"%string; "prod"%string]))
         (after tagged [7%nat] (replicate 3 (LWorker 0 ANone))) = Some st'
       /\ trace st' = [(Worker 0, GetTags 7)]
       /\ workers st' = [WLoop]
       /\ sensorsLeftToCheck st' = [].
Proof.
  split; [reflexivity|]. split; [reflexivity|]. split; [reflexivity|].
  exact (proj2 (proj2 (proj2 (tag_filter_is_inclusion ["vip"%string]
                                ["VIP"%string; "prod"%string]))
                 tagged (after tagged [7%nat] (replicate 3 (LWorker 0 ANone)))
                 0%nat 7%nat eq_refl eq_refl)).
Defined.

(** ** [start] with no worker (lines 55-66) *)

(** X7: with [n_concurrent = 0], [start] fills the queue and spawns
    nothing: whatever happens afterwards, the queue keeps the whole listing
    and nothing is ever done with a sensor, yet a [wait] returns True at
    once, the group being empty. *)
Theorem no_worker_no_check cfg listing :
  nConcurrent cfg = 0%nat ->
  (forall ls st,
     run cfg ls (start cfg listing construct) = Some st ->
     sensorsLeftToCheck st = listing /\ trace st = [] /\ pendingReCheck st = 0)
  /\ exists st,
       run cfg [LWait None; LReturn true] (start cfg listing construct) = Some st
       /\ sensorsLeftToCheck st = listing.
Proof.
  intros H0.
  assert (G : group_empty (start cfg listing construct) = true)
    by (unfold group_empty, start; cbn; rewrite H0; reflexivity).
  split.
  - intros ls st Hrun.
    destruct (drained_run _ _ _ _ G Hrun) as (Hq & Hp & _ & _ & Ht).
    rewrite Hq, Hp, Ht. repeat split; reflexivity.
  - eexists. split.
    + unfold start. rewrite H0. reflexivity.
    + reflexivity.
Qed.

Lemma no_worker_no_check_witness :
  nConcurrent no_workers = 0%nat
  /\ exists st,
       run no_workers [LWait None; LReturn true]
         (start no_workers [7%nat; 8%nat] construct) = Some st
       /\ sensorsLeftToCheck st = [7%nat; 8%nat].
Proof.
  split; [reflexivity|].
  exact (proj2 (no_worker_no_check no_workers [7%nat; 8%nat] eq_refl)).
Defined.

(** ** [stop] (lines 68-72, 86) *)

Lemma stop_event_step cfg l st st' :
  stopEvent st = true -> step cfg l st = Some st' -> stopEvent st' = true.
Proof.
  intros Hs H. destruct l as [i a| j | d | | timeout | r | i].
  - cbn [step] in H. unfold worker_step in H.
    destruct (workers st !! i) as [pc|]; [|discriminate].
    destruct pc, a; try discriminate;
      repeat match type of H with
             | context [match ?x with _ => _ end] => destruct x eqn:?
             end;
      try discriminate; injection H as <-; assumption.
  - cbn [step] in H. unfold timer_step in H.
    destruct (timers st !! j) as [pc|]; [|discriminate].
    destruct pc;
      repeat match type of H with
             | context [match ?x with _ => _ end] => destruct x eqn:?
             end;
      try discriminate; injection H as <-; assumption.
  - simpl in H. destruct (0 <? d); [|discriminate]. injection H as <-. exact Hs.
  - unfold step, caller_step in H. destruct (caller st); try discriminate.
    injection H as <-. reflexivity.
  - unfold step, caller_step in H. destruct (caller st); try discriminate.
    injection H as <-. exact Hs.
  - unfold step, caller_step in H.
    repeat match type of H with
           | context [match ?x with _ => _ end] => destruct x eqn:?
           end;
      try discriminate; injection H as <-; assumption.
  - cbn [step] in H. apply worker_raise_inv in H as (pc & a & _ & _ & ->).
    exact Hs.
Qed.

(** X8: the stop event is never cleared.  Once it is set it stays set in
    every later state, and from then on a worker at the top of its loop can
    only leave: it pops nothing and starts no further visit. *)
Theorem stop_event_is_final cfg ls st st' :
  stopEvent st = true -> run cfg ls st = Some st' ->
  stopEvent st' = true
  /\ forall i a st'',
       workers st' !! i = Some WLoop ->
       step cfg (LWorker i a) st' = Some st'' ->
       workers st'' = <[i:=WExited]> (workers st')
       /\ sensorsLeftToCheck st'' = sensorsLeftToCheck st'
       /\ trace st'' = trace st'.
Proof.
  intros Hs Hrun.
  assert (Hs' : stopEvent st' = true).
  { revert st Hs Hrun. induction ls as [|l ls IH]; intros st Hs Hrun; simpl in Hrun.
    - injection Hrun as <-. exact Hs.
    - destruct (step cfg l st) as [st1|] eqn:E; [|discriminate].
      exact (IH st1 (stop_event_step _ _ _ _ Hs E) Hrun). }
  split; [exact Hs'|].
  intros i a st'' Hi H. cbn [step] in H. unfold worker_step in H.
  rewrite Hi, Hs' in H. destruct a; try discriminate H.
  injection H as <-. repeat split; reflexivity.
Qed.

Lemma stop_event_is_final_witness :
  stopEvent (after one_worker [7%nat] [LStop]) = true
  /\ run one_worker [LTick 5] (after one_worker [7%nat] [LStop])
     = Some (after one_worker [7%nat] [LStop; LTick 5])
  /\ stopEvent (after one_worker [7%nat] [LStop; LTick 5]) = true.
Proof.
  assert (S : run one_worker [LTick 5] (after one_worker [7%nat] [LStop])
              = Some (after one_worker [7%nat] [LStop; LTick 5]))
    by (vm_compute; reflexivity).
  split; [reflexivity|]. split; [exact S|].
  exact (proj1 (stop_event_is_final one_worker [LTick 5]
                  (after one_worker [7%nat] [LStop])
                  (after one_worker [7%nat] [LStop; LTick 5]) eq_refl S)).
Defined.

(** X9: [stop] is idempotent.  When a [stop] has returned (the stop event
    is set, the group is empty, the caller is idle), another [stop] returns
    at once and leaves the scheduler exactly as it was. *)
Theorem stop_twice_changes_nothing cfg st :
  stopEvent st = true -> caller st = CIdle -> group_empty st = true ->
  run cfg [LStop; LReturn true] st = Some st.
Proof.
  intros Hs Hc Hg. destruct st as [q l p sf ws ts c n tr].
  simpl in Hs, Hc. subst sf c.
  cbn [run step caller_step caller].
  change (group_empty (set_caller CStop (set_stop true
            (State q l p true ws ts CIdle n tr))))
    with (group_empty (State q l p true ws ts CIdle n tr)).
  rewrite Hg. reflexivity.
Qed.

Lemma stop_twice_changes_nothing_witness :
  stopEvent (after one_worker [] [LStop; LWorker 0 ANone; LReturn true]) = true
  /\ caller (after one_worker [] [LStop; LWorker 0 ANone; LReturn true]) = CIdle
  /\ group_empty (after one_worker [] [LStop; LWorker 0 ANone; LReturn true]) = true
  /\ run one_worker [LStop; LReturn true]
       (after one_worker [] [LStop; LWorker 0 ANone; LReturn true])
     = Some (after one_worker [] [LStop; LWorker 0 ANone; LReturn true]).
Proof.
  do 3 (split; [reflexivity|]).
  exact (stop_twice_changes_nothing one_worker
           (after one_worker [] [LStop; LWorker 0 ANone; LReturn true])
           eq_refl eq_refl eq_refl).
Defined.

(** ** Completion (lines 55-66, 74-97) *)

(** Unfold the field updates of a state given by its constructor. *)
Ltac state_fields :=
  cbv [goto tgoto emit set_workers set_timers set_queue set_lock set_pending
       set_now set_stop set_caller sensorsLeftToCheck lock pendingReCheck
       stopEvent workers timers caller now trace] in *.

Lemma visit_once cfg plat stags i s q st :
  workers st !! i = Some WLoop -> stopEvent st = false ->
  sensorsLeftToCheck st = s :: q ->
  platform_skipped cfg (plat s) = false -> tags_pass cfg (stags s) = true ->
  run cfg (visit_labels cfg plat stags i s) st
  = Some (emit (Worker i) (visit_actions cfg s) (set_queue q st)).
Proof.
  intros Hi Hs Hq Hp Ht.
  assert (Hlt : (i < length (workers st))%nat) by (eapply lookup_lt_Some; eassumption).
  unfold visit_labels, visit_actions, tags_pass, platform_answer, tags_answer,
    platform_query, tags_query in *.
  destruct (platform_consulted cfg) eqn:Hc, (tags cfg) as [required|] eqn:Hr;
    (own_step Hi Hlt; rewrite Hs; own_step Hi Hlt; rewrite Hq;
     own_step Hi Hlt; rewrite Hc, ?Hp; own_step Hi Hlt; rewrite Hr, ?Ht;
     do 5 own_step Hi Hlt; f_equal;
     destruct st as [q0 l0 p0 sf ws ts c n tr]; state_fields;
     rewrite !list_insert_insert_eq, (list_insert_id ws i WLoop Hi),
       ?map_app, <- ?app_assoc;
     reflexivity).
Qed.

Lemma drain_queue cfg plat stags i listing :
  (forall s, platform_skipped cfg (plat s) = false) ->
  (forall s, tags_pass cfg (stags s) = true) ->
  forall st,
    workers st !! i = Some WLoop -> stopEvent st = false ->
    sensorsLeftToCheck st = listing ->
    run cfg (flat_map (visit_labels cfg plat stags i) listing) st
    = Some (emit (Worker i) (flat_map (visit_actions cfg) listing)
              (set_queue [] st)).
Proof.
  intros Hp Ht. induction listing as [|s q IH]; intros st Hi Hs Hq.
  - destruct st as [q0 l0 p0 sf ws ts c n tr]. state_fields. subst q0.
    cbn [flat_map map run]. rewrite app_nil_r. reflexivity.
  - cbn [flat_map]. rewrite run_app.
    rewrite (visit_once cfg plat stags i s q st Hi Hs Hq (Hp s) (Ht s)).
    rewrite IH by (first [exact Hi | exact Hs | reflexivity]).
    destruct st as [q0 l0 p0 sf ws ts c n tr]. state_fields.
    rewrite map_app, <- app_assoc. reflexivity.
Qed.

Lemma exit_one cfg i st :
  workers st !! i = Some WLoop -> stopEvent st = false ->
  sensorsLeftToCheck st = [] -> pendingReCheck st = 0 -> lock st = None ->
  run cfg (exit_labels i) st = Some (goto i WExited st).
Proof.
  intros Hi Hs Hq Hp Hl.
  assert (Hlt : (i < length (workers st))%nat) by (eapply lookup_lt_Some; eassumption).
  unfold exit_labels. cbn [replicate].
  own_step Hi Hlt. rewrite Hs. own_step Hi Hlt. rewrite Hq.
  own_step Hi Hlt. rewrite Hl. own_step Hi Hlt. rewrite Hp, Hq.
  cbn [run Z.eqb length Nat.eqb andb]. f_equal.
  destruct st as [q0 l0 p0 sf ws ts c n tr]. state_fields. subst l0.
  rewrite !list_insert_insert_eq. reflexivity.
Qed.

(** * The command line's [--tags] argument (line 190) *)

Lemma split_length sep x : length (split sep x) = S (occurrences sep x).
Proof.
  induction x as [|c x IH]; [reflexivity|]. cbn [split occurrences].
  destruct (Ascii.eqb c sep).
  - cbn. rewrite IH. reflexivity.
  - destruct (split sep x) as [|f fs]; [discriminate IH|]. cbn in *. exact IH.
Qed.

Lemma split_no_sep sep x :
  Forall (fun f => all_bytes (fun c => negb (Ascii.eqb c sep)) f = true)
         (split sep x).
Proof.
  induction x as [|c x IH]; [repeat constructor|]. cbn [split].
  destruct (Ascii.eqb c sep) eqn:E.
  - constructor; [reflexivity | exact IH].
  - destruct (split sep x) as [|f fs]; [repeat constructor; cbn; rewrite E; reflexivity|].
    apply Forall_cons in IH as [Hf Hfs]. constructor; [|exact Hfs].
    cbn. rewrite E, Hf. reflexivity.
Qed.

Lemma all_bytes_lstrip p x : all_bytes p x = true -> all_bytes p (lstrip x) = true.
Proof.
  induction x as [|c x IH]; [intros; reflexivity|]. intros H. cbn [lstrip].
  destruct (is_space c); [|exact H].
  cbn in H. apply andb_true_iff in H as [_ H]. exact (IH H).
Qed.

Lemma all_bytes_rstrip p x : all_bytes p x = true -> all_bytes p (rstrip x) = true.
Proof.
  induction x as [|c x IH]; [intros; reflexivity|]. intros H.
  cbn in H. apply andb_true_iff in H as [Hc H]. specialize (IH H).
  cbn [rstrip]. destruct (rstrip x) as [|a r].
  - destruct (is_space c); [reflexivity|]. cbn. rewrite Hc. reflexivity.
  - cbn [all_bytes] in *. rewrite Hc, IH. reflexivity.
Qed.

Lemma lower_char_not_upper c : is_upper (lower_char c) = false.
Proof. destruct c as [[] [] [] [] [] [] [] []]; reflexivity. Qed.

Lemma lower_char_comma c :
  Ascii.eqb (lower_char c) comma = Ascii.eqb c comma.
Proof. destruct c as [[] [] [] [] [] [] [] []]; reflexivity. Qed.

Lemma lower_char_space c : is_space (lower_char c) = is_space c.
Proof. destruct c as [[] [] [] [] [] [] [] []]; reflexivity. Qed.

Lemma lower_no_upper x : all_bytes (fun c => negb (is_upper c)) (lower x) = true.
Proof.
  induction x as [|c x IH]; [reflexivity|]. cbn.
  rewrite lower_char_not_upper, IH. reflexivity.
Qed.

Lemma lower_no_comma x :
  all_bytes (fun c => negb (Ascii.eqb c comma)) x = true ->
  all_bytes (fun c => negb (Ascii.eqb c comma)) (lower x) = true.
Proof.
  induction x as [|c x IH]; [intros; reflexivity|]. cbn. intros H.
  apply andb_true_iff in H as [Hc H]. rewrite lower_char_comma, Hc, (IH H).
  reflexivity.
Qed.

Lemma first_byte_lstrip x c : first_byte (lstrip x) = Some c -> is_space c = false.
Proof.
  induction x as [|d x IH]; [discriminate|]. cbn [lstrip].
  destruct (is_space d) eqn:E; [exact IH|]. cbn. intros [= <-]. exact E.
Qed.

Lemma first_byte_rstrip x c : first_byte (rstrip x) = Some c -> first_byte x = Some c.
Proof.
  destruct x as [|d x]; [discriminate|]. cbn [rstrip].
  destruct (rstrip x); [destruct (is_space d)|]; cbn; congruence.
Qed.

Lemma last_byte_rstrip x c : last_byte (rstrip x) = Some c -> is_space c = false.
Proof.
  induction x as [|d x IH]; [discriminate|]. cbn [rstrip].
  destruct (rstrip x) as [|a r].
  - destruct (is_space d) eqn:E; [discriminate|]. cbn. intros [= <-]. exact E.
  - exact IH.
Qed.

Lemma first_byte_lower x : first_byte (lower x) = option_map lower_char (first_byte x).
Proof. destruct x; reflexivity. Qed.

Lemma last_byte_lower x : last_byte (lower x) = option_map lower_char (last_byte x).
Proof.
  induction x as [|c x IH]; [reflexivity|].
  destruct x as [|d x]; [reflexivity|]. exact IH.
Qed.

Lemma strip_lower_trimmed x : trimmed (lower (strip x)) = true.
Proof.
  unfold trimmed, strip. rewrite first_byte_lower, last_byte_lower.
  destruct (first_byte (rstrip (lstrip x))) as [c|] eqn:Hf; [|reflexivity].
  destruct (last_byte (rstrip (lstrip x))) as [d|] eqn:Hl; [|reflexivity].
  cbn. rewrite !lower_char_space.
  rewrite (first_byte_lstrip x c (first_byte_rstrip _ _ Hf)).
  rewrite (last_byte_rstrip _ _ Hl). reflexivity.
Qed.

Lemma parse_tags_length x : length (parse_tags x) = S (occurrences comma x).
Proof. unfold parse_tags. rewrite length_map. apply split_length. Qed.

Lemma parse_tags_lower x :
  Forall (fun tag => all_bytes (fun c => negb (is_upper c)) tag = true)
         (parse_tags x).
Proof.
  unfold parse_tags. apply Forall_map, Forall_forall.
  intros f _. apply lower_no_upper.
Qed.

(** X12: [--tags] always yields at least one required tag: one more than
    the argument has commas.  An empty argument, and every empty field such
    as the one after a trailing comma, yields the empty string as a required
    tag. *)
Theorem parse_tags_count x :
  length (parse_tags x) = S (occurrences comma x)
  /\ parse_tags x <> []
  /\ parse_tags String.EmptyString = [String.EmptyString]
  /\ parse_tags (String.append x (String.String comma String.EmptyString))
     = parse_tags x ++ [String.EmptyString].
Proof.
  split; [|split; [|split]].
  - apply parse_tags_length.
  - intros H. apply (f_equal length) in H.
    rewrite parse_tags_length in H. discriminate H.
  - reflexivity.
  - unfold parse_tags. assert (H : split comma (String.append x (String.String comma String.EmptyString))
                = split comma x ++ [String.EmptyString]).
    { induction x as [|c x IH]; [reflexivity|].
      change (String.append (String.String c x)
                (String.String comma String.EmptyString))
        with (String.String c (String.append x
                (String.String comma String.EmptyString))).
      cbn [split]. destruct (Ascii.eqb c comma).
      - rewrite IH. reflexivity.
      - rewrite IH. destruct (split comma x) as [|f fs] eqn:E; [|reflexivity].
        pose proof (split_length comma x) as Hlen. rewrite E in Hlen. discriminate Hlen. }
    rewrite H, map_app. reflexivity.
Qed.

(** X13: every tag [--tags] yields is normalised: it holds no uppercase
    letter A-Z and no comma, and neither starts nor ends with a whitespace
    byte. *)
Theorem parse_tags_normalised x :
  Forall (fun tag =>
            all_bytes (fun c => negb (is_upper c)) tag = true
            /\ all_bytes (fun c => negb (Ascii.eqb c comma)) tag = true
            /\ trimmed tag = true)
         (parse_tags x).
Proof.
  unfold parse_tags. apply Forall_map.
  eapply Forall_impl; [apply (split_no_sep comma x)|].
  intros f Hf. cbn beta. split; [apply lower_no_upper|]. split.
  - apply lower_no_comma. unfold strip.
    apply all_bytes_rstrip, all_bytes_lstrip. exact Hf.
  - apply strip_lower_trimmed.
Qed.

(** X14: [--tags] only matches lowercase sensor tags.  Whatever the
    argument, a sensor each of whose tags holds an uppercase letter fails the
    tag filter built from it, the comparison of line 112 being exact while
    line 190 lowercases the required tags only. *)
Theorem parsed_tags_need_lowercase x (sensorTags : list string) :
  Forall (fun tag => all_bytes (fun c => negb (is_upper c)) tag = false)
         sensorTags ->
  has_all_tags (parse_tags x) sensorTags = false.
Proof.
  intros Hup.
  destruct (parse_tags x) as [|t ts] eqn:E.
  - exfalso. pose proof (parse_tags_length x) as H.
    rewrite E in H. discriminate H.
  - pose proof (parse_tags_lower x) as Hn. rewrite E in Hn.
    apply Forall_cons in Hn as [Hlow _].
    cbn [has_all_tags forallb]. apply andb_false_iff. left.
    destruct (existsb (String.eqb t) sensorTags) eqn:Ex; [|reflexivity].
    apply existsb_exists in Ex as (y & Hy & Heq).
    apply String.eqb_eq in Heq. subst y.
    rewrite Forall_forall in Hup. apply list_elem_of_In in Hy.
    rewrite (Hup t Hy) in Hlow. discriminate Hlow.
Qed.

Lemma parsed_tags_need_lowercase_witness :
  Forall (fun tag => all_bytes (fun c => negb (is_upper c)) tag = false)
         ["VIP"%string; "Prod"%string]
  /\ parse_tags "VIP" = ["vip"%string]
  /\ has_all_tags (parse_tags "VIP") ["VIP"%string; "Prod"%string] = false.
Proof.
  assert (H : Forall (fun tag => all_bytes (fun c => negb (is_upper c)) tag = false)
                     ["VIP"%string; "Prod"%string])
    by (repeat constructor).
  split; [exact H|]. split; [reflexivity|].
  exact (parsed_tags_need_lowercase "VIP" ["VIP"%string; "Prod"%string] H).
Defined.

(** * Shutdown is always possible (lines 68-72, 85-153) *)

Lemma tick_to_run cfg wake st :
  exists st',
    run cfg (tick_to wake st) st = Some st'
    /\ wake <= now st'
    /\ sensorsLeftToCheck st' = sensorsLeftToCheck st
    /\ lock st' = lock st
    /\ pendingReCheck st' = pendingReCheck st
    /\ stopEvent st' = stopEvent st
    /\ workers st' = workers st
    /\ timers st' = timers st.
Proof.
  unfold tick_to. destruct (Z.leb_spec wake (now st)) as [H|H].
  - exists st. repeat split; first [reflexivity | assumption].
  - assert (Hd : (0 <? wake - now st) = true) by (apply Z.ltb_lt; lia).
    eexists. split; [cbn [run step]; rewrite Hd; reflexivity|].
    cbn. repeat split; first [reflexivity | lia].
Qed.

(** One stage nearer to the exit: with the lock free and the stop event
    set, a worker that has not left has a few own steps (and, where it
    sleeps, a tick of the clock) that take it to a program counter of smaller
    distance, the lock being free again afterwards. *)
Lemma worker_advance cfg st i pc :
  inv st -> lock st = None -> (pc = WLoop -> stopEvent st = true) ->
  workers st !! i = Some pc -> pc <> WExited ->
  exists ls st' pc',
    run cfg ls st = Some st'
    /\ lock st' = None
    /\ stopEvent st' = stopEvent st
    /\ workers st' = <[i:=pc']> (workers st)
    /\ (wdist pc' < wdist pc)%nat.
Proof.
  intros [_ I2 _] Hl Hs Hi Hne.
  assert (Hlt : (i < length (workers st))%nat) by (eapply lookup_lt_Some; eassumption).
  destruct pc; try congruence;
    try (exfalso; pose proof (I2 _ _ Hi eq_refl); congruence).
  - (* WLoop *)
    exists [LWorker i ANone]. eexists. eexists.
    split; [own_step Hi Hlt; rewrite (Hs eq_refl); reflexivity|].
    split; [exact Hl|]. split; [reflexivity|]. split; [reflexivity | cbn; lia].
  - (* WPop *)
    destruct (sensorsLeftToCheck st) as [|s q] eqn:Hq;
      (exists [LWorker i ANone]; eexists; eexists;
       split; [own_step Hi Hlt; rewrite Hq; reflexivity|];
       split; [exact Hl|]; split; [reflexivity|]; split; [reflexivity | cbn; lia]).
  - (* WAcquireIdle *)
    destruct ((0 =? pendingReCheck st)
              && Nat.eqb 0 (length (sensorsLeftToCheck st))) eqn:E;
      (exists [LWorker i ANone; LWorker i ANone]; eexists; eexists;
       split; [own_step Hi Hlt; rewrite Hl; own_step Hi Hlt; rewrite E; reflexivity|];
       split; [reflexivity|]; split; [reflexivity|];
       split; [cbn; rewrite !list_insert_insert_eq; reflexivity | cbn; lia]).
  - (* WBackoff *)
    destruct (tick_to_run cfg wake st) as (st1 & R & Hw & _ & L1 & _ & S1 & W1 & _).
    assert (Hi1 : workers st1 !! i = Some (WBackoff wake)) by (rewrite W1; exact Hi).
    assert (Hlt1 : (i < length (workers st1))%nat) by (rewrite W1; exact Hlt).
    apply Z.leb_le in Hw.
    exists (tick_to wake st ++ [LWorker i ANone]). eexists. eexists.
    split; [rewrite run_app, R; own_step Hi1 Hlt1; rewrite Hw; reflexivity|].
    split; [cbn; rewrite L1; exact Hl|]. split; [cbn; exact S1|].
    split; [cbn; rewrite W1; reflexivity | cbn; lia].
  - (* WPlatform *)
    destruct (platform_consulted cfg) eqn:Hc.
    + exists [LWorker i (APlat "")]. eexists. eexists.
      split; [own_step Hi Hlt; rewrite Hc; reflexivity|].
      split; [exact Hl|]. split; [reflexivity|]. split; [reflexivity|].
      destruct (platform_skipped cfg ""); cbn; lia.
    + exists [LWorker i ANone]. eexists. eexists.
      split; [own_step Hi Hlt; rewrite Hc; reflexivity|].
      split; [exact Hl|]. split; [reflexivity|]. split; [reflexivity | cbn; lia].
  - (* WTags *)
    destruct (tags cfg) as [required|] eqn:Hr.
    + exists [LWorker i (ATags [])]. eexists. eexists.
      split; [own_step Hi Hlt; rewrite Hr; reflexivity|].
      split; [exact Hl|]. split; [reflexivity|]. split; [reflexivity|].
      destruct (has_all_tags required []); cbn; lia.
    + exists [LWorker i ANone]. eexists. eexists.
      split; [own_step Hi Hlt; rewrite Hr; reflexivity|].
      split; [exact Hl|]. split; [reflexivity|]. split; [reflexivity | cbn; lia].
  - (* WOnline *)
    exists [LWorker i (AOnline true)]. eexists. eexists.
    split; [own_step Hi Hlt; reflexivity|].
    split; [exact Hl|]. split; [reflexivity|]. split; [reflexivity | cbn; lia].
  - (* WOffline *)
    exists [LWorker i ANone]. eexists. eexists.
    split; [own_step Hi Hlt; reflexivity|].
    split; [exact Hl|]. split; [reflexivity|]. split; [reflexivity | cbn; lia].
  - (* WAcquireInc *)
    exists [LWorker i ANone; LWorker i ANone]. eexists. eexists.
    split; [own_step Hi Hlt; rewrite Hl; own_step Hi Hlt; reflexivity|].
    split; [reflexivity|]. split; [reflexivity|].
    split; [cbn; rewrite !list_insert_insert_eq; reflexivity | cbn; lia].
  - (* WSpawn *)
    exists [LWorker i ANone]. eexists. eexists.
    split; [own_step Hi Hlt; reflexivity|].
    split; [exact Hl|]. split; [reflexivity|]. split; [reflexivity | cbn; lia].
  - (* WStart *)
    exists [LWorker i ANone]. eexists. eexists.
    split; [own_step Hi Hlt; reflexivity|].
    split; [exact Hl|]. split; [reflexivity|]. split; [reflexivity | cbn; lia].
  - (* WCheck *)
    exists [LWorker i (ACheck (Returned true))]. eexists. eexists.
    split; [own_step Hi Hlt; reflexivity|].
    split; [exact Hl|]. split; [reflexivity|]. split; [reflexivity | cbn; lia].
  - (* WError *)
    exists [LWorker i ANone]. eexists. eexists.
    split; [own_step Hi Hlt; reflexivity|].
    split; [exact Hl|]. split; [reflexivity|]. split; [reflexivity | cbn; lia].
  - (* WResult *)
    exists [LWorker i ANone]. eexists. eexists.
    split; [own_step Hi Hlt; reflexivity|].
    split; [exact Hl|]. split; [reflexivity|]. split; [reflexivity|].
    destruct result; cbn; lia.
  - (* WRetry *)
    exists [LWorker i ANone]. eexists. eexists.
    split; [own_step Hi Hlt; reflexivity|].
    split; [exact Hl|]. split; [reflexivity|]. split; [reflexivity | cbn; lia].
  - (* WSleepRetry *)
    destruct (tick_to_run cfg wake st) as (st1 & R & Hw & _ & L1 & _ & S1 & W1 & _).
    assert (Hi1 : workers st1 !! i = Some (WSleepRetry s wake)) by (rewrite W1; exact Hi).
    assert (Hlt1 : (i < length (workers st1))%nat) by (rewrite W1; exact Hlt).
    apply Z.leb_le in Hw.
    exists (tick_to wake st ++ [LWorker i ANone]). eexists. eexists.
    split; [rewrite run_app, R; own_step Hi1 Hlt1; rewrite Hw; reflexivity|].
    split; [cbn; rewrite L1; exact Hl|]. split; [cbn; exact S1|].
    split; [cbn; rewrite W1; reflexivity | cbn; lia].
  - (* WPut *)
    exists [LWorker i ANone]. eexists. eexists.
    split; [own_step Hi Hlt; reflexivity|].
    split; [exact Hl|]. split; [reflexivity|]. split; [reflexivity | cbn; lia].
  - (* WDone *)
    exists [LWorker i ANone]. eexists. eexists.
    split; [own_step Hi Hlt; reflexivity|].
    split; [exact Hl|]. split; [reflexivity|]. split; [reflexivity | cbn; lia].
Qed.

Lemma stop_event_run cfg ls st st' :
  stopEvent st = true -> run cfg ls st = Some st' -> stopEvent st' = true.
Proof.
  revert st. induction ls as [|l ls IH]; intros st Hs H; simpl in H.
  - injection H as <-. exact Hs.
  - destruct (step cfg l st) as [st1|] eqn:E; [|discriminate].
    exact (IH st1 (stop_event_step _ _ _ _ Hs E) H).
Qed.

Lemma worker_exit cfg n :
  forall st i pc,
    (wdist pc <= n)%nat -> inv st -> lock st = None -> stopEvent st = true ->
    workers st !! i = Some pc ->
    exists ls st',
      run cfg ls st = Some st'
      /\ lock st' = None
      /\ workers st' = <[i:=WExited]> (workers st).
Proof.
  induction n as [|n IH]; intros st i pc Hd I Hl Hs Hi.
  - destruct pc; cbn in Hd; try lia.
    exists [], st. split; [reflexivity|]. split; [exact Hl|].
    symmetry. apply list_insert_id. exact Hi.
  - assert (Hcase : pc = WExited \/ pc <> WExited)
      by (destruct pc; first [left; reflexivity | right; discriminate]).
    destruct Hcase as [->|Hne].
    + exists [], st. split; [reflexivity|]. split; [exact Hl|].
      symmetry. apply list_insert_id. exact Hi.
    + destruct (worker_advance cfg st i pc I Hl (fun _ => Hs) Hi Hne)
        as (ls1 & st1 & pc1 & R1 & L1 & _ & W1 & D1).
      assert (Hi1 : workers st1 !! i = Some pc1).
      { rewrite W1. apply list_lookup_insert_eq. eapply lookup_lt_Some. exact Hi. }
      destruct (IH st1 i pc1 ltac:(lia) (inv_run _ _ _ _ I R1) L1
                  (stop_event_run _ _ _ _ Hs R1) Hi1)
        as (ls2 & st2 & R2 & L2 & W2).
      exists (ls1 ++ ls2), st2. split; [rewrite run_app, R1; exact R2|].
      split; [exact L2|]. rewrite W2, W1. apply list_insert_insert_eq.
Qed.

Lemma all_workers_exit cfg k :
  forall st,
    inv st -> lock st = None -> stopEvent st = true ->
    exists ls st',
      run cfg ls st = Some st'
      /\ lock st' = None
      /\ length (workers st') = length (workers st)
      /\ forall i, (i < k)%nat -> (i < length (workers st))%nat ->
                   workers st' !! i = Some WExited.
Proof.
  induction k as [|k IH]; intros st I Hl Hs.
  - exists [], st. split; [reflexivity|]. split; [exact Hl|].
    split; [reflexivity|]. intros i Hi. lia.
  - destruct (IH st I Hl Hs) as (ls1 & st1 & R1 & L1 & Len1 & E1).
    destruct (workers st1 !! k) as [pc|] eqn:Hk.
    + destruct (worker_exit cfg (wdist pc) st1 k pc (Nat.le_refl _)
                  (inv_run _ _ _ _ I R1) L1 (stop_event_run _ _ _ _ Hs R1) Hk)
        as (ls2 & st2 & R2 & L2 & W2).
      exists (ls1 ++ ls2), st2. split; [rewrite run_app, R1; exact R2|].
      split; [exact L2|]. split; [rewrite W2, length_insert; exact Len1|].
      intros i Hi Hlen. rewrite W2.
      destruct (decide (i = k)) as [->|Hne].
      * apply list_lookup_insert_eq. rewrite Len1. exact Hlen.
      * rewrite list_lookup_insert_ne by congruence. apply E1; lia.
    + exists ls1, st1. split; [exact R1|]. split; [exact L1|].
      split; [exact Len1|]. intros i Hi Hlen.
      apply lookup_ge_None in Hk. apply E1; lia.
Qed.

Lemma timer_finish cfg st j pc :
  inv st -> lock st = None -> timers st !! j = Some pc ->
  exists ls st',
    run cfg ls st = Some st'
    /\ lock st' = None
    /\ timers st' = <[j:=TDone]> (timers st)
    /\ workers st' = workers st
    /\ stopEvent st' = stopEvent st.
Proof.
  intros [_ _ I3] Hl Hj.
  assert (Hlt : (j < length (timers st))%nat) by (eapply lookup_lt_Some; eassumption).
  destruct pc; try (exfalso; pose proof (I3 _ _ Hj eq_refl); congruence).
  - destruct (tick_to_run cfg due st) as (st1 & R & Hw & _ & L1 & _ & S1 & W1 & T1).
    assert (Hj1 : timers st1 !! j = Some (TWait s due)) by (rewrite T1; exact Hj).
    assert (Hlt1 : (j < length (timers st1))%nat) by (rewrite T1; exact Hlt).
    apply Z.leb_le in Hw. rewrite Hl in L1.
    exists (tick_to due st ++ replicate 4 (LTimer j)). eexists.
    split; [rewrite run_app, R; cbn [replicate]; own_step Hj1 Hlt1; rewrite Hw;
            own_step Hj1 Hlt1; rewrite L1; do 2 own_step Hj1 Hlt1; reflexivity|].
    split; [reflexivity|].
    split; [cbn; rewrite !list_insert_insert_eq, T1; reflexivity|].
    split; [cbn; exact W1 | cbn; exact S1].
  - exists (replicate 3 (LTimer j)). eexists.
    split; [cbn [replicate]; own_step Hj Hlt; rewrite Hl;
            do 2 own_step Hj Hlt; reflexivity|].
    split; [reflexivity|].
    split; [cbn; rewrite !list_insert_insert_eq; reflexivity|].
    split; reflexivity.
  - exists [], st. split; [reflexivity|]. split; [exact Hl|].
    split; [symmetry; apply list_insert_id; exact Hj|]. split; reflexivity.
Qed.

Lemma all_timers_finish cfg k :
  forall st,
    inv st -> lock st = None ->
    exists ls st',
      run cfg ls st = Some st'
      /\ lock st' = None
      /\ workers st' = workers st
      /\ stopEvent st' = stopEvent st
      /\ length (timers st') = length (timers st)
      /\ forall j, (j < k)%nat -> (j < length (timers st))%nat ->
                   timers st' !! j = Some TDone.
Proof.
  induction k as [|k IH]; intros st I Hl.
  - exists [], st. split; [reflexivity|]. split; [exact Hl|].
    split; [reflexivity|]. split; [reflexivity|]. split; [reflexivity|].
    intros j Hj. lia.
  - destruct (IH st I Hl) as (ls1 & st1 & R1 & L1 & W1 & S1 & Len1 & E1).
    destruct (timers st1 !! k) as [pc|] eqn:Hk.
    + destruct (timer_finish cfg st1 k pc (inv_run _ _ _ _ I R1) L1 Hk)
        as (ls2 & st2 & R2 & L2 & T2 & W2 & S2).
      exists (ls1 ++ ls2), st2. split; [rewrite run_app, R1; exact R2|].
      split; [exact L2|]. split; [rewrite W2; exact W1|].
      split; [rewrite S2; exact S1|].
      split; [rewrite T2, length_insert; exact Len1|].
      intros j Hj Hlen. rewrite T2.
      destruct (decide (j = k)) as [->|Hne].
      * apply list_lookup_insert_eq. rewrite Len1. exact Hlen.
      * rewrite list_lookup_insert_ne by congruence. apply E1; lia.
    + exists ls1, st1. split; [exact R1|]. split; [exact L1|].
      split; [exact W1|]. split; [exact S1|]. split; [exact Len1|].
      intros j Hj Hlen. apply lookup_ge_None in Hk. apply E1; lia.
Qed.

Lemma forallb_of_lookup {A : Type} (f : A -> bool) (l : list A) :
  (forall i x, l !! i = Some x -> f x = true) -> forallb f l = true.
Proof.
  induction l as [|y l IH]; intros H; [reflexivity|]. cbn.
  rewrite (H 0%nat y eq_refl). apply IH. intros i x Hi. exact (H (S i) x Hi).
Qed.

Lemma lock_can_be_freed cfg st :
  lock_owned st ->
  exists ls st',
    run cfg ls st = Some st' /\ lock st' = None
    /\ stopEvent st' = stopEvent st.
Proof.
  intros O. unfold lock_owned in O.
  destruct (lock st) as [[i|j]|] eqn:Hl;
    [| |exists [], st; split; [reflexivity | split; [exact Hl | reflexivity]]].
  - destruct O as (pc & Hi & Hp).
    assert (Hlt : (i < length (workers st))%nat) by (eapply lookup_lt_Some; eassumption).
    destruct pc; try discriminate Hp.
    + destruct ((0 =? pendingReCheck st)
                && Nat.eqb 0 (length (sensorsLeftToCheck st))) eqn:E;
        (exists [LWorker i ANone]; eexists;
         split; [own_step Hi Hlt; rewrite E; reflexivity | split; reflexivity]).
    + exists [LWorker i ANone]. eexists.
      split; [own_step Hi Hlt; reflexivity | split; reflexivity].
  - destruct O as (pc & Hj & Hp).
    assert (Hlt : (j < length (timers st))%nat) by (eapply lookup_lt_Some; eassumption).
    destruct pc; try discriminate Hp.
    + exists [LTimer j; LTimer j]. eexists.
      split; [do 2 own_step Hj Hlt; reflexivity | split; reflexivity].
    + exists [LTimer j]. eexists.
      split; [own_step Hj Hlt; reflexivity | split; reflexivity].
Qed.



(** * Completion is always possible (lines 85-153) *)

Lemma worker_to_loop cfg n :
  forall st i pc,
    (wdist pc <= n)%nat -> inv st -> lock st = None ->
    workers st !! i = Some pc ->
    exists ls st' pc',
      run cfg ls st = Some st'
      /\ lock st' = None
      /\ stopEvent st' = stopEvent st
      /\ workers st' = <[i:=pc']> (workers st)
      /\ (pc' = WLoop \/ pc' = WExited).
Proof.
  induction n as [|n IH]; intros st i pc Hd I Hl Hi.
  - destruct pc; cbn in Hd; try lia.
    exists [], st, WExited. split; [reflexivity|]. split; [exact Hl|].
    split; [reflexivity|].
    split; [symmetry; apply list_insert_id; exact Hi | right; reflexivity].
  - assert (Hcase : (pc = WLoop \/ pc = WExited) \/ (pc <> WLoop /\ pc <> WExited))
      by (destruct pc; first [left; left; reflexivity | left; right; reflexivity
                             | right; split; discriminate]).
    destruct Hcase as [Hdone|[Hnl Hne]].
    + exists [], st, pc. split; [reflexivity|]. split; [exact Hl|].
      split; [reflexivity|].
      split; [symmetry; apply list_insert_id; exact Hi | exact Hdone].
    + destruct (worker_advance cfg st i pc I Hl (fun E => False_ind _ (Hnl E)) Hi Hne)
        as (ls1 & st1 & pc1 & R1 & L1 & S1 & W1 & D1).
      assert (Hi1 : workers st1 !! i = Some pc1).
      { rewrite W1. apply list_lookup_insert_eq. eapply lookup_lt_Some. exact Hi. }
      destruct (IH st1 i pc1 ltac:(lia) (inv_run _ _ _ _ I R1) L1 Hi1)
        as (ls2 & st2 & pc2 & R2 & L2 & S2 & W2 & D2).
      exists (ls1 ++ ls2), st2, pc2. split; [rewrite run_app, R1; exact R2|].
      split; [exact L2|]. split; [rewrite S2; exact S1|].
      split; [rewrite W2, W1; apply list_insert_insert_eq | exact D2].
Qed.

Lemma all_workers_to_loop cfg k :
  forall st,
    inv st -> lock st = None ->
    exists ls st',
      run cfg ls st = Some st'
      /\ lock st' = None
      /\ stopEvent st' = stopEvent st
      /\ length (workers st') = length (workers st)
      /\ forall i pc, (i < k)%nat -> workers st' !! i = Some pc ->
                      pc = WLoop \/ pc = WExited.
Proof.
  induction k as [|k IH]; intros st I Hl.
  - exists [], st. split; [reflexivity|]. split; [exact Hl|].
    split; [reflexivity|]. split; [reflexivity|]. intros i pc Hi. lia.
  - destruct (IH st I Hl) as (ls1 & st1 & R1 & L1 & S1 & Len1 & E1).
    destruct (workers st1 !! k) as [pc|] eqn:Hk.
    + destruct (worker_to_loop cfg (wdist pc) st1 k pc (Nat.le_refl _)
                  (inv_run _ _ _ _ I R1) L1 Hk)
        as (ls2 & st2 & pc2 & R2 & L2 & S2 & W2 & D2).
      exists (ls1 ++ ls2), st2. split; [rewrite run_app, R1; exact R2|].
      split; [exact L2|]. split; [rewrite S2; exact S1|].
      split; [rewrite W2, length_insert; exact Len1|].
      intros i q Hi Hq. rewrite W2 in Hq.
      destruct (decide (i = k)) as [->|Hne].
      * rewrite list_lookup_insert_eq in Hq by (eapply lookup_lt_Some; exact Hk).
        injection Hq as <-. exact D2.
      * rewrite list_lookup_insert_ne in Hq by congruence.
        apply (E1 i q); [lia | exact Hq].
    + exists ls1, st1. split; [exact R1|]. split; [exact L1|].
      split; [exact S1|]. split; [exact Len1|]. intros i q Hi Hq.
      apply lookup_ge_None in Hk.
      assert ((i < length (workers st1))%nat) by (eapply lookup_lt_Some; exact Hq).
      apply (E1 i q); [lia | exact Hq].
Qed.

Lemma loop_or_all_exited (ws : list wpc) :
  (forall i pc, ws !! i = Some pc -> pc = WLoop \/ pc = WExited) ->
  (exists i, ws !! i = Some WLoop) \/ forallb worker_exited ws = true.
Proof.
  induction ws as [|pc ws IH]; intros H; [right; reflexivity|].
  destruct (H 0%nat pc eq_refl) as [->| ->].
  - left. exists 0%nat. reflexivity.
  - destruct (IH (fun i q Hi => H (S i) q Hi)) as [[i Hi]|Hall].
    + left. exists (S i). exact Hi.
    + right. cbn. exact Hall.
Qed.

Lemma resting_pending_zero st :
  inv st ->
  (forall i pc, workers st !! i = Some pc -> pc = WLoop \/ pc = WExited) ->
  (forall j pc, timers st !! j = Some pc -> pc = TDone) ->
  pendingReCheck st = 0.
Proof.
  intros [I1 _ _] HW HT. rewrite I1.
  assert (Hw0 : tally worker_owes (workers st) = 0).
  { clear -HW. induction (workers st) as [|pc ws IH]; [reflexivity|].
    simpl. rewrite IH; [|intros i q Hi; exact (HW (S i) q Hi)].
    destruct (HW 0%nat pc eq_refl) as [->| ->]; reflexivity. }
  assert (Ht0 : tally timer_owes (timers st) = 0).
  { clear -HT. induction (timers st) as [|pc ts IH]; [reflexivity|].
    simpl. rewrite (HT 0%nat pc eq_refl). simpl.
    apply IH. intros j q Hj. exact (HT (S j) q Hj). }
  lia.
Qed.

Lemma empty_platform_passes cfg : platform_skipped cfg "" = false.
Proof. unfold platform_skipped. cbn. reflexivity. Qed.

Lemma passing_tags_pass cfg : tags_pass cfg (passing_tags cfg) = true.
Proof.
  unfold tags_pass, passing_tags. destruct (tags cfg) as [required|]; [|reflexivity].
  unfold has_all_tags. apply forallb_forall. intros x Hx.
  apply existsb_exists. exists x. split; [exact Hx | apply String.eqb_refl].
Qed.

Lemma exit_remaining cfg k :
  forall st,
    (forall i pc, workers st !! i = Some pc -> pc = WLoop \/ pc = WExited) ->
    stopEvent st = false -> sensorsLeftToCheck st = [] ->
    pendingReCheck st = 0 -> lock st = None ->
    exists ls st',
      run cfg ls st = Some st'
      /\ stopEvent st' = false
      /\ timers st' = timers st
      /\ length (workers st') = length (workers st)
      /\ (forall i pc, workers st' !! i = Some pc -> pc = WLoop \/ pc = WExited)
      /\ sensorsLeftToCheck st' = [] /\ pendingReCheck st' = 0 /\ lock st' = None
      /\ forall i pc, (i < k)%nat -> workers st' !! i = Some pc -> pc = WExited.
Proof.
  induction k as [|k IH]; intros st HW Hs Hq Hp Hl.
  - exists [], st. split; [reflexivity|]. split; [exact Hs|].
    split; [reflexivity|]. split; [reflexivity|]. split; [exact HW|].
    split; [exact Hq|]. split; [exact Hp|]. split; [exact Hl|].
    intros i pc Hi. lia.
  - destruct (IH st HW Hs Hq Hp Hl)
      as (ls1 & st1 & R1 & S1 & T1 & Len1 & HW1 & Q1 & P1 & L1 & E1).
    destruct (workers st1 !! k) as [pc|] eqn:Hk.
    + destruct (HW1 k pc Hk) as [->| ->].
      * pose proof (exit_one cfg k st1 Hk S1 Q1 P1 L1) as R2.
        exists (ls1 ++ exit_labels k), (goto k WExited st1).
        split; [rewrite run_app, R1; exact R2|].
        split; [exact S1|]. split; [exact T1|].
        split; [cbn; rewrite length_insert; exact Len1|].
        split; [|split; [exact Q1|split; [exact P1|split; [exact L1|]]]].
        -- intros i q Hi. cbn in Hi.
           destruct (decide (i = k)) as [->|Hne].
           ++ rewrite list_lookup_insert_eq in Hi by (eapply lookup_lt_Some; exact Hk).
              injection Hi as <-. right. reflexivity.
           ++ rewrite list_lookup_insert_ne in Hi by congruence. exact (HW1 i q Hi).
        -- intros i q Hi Hq'. cbn in Hq'.
           destruct (decide (i = k)) as [->|Hne].
           ++ rewrite list_lookup_insert_eq in Hq' by (eapply lookup_lt_Some; exact Hk).
              injection Hq' as <-. reflexivity.
           ++ rewrite list_lookup_insert_ne in Hq' by congruence.
              apply (E1 i q); [lia | exact Hq'].
      * exists ls1, st1. split; [exact R1|]. split; [exact S1|].
        split; [exact T1|]. split; [exact Len1|]. split; [exact HW1|].
        split; [exact Q1|]. split; [exact P1|]. split; [exact L1|].
        intros i q Hi Hq'. destruct (decide (i = k)) as [->|Hne].
        -- congruence.
        -- apply (E1 i q); [lia | exact Hq'].
    + exists ls1, st1. split; [exact R1|]. split; [exact S1|].
      split; [exact T1|]. split; [exact Len1|]. split; [exact HW1|].
      split; [exact Q1|]. split; [exact P1|]. split; [exact L1|].
      intros i q Hi Hq'. apply lookup_ge_None in Hk.
      assert ((i < length (workers st1))%nat) by (eapply lookup_lt_Some; exact Hq').
      apply (E1 i q); [lia | exact Hq'].
Qed.



(** * Natural completion (lines 86-97) *)

Lemma tally_lookup_le {A : Type} (f : A -> Z) (l : list A) (i : nat) (x : A) :
  (forall y, 0 <= f y) -> l !! i = Some x -> f x <= tally f l.
Proof.
  intros Hf. revert i. induction l as [|z l IH]; intros [|i] Hi; simpl in *;
    try discriminate.
  - injection Hi as ->. pose proof (tally_nonneg f l Hf). lia.
  - specialize (IH i Hi). specialize (Hf z). lia.
Qed.

Lemma tally_le {A : Type} (f g : A -> Z) (l : list A) :
  (forall x, f x <= g x) -> tally f l <= tally g l.
Proof.
  intros H. induction l as [|x l IH]; simpl; [lia | specialize (H x); lia].
Qed.

Lemma worker_free_nonneg pc : 0 <= worker_free pc.
Proof. destruct pc; simpl; lia. Qed.

Lemma timer_has_le_owes pc : timer_has pc <= timer_owes pc.
Proof. destruct pc; simpl; lia. Qed.

Lemma timer_has_nonneg pc : 0 <= timer_has pc.
Proof. destruct pc; simpl; lia. Qed.

(** A worker moves from [pc] to [pc'] without ending. *)
Lemma enough_worker_move d st st' i pc pc' (new : list tpc) :
  enough_workers d st -> workers st !! i = Some pc ->
  workers st' = <[i:=pc']> (workers st) ->
  timers st' = timers st ++ new ->
  stopEvent st' = stopEvent st ->
  worker_ended pc' = worker_ended pc ->
  Z.of_nat (length (sensorsLeftToCheck st')) + tally timer_has new
    + worker_free pc
  <= Z.of_nat (length (sensorsLeftToCheck st)) + worker_free pc' ->
  enough_workers d st'.
Proof.
  intros D Hi Hw Ht Hs He Hb Hs'. rewrite Hs in Hs'.
  destruct (D Hs') as [D1 D2].
  rewrite Hw, Ht, tally_app, !(tally_insert _ _ _ pc) by exact Hi.
  split; [lia|]. intros Hd. specialize (D2 ltac:(lia)). lia.
Qed.

Lemma enough_timer_move d st st' j pc pc' :
  enough_workers d st -> timers st !! j = Some pc ->
  workers st' = workers st ->
  timers st' = <[j:=pc']> (timers st) ->
  stopEvent st' = stopEvent st ->
  Z.of_nat (length (sensorsLeftToCheck st')) + timer_has pc'
  <= Z.of_nat (length (sensorsLeftToCheck st)) + timer_has pc ->
  enough_workers d st'.
Proof.
  intros D Hj Hw Ht Hs Hb Hs'. rewrite Hs in Hs'.
  destruct (D Hs') as [D1 D2].
  rewrite Hw, Ht, (tally_insert _ _ _ pc) by exact Hj.
  split; [lia|]. intros Hd. specialize (D2 ltac:(lia)). lia.
Qed.

Lemma enough_frame d st st' :
  sensorsLeftToCheck st' = sensorsLeftToCheck st ->
  workers st' = workers st -> timers st' = timers st ->
  (stopEvent st' = false -> stopEvent st = false) ->
  enough_workers d st -> enough_workers d st'.
Proof.
  intros Hq Hw Ht Hs D Hs'. rewrite Hq, Hw, Ht. exact (D (Hs Hs')).
Qed.

Lemma enough_step cfg l st st' d :
  inv st -> enough_workers d st -> step cfg l st = Some st' ->
  enough_workers (d + raised l) st'.
Proof.
  intros I D H. destruct l as [i a| j | d0 | | timeout | r | i];
    cbn [raised]; rewrite ?Z.add_0_r.
  - cbn [step] in H. unfold worker_step in H.
    destruct (workers st !! i) as [pc|] eqn:Hi; [|discriminate].
    destruct pc, a; try discriminate;
      repeat match type of H with
             | context [match ?x with _ => _ end] => destruct x eqn:?
             end;
      try discriminate; injection H as <-;
      try (first [ eapply (enough_worker_move d st _ i _ _ []);
                   [ exact D | exact Hi | reflexivity
                   | cbn; rewrite ?app_nil_r; reflexivity | reflexivity
                   | reflexivity |]
                 | eapply (enough_worker_move d st _ i _ _ [TWait _ _]);
                   [ exact D | exact Hi | reflexivity | reflexivity
                   | reflexivity | reflexivity |] ];
           cbn;
           repeat match goal with
                  | E : sensorsLeftToCheck _ = _ |- _ => rewrite E
                  end;
           cbn; rewrite ?length_app; cbn; lia).
    + intros Hs'. cbn in Hs'. congruence.
    + intros Hs'. cbn in Hs'. destruct (D Hs') as [D1 _].
      match goal with E : (_ && _) = true |- _ => apply andb_true_iff in E as [Ep Eq] end.
      apply Z.eqb_eq in Ep. apply Nat.eqb_eq in Eq.
      destruct I as [I1 _ _].
      pose proof (tally_nonneg worker_owes (workers st) worker_owes_nonneg).
      pose proof (tally_nonneg timer_has (timers st) timer_has_nonneg).
      pose proof (tally_le timer_has timer_owes (timers st) timer_has_le_owes).
      pose proof (tally_lookup_le worker_free _ _ _ worker_free_nonneg Hi) as Hf.
      cbn. rewrite !(tally_insert _ _ _ WCheckIdle) by exact Hi.
      cbn in *. split; lia.
  - cbn [step] in H. unfold timer_step in H.
    destruct (timers st !! j) as [pc|] eqn:Hj; [|discriminate].
    destruct pc;
      repeat match type of H with
             | context [match ?x with _ => _ end] => destruct x eqn:?
             end;
      try discriminate; injection H as <-;
      (eapply (enough_timer_move d st _ j);
       [exact D | exact Hj | reflexivity | reflexivity | reflexivity |]);
      cbn; rewrite ?length_app; cbn; lia.
  - simpl in H. destruct (0 <? d0); [|discriminate]. injection H as <-.
    apply (enough_frame d st); first [reflexivity | exact D | exact (fun x => x)].
  - unfold step, caller_step in H. destruct (caller st); try discriminate.
    injection H as <-. intros Hs'. discriminate Hs'.
  - unfold step, caller_step in H. destruct (caller st); try discriminate.
    injection H as <-.
    apply (enough_frame d st); first [reflexivity | exact D | exact (fun x => x)].
  - unfold step, caller_step in H.
    repeat match type of H with
           | context [match ?x with _ => _ end] => destruct x eqn:?
           end;
      try discriminate; injection H as <-;
      (apply (enough_frame d st); first [reflexivity | exact D | exact (fun x => x)]).
  - cbn [step] in H. apply worker_raise_inv in H as (pc & a & Hi & Hc & ->).
    destruct (unguarded_call_pc _ _ _ Hc) as (_ & _ & He & s & Hsn).
    intros Hs'. cbn in Hs'. destruct (D Hs') as [D1 D2].
    assert (Hfree : worker_free pc = 0) by (destruct pc; try discriminate Hsn; reflexivity).
    assert (Hend : worker_ended pc = 0) by (unfold worker_ended; rewrite He; reflexivity).
    cbn. rewrite !(tally_insert _ _ _ pc) by exact Hi.
    rewrite Hend, Hfree. change (worker_ended WExited) with 1.
    change (worker_free WExited) with 0.
    split; [lia|]. intros Hd. specialize (D2 ltac:(lia)). lia.
Qed.

Lemma enough_run cfg ls :
  forall st st' d,
    inv st -> enough_workers d st -> run cfg ls st = Some st' ->
    enough_workers (d + raises ls) st'.
Proof.
  induction ls as [|l ls IH]; intros st st' d I D H; simpl in H.
  - injection H as <-. unfold raises. cbn. rewrite Z.add_0_r. exact D.
  - destruct (step cfg l st) as [st1|] eqn:E; [|discriminate].
    unfold raises. cbn [tally]. rewrite Z.add_assoc.
    exact (IH st1 st' _ (inv_step _ _ _ _ I E) (enough_step _ _ _ _ _ I D E) H).
Qed.

Lemma enough_start cfg listing : enough_workers 0 (start cfg listing construct).
Proof.
  intros _. cbn. rewrite tally_replicate. cbn. split; lia.
Qed.

Lemma workers_length_step cfg l st st' :
  step cfg l st = Some st' -> length (workers st') = length (workers st).
Proof.
  intros H. destruct l as [i a| j | d | | timeout | r | i].
  - cbn [step] in H. unfold worker_step in H.
    destruct (workers st !! i) as [pc|]; [|discriminate].
    destruct pc, a; try discriminate;
      repeat match type of H with
             | context [match ?x with _ => _ end] => destruct x eqn:?
             end;
      try discriminate; injection H as <-; cbn; apply length_insert.
  - cbn [step] in H. unfold timer_step in H.
    destruct (timers st !! j) as [pc|]; [|discriminate].
    destruct pc;
      repeat match type of H with
             | context [match ?x with _ => _ end] => destruct x eqn:?
             end;
      try discriminate; injection H as <-; reflexivity.
  - simpl in H. destruct (0 <? d); [|discriminate]. injection H as <-. reflexivity.
  - unfold step, caller_step in H. destruct (caller st); try discriminate.
    injection H as <-. reflexivity.
  - unfold step, caller_step in H. destruct (caller st); try discriminate.
    injection H as <-. reflexivity.
  - unfold step, caller_step in H.
    repeat match type of H with
           | context [match ?x with _ => _ end] => destruct x eqn:?
           end;
      try discriminate; injection H as <-; reflexivity.
  - cbn [step] in H. apply worker_raise_inv in H as (pc & a & _ & _ & ->).
    cbn. apply length_insert.
Qed.

Lemma workers_length_run cfg ls :
  forall st st', run cfg ls st = Some st' ->
                 length (workers st') = length (workers st).
Proof.
  induction ls as [|l ls IH]; intros st st' H; simpl in H.
  - injection H as <-. reflexivity.
  - destruct (step cfg l st) as [st1|] eqn:E; [|discriminate].
    rewrite (IH _ _ H). exact (workers_length_step _ _ _ _ E).
Qed.

(** What an empty group holds: nothing. *)
Lemma all_exited_tallies ws :
  forallb worker_exited ws = true ->
  tally worker_ended ws = Z.of_nat (length ws)
  /\ tally worker_free ws = 0
  /\ tally worker_owes ws = 0
  /\ flat_map worker_sensor ws = [].
Proof.
  induction ws as [|pc ws IH]; intros H; [repeat split; reflexivity|].
  cbn in H. apply andb_true_iff in H as [Hpc Hws].
  destruct (IH Hws) as (H1 & H2 & H3 & H4).
  destruct pc; try discriminate Hpc.
  cbn [tally length flat_map worker_sensor app]. unfold worker_ended at 1.
  cbn. repeat split; [lia | lia | lia | exact H4].
Qed.

Lemma all_done_tallies ts :
  forallb timer_done ts = true ->
  tally timer_owes ts = 0 /\ flat_map timer_sensor ts = [].
Proof.
  induction ts as [|pc ts IH]; intros H; [split; reflexivity|].
  cbn in H. apply andb_true_iff in H as [Hpc Hts].
  destruct (IH Hts) as (H1 & H2).
  destruct pc; try discriminate Hpc. cbn. split; [lia | exact H2].
Qed.

Lemma completed_queue_empty cfg listing ls st :
  run cfg ls (start cfg listing construct) = Some st ->
  raises ls < Z.of_nat (nConcurrent cfg) ->
  stopEvent st = false -> forallb worker_exited (workers st) = true ->
  sensorsLeftToCheck st = [].
Proof.
  intros R Hr Hs Hw.
  pose proof (enough_run _ _ _ _ _ (inv_start cfg listing)
                (enough_start cfg listing) R Hs) as [_ E].
  pose proof (workers_length_run _ _ _ _ R) as Hlen.
  cbn in Hlen. rewrite length_replicate in Hlen.
  destruct (all_exited_tallies _ Hw) as (W1 & W2 & _).
  pose proof (tally_nonneg timer_has (timers st) timer_has_nonneg).
  specialize (E ltac:(lia)).
  destruct (sensorsLeftToCheck st); [reflexivity | cbn in E; lia].
Qed.

(** X16: natural completion leaves nothing behind, unless every worker was
    ended by an exception.  When the group has become empty with no stop
    requested, and fewer exceptions went uncaught than workers were started
    (so that at least one worker returned through the test of line 94), the
    queue is empty, the pending counter is zero and no sensor handle is in
    flight: every listed sensor has left the scheduler. *)
Theorem natural_completion_is_complete cfg listing ls st :
  run cfg ls (start cfg listing construct) = Some st ->
  raises ls < Z.of_nat (nConcurrent cfg) ->
  stopEvent st = false -> group_empty st = true ->
  sensorsLeftToCheck st = [] /\ pendingReCheck st = 0 /\ in_flight st = [].
Proof.
  intros R Hr Hs Hg. unfold group_empty in Hg. apply andb_true_iff in Hg as [Hw Ht].
  pose proof (completed_queue_empty _ _ _ _ R Hr Hs Hw) as Hq.
  pose proof (inv_run _ _ _ _ (inv_start cfg listing) R) as [I1 _ _].
  destruct (all_exited_tallies _ Hw) as (_ & _ & W3 & W4).
  destruct (all_done_tallies _ Ht) as (T1 & T2).
  split; [exact Hq|]. split; [lia|].
  unfold in_flight. rewrite Hq, W4, T2. reflexivity.
Qed.

Lemma natural_completion_is_complete_witness :
  run two_workers
    (replicate 4 (LWorker 0 ANone) ++ [LRaise 0]
     ++ visit_labels two_workers (fun _ => "linux"%string) (fun _ => []) 1 8
     ++ exit_labels 1)
    (start two_workers [7%nat; 8%nat] construct)
  = Some (after two_workers [7%nat; 8%nat]
            (replicate 4 (LWorker 0 ANone) ++ [LRaise 0]
             ++ visit_labels two_workers (fun _ => "linux"%string)
                  (fun _ => []) 1 8
             ++ exit_labels 1))
  /\ checked (trace (after two_workers [7%nat; 8%nat]
                       (replicate 4 (LWorker 0 ANone) ++ [LRaise 0]
                        ++ visit_labels two_workers (fun _ => "linux"%string)
                             (fun _ => []) 1 8
                        ++ exit_labels 1))) = [8%nat]
  /\ in_flight (after two_workers [7%nat; 8%nat]
                  (replicate 4 (LWorker 0 ANone) ++ [LRaise 0]
                   ++ visit_labels two_workers (fun _ => "linux"%string)
                        (fun _ => []) 1 8
                   ++ exit_labels 1)) = [].
Proof.
  assert (R : run two_workers
                (replicate 4 (LWorker 0 ANone) ++ [LRaise 0]
                 ++ visit_labels two_workers (fun _ => "linux"%string)
                      (fun _ => []) 1 8
                 ++ exit_labels 1)
                (start two_workers [7%nat; 8%nat] construct)
              = Some (after two_workers [7%nat; 8%nat]
                        (replicate 4 (LWorker 0 ANone) ++ [LRaise 0]
                         ++ visit_labels two_workers (fun _ => "linux"%string)
                              (fun _ => []) 1 8
                         ++ exit_labels 1)))
    by (vm_compute; reflexivity).
  split; [exact R|]. split; [vm_compute; reflexivity|].
  exact (proj2 (proj2 (natural_completion_is_complete two_workers
                         [7%nat; 8%nat] _ _ R eq_refl eq_refl eq_refl))).
Defined.

(** * Runs in which every visit succeeds (lines 85-153) *)

Lemma occurs_app s l1 l2 : occurs s (l1 ++ l2) = occurs s l1 + occurs s l2.
Proof. apply tally_app. Qed.

Lemma occurs_nonneg s l : 0 <= occurs s l.
Proof. apply tally_nonneg. intros x. destruct (Nat.eqb s x); lia. Qed.

Lemma occurs_flat_map {A : Type} s (f : A -> list sensor) (l : list A) :
  occurs s (flat_map f l) = tally (fun x => occurs s (f x)) l.
Proof.
  induction l as [|x l IH]; [reflexivity|].
  cbn [flat_map tally]. rewrite occurs_app, IH. reflexivity.
Qed.

Lemma occurs_count s l : occurs s l = Z.of_nat (count_occ Nat.eq_dec l s).
Proof.
  induction l as [|x l IH]; [reflexivity|].
  unfold occurs in *. cbn [tally count_occ]. rewrite IH.
  destruct (Nat.eq_dec x s) as [->|Hne].
  - rewrite Nat.eqb_refl. lia.
  - rewrite (proj2 (Nat.eqb_neq s x)) by congruence. lia.
Qed.

Lemma occurs_perm l1 l2 : (forall s, occurs s l1 = occurs s l2) -> l1 ≡ₚ l2.
Proof.
  intros H. apply (Permutation_count_occ Nat.eq_dec). intros s.
  specialize (H s). rewrite !occurs_count in H. lia.
Qed.

Lemma checked_app tr1 tr2 : checked (tr1 ++ tr2) = checked tr1 ++ checked tr2.
Proof. apply flat_map_app. Qed.

Lemma off_track_nonneg pc : 0 <= off_track pc.
Proof. destruct pc; simpl; try lia. destruct result; lia. Qed.

Lemma favourable_raises cfg ls :
  forallb (favourable cfg) ls = true -> raises ls = 0.
Proof.
  induction ls as [|l ls IH]; intros H; [reflexivity|].
  cbn in H. apply andb_true_iff in H as [Hl Hls].
  unfold raises in *. cbn [tally]. rewrite (IH Hls).
  destruct l; try reflexivity. discriminate Hl.
Qed.

Lemma on_track_start cfg listing : on_track listing (start cfg listing construct).
Proof.
  split; [reflexivity|]. split.
  - cbn. rewrite tally_replicate. cbn. lia.
  - intros s. unfold occurs. cbn. rewrite tally_replicate. cbn. lia.
Qed.

Lemma on_track_step cfg listing l st st' :
  favourable cfg l = true -> on_track listing st ->
  step cfg l st = Some st' -> on_track listing st'.
Proof.
  intros Hf (K1 & K2 & K3) H.
  destruct l as [i a| j | d | | timeout | r | i].
  - cbn [step] in H. unfold worker_step in H.
    destruct (workers st !! i) as [pc|] eqn:Hi; [|discriminate].
    pose proof (tally_zero off_track _ _ _ off_track_nonneg K2 Hi) as Hz.
    destruct pc, a; try discriminate H; cbn in Hz; try (exfalso; lia);
      repeat match type of H with
             | context [match ?x with _ => _ end] => destruct x eqn:?
             end;
      try discriminate; injection H as <-;
      cbn in Hf; unfold tags_pass in Hf;
      repeat match goal with
             | E : tags cfg = _ |- _ => rewrite E in Hf
             | E : platform_skipped _ _ = _ |- _ => rewrite E in Hf
             end;
      try discriminate Hf; try congruence; subst.
    all: split; [exact K1|].
    all: split;
      [ cbn; rewrite (tally_insert _ _ _ _ _ Hi); cbn; lia
      | intros s0; specialize (K3 s0);
        cbn [goto emit set_workers set_queue set_lock set_pending set_timers
             trace workers sensorsLeftToCheck];
        rewrite ?checked_app, ?occurs_app, (tally_insert _ _ _ _ _ Hi);
        repeat match goal with
               | E : sensorsLeftToCheck _ = _ |- _ => rewrite E in *
               end;
        repeat match goal with
               | |- context [call (?f ?c) _] => destruct (f c)
               end;
        unfold occurs in *;
        cbn [tally checked flat_map map snd app call unchecked] in *; lia ].
  - cbn [step] in H. unfold timer_step in H. rewrite K1 in H. discriminate H.
  - simpl in H. destruct (0 <? d); [|discriminate]. injection H as <-.
    split; [exact K1|]. split; [exact K2 | exact K3].
  - unfold step, caller_step in H. destruct (caller st); try discriminate.
    injection H as <-. split; [exact K1|]. split; [exact K2 | exact K3].
  - unfold step, caller_step in H. destruct (caller st); try discriminate.
    injection H as <-. split; [exact K1|]. split; [exact K2 | exact K3].
  - unfold step, caller_step in H.
    repeat match type of H with
           | context [match ?x with _ => _ end] => destruct x eqn:?
           end;
      try discriminate; injection H as <-;
      (split; [exact K1|]; split; [exact K2 | exact K3]).
  - discriminate Hf.
Qed.

Lemma on_track_run cfg listing ls :
  forall st st',
    forallb (favourable cfg) ls = true -> on_track listing st ->
    run cfg ls st = Some st' -> on_track listing st'.
Proof.
  induction ls as [|l ls IH]; intros st st' Hf K H; simpl in H.
  - injection H as <-. exact K.
  - cbn in Hf. apply andb_true_iff in Hf as [Hl Hls].
    destruct (step cfg l st) as [st1|] eqn:E; [|discriminate].
    exact (IH st1 st' Hls (on_track_step _ _ _ _ _ Hl K E) H).
Qed.

Lemma in_order_step cfg listing l st st' :
  favourable cfg l = true -> in_order listing st ->
  step cfg l st = Some st' -> in_order listing st'.
Proof.
  intros Hf (pc & Hw & Hz & K1 & K3) H.
  destruct l as [i a| j | d | | timeout | r | i].
  - cbn [step] in H. unfold worker_step in H. rewrite Hw in H.
    destruct i as [|i]; [|discriminate H]. cbn [lookup list_lookup] in H.
    destruct pc, a; try discriminate H; cbn in Hz; try (exfalso; lia);
      repeat match type of H with
             | context [match ?x with _ => _ end] => destruct x eqn:?
             end;
      try discriminate; injection H as <-;
      cbn in Hf; unfold tags_pass in Hf;
      repeat match goal with
             | E : tags cfg = _ |- _ => rewrite E in Hf
             | E : platform_skipped _ _ = _ |- _ => rewrite E in Hf
             end;
      try discriminate Hf; try congruence; subst.
    all: eexists; split; [cbn; rewrite Hw; reflexivity|].
    all: split; [reflexivity|]; split; [exact K1|].
    all: cbn [goto emit set_workers set_queue set_lock set_pending set_timers
              trace workers sensorsLeftToCheck];
      rewrite ?checked_app;
      repeat match goal with
             | E : sensorsLeftToCheck _ = _ |- _ => rewrite E in *
             end;
      repeat match goal with
             | |- context [call (?f ?c) _] => destruct (f c)
             end;
      cbn [checked flat_map map snd app call unchecked] in *;
      rewrite ?app_nil_r, <- ?app_assoc; reflexivity.
  - cbn [step] in H. unfold timer_step in H. rewrite K1 in H. discriminate H.
  - simpl in H. destruct (0 <? d); [|discriminate]. injection H as <-.
    exists pc. repeat split; assumption.
  - unfold step, caller_step in H. destruct (caller st); try discriminate.
    injection H as <-. exists pc. repeat split; assumption.
  - unfold step, caller_step in H. destruct (caller st); try discriminate.
    injection H as <-. exists pc. repeat split; assumption.
  - unfold step, caller_step in H.
    repeat match type of H with
           | context [match ?x with _ => _ end] => destruct x eqn:?
           end;
      try discriminate; injection H as <-;
      (exists pc; repeat split; assumption).
  - discriminate Hf.
Qed.

Lemma in_order_run cfg listing ls :
  forall st st',
    forallb (favourable cfg) ls = true -> in_order listing st ->
    run cfg ls st = Some st' -> in_order listing st'.
Proof.
  induction ls as [|l ls IH]; intros st st' Hf K H; simpl in H.
  - injection H as <-. exact K.
  - cbn in Hf. apply andb_true_iff in Hf as [Hl Hls].
    destruct (step cfg l st) as [st1|] eqn:E; [|discriminate].
    exact (IH st1 st' Hls (in_order_step _ _ _ _ _ Hl K E) H).
Qed.

Lemma all_exited_unchecked s ws :
  forallb worker_exited ws = true ->
  tally (fun pc => occurs s (unchecked pc)) ws = 0.
Proof.
  induction ws as [|pc ws IH]; intros H; [reflexivity|].
  cbn in H. apply andb_true_iff in H as [Hpc Hws].
  destruct pc; try discriminate Hpc. cbn [tally]. rewrite (IH Hws). reflexivity.
Qed.

(** X10: when every visit succeeds, every listed sensor is checked exactly
    once.  In a run in which every sensor passes the filters and is online,
    every check returns a true value or raises, and no other call raises,
    whatever the interleaving of the workers: at no time has a sensor been
    checked more often than it is listed, and no deferred re-check exists;
    and when the group has become empty with no stop requested, the sensors
    the check was called with are the listed ones, each as often as listed,
    and with a single worker they were checked in the order of the
    listing. *)
Theorem every_sensor_checked_once cfg listing ls st :
  run cfg ls (start cfg listing construct) = Some st ->
  forallb (favourable cfg) ls = true ->
  (forall s, occurs s (checked (trace st)) <= occurs s listing)
  /\ timers st = []
  /\ (stopEvent st = false -> (0 < nConcurrent cfg)%nat ->
      group_empty st = true ->
      checked (trace st) ≡ₚ listing
      /\ (nConcurrent cfg = 1%nat -> checked (trace st) = listing)).
Proof.
  intros R Hf.
  destruct (on_track_run _ _ _ _ _ Hf (on_track_start cfg listing) R)
    as (K1 & K2 & K3).
  split; [|split; [exact K1|]].
  - intros s. specialize (K3 s).
    pose proof (occurs_nonneg s (sensorsLeftToCheck st)).
    pose proof (tally_nonneg (fun pc => occurs s (unchecked pc)) (workers st)
                  (fun pc => occurs_nonneg s (unchecked pc))).
    lia.
  - intros Hs Hn Hg. unfold group_empty in Hg.
    apply andb_true_iff in Hg as [Hw Ht].
    assert (Hq : sensorsLeftToCheck st = []).
    { apply (completed_queue_empty cfg listing ls st R); [|exact Hs | exact Hw].
      rewrite (favourable_raises _ _ Hf). lia. }
    split.
    + apply occurs_perm. intros s. specialize (K3 s).
      rewrite Hq, (all_exited_unchecked s _ Hw) in K3. cbn in K3. lia.
    + intros H1.
      assert (O : in_order listing (start cfg listing construct)).
      { exists WLoop. cbn. rewrite H1. repeat split; reflexivity. }
      destruct (in_order_run _ _ _ _ _ Hf O R) as (pc & Hpc & _ & _ & Hl).
      rewrite Hpc in Hw. cbn in Hw. rewrite andb_true_r in Hw.
      destruct pc; try discriminate Hw.
      rewrite Hq in Hl. cbn in Hl. rewrite app_nil_r in Hl. exact Hl.
Qed.

Lemma every_sensor_checked_once_witness :
  run two_workers two_visits (start two_workers [7%nat; 8%nat] construct)
  = Some (after two_workers [7%nat; 8%nat] two_visits)
  /\ forallb (favourable two_workers) two_visits = true
  /\ group_empty (after two_workers [7%nat; 8%nat] two_visits) = true
  /\ checked (trace (after two_workers [7%nat; 8%nat] two_visits))
     = [8%nat; 7%nat]
  /\ checked (trace (after two_workers [7%nat; 8%nat] two_visits))
     ≡ₚ [7%nat; 8%nat].
Proof.
  assert (R : run two_workers two_visits
                (start two_workers [7%nat; 8%nat] construct)
              = Some (after two_workers [7%nat; 8%nat] two_visits))
    by (vm_compute; reflexivity).
  split; [exact R|]. split; [reflexivity|]. split; [reflexivity|].
  split; [vm_compute; reflexivity|].
  refine (proj1 (proj2 (proj2 (every_sensor_checked_once two_workers
                                 [7%nat; 8%nat] _ _ R eq_refl))
                   eq_refl _ eq_refl)).
  cbn. lia.
Defined.

(** * A sensor that stays offline (lines 116-128) *)

Lemma checking_nonneg s pc : 0 <= checking s pc.
Proof. destruct pc; simpl; try lia; apply occurs_nonneg. Qed.

Lemma unguarded_call_not_check cfg pc a who :
  unguarded_call cfg pc = Some a -> checked [(who, a)] = [].
Proof.
  intros H. destruct pc; try discriminate H; cbn in H;
    repeat match type of H with
           | context [match ?x with _ => _ end] => destruct x
           end;
    try discriminate H; injection H as <-; reflexivity.
Qed.

Lemma occurs_in_flight s st : occurs s (in_flight st) = copies s st.
Proof.
  unfold in_flight, copies. rewrite !occurs_app, !occurs_flat_map. lia.
Qed.

Lemma kept_offline_start cfg s listing :
  kept_offline s (occurs s listing) (start cfg listing construct).
Proof.
  split; [|split].
  - unfold copies, occurs. cbn. rewrite tally_replicate. cbn. lia.
  - cbn. rewrite tally_replicate. cbn. lia.
  - reflexivity.
Qed.

Lemma kept_offline_step cfg s n l st st' :
  (if visits s l st then keeps cfg l else true) = true ->
  kept_offline s n st -> step cfg l st = Some st' -> kept_offline s n st'.
Proof.
  intros Hv (P1 & P2 & P3) H.
  destruct l as [i a| j | d | | timeout | r | i].
  - cbn [step] in H. unfold worker_step in H. cbn [visits] in Hv.
    destruct (workers st !! i) as [pc|] eqn:Hi; [|discriminate].
    pose proof (tally_zero (checking s) _ _ _ (checking_nonneg s) P2 Hi) as Hz.
    destruct pc, a; try discriminate H;
      repeat match type of H with
             | context [match ?x with _ => _ end] => destruct x eqn:?
             end;
      try discriminate; injection H as <-;
      cbn in Hv; unfold tags_pass in Hv;
      repeat match goal with
             | E : tags cfg = _ |- _ => rewrite E in Hv
             | E : platform_skipped _ _ = _ |- _ => rewrite E in Hv
             | E : has_all_tags _ _ = _ |- _ => rewrite E in Hv
             end;
      unfold kept_offline, copies in *;
      cbn [goto emit set_workers set_queue set_lock set_pending set_timers
           trace workers timers sensorsLeftToCheck];
      rewrite ?checked_app, ?occurs_app, ?tally_app,
        !(tally_insert _ _ _ _ _ Hi);
      repeat match goal with
             | E : sensorsLeftToCheck _ = _ |- _ => rewrite E in *
             end;
      repeat match goal with
             | |- context [call (?f ?c) _] => destruct (f c)
             end;
      cbn [call checking] in *; unfold occurs in *;
      cbn [tally checked flat_map map snd app worker_sensor timer_sensor] in *;
      try match type of Hz with
          | context [Nat.eqb ?x ?y] => destruct (Nat.eqb x y) eqn:?
          end;
      try match type of Hv with
          | context [Nat.eqb ?x ?y] => destruct (Nat.eqb x y) eqn:?
          end;
      try match goal with
          | |- context [Nat.eqb s ?y] => destruct (Nat.eqb s y) eqn:?
          end;
      cbn [orb negb] in Hv; try discriminate Hv;
      (split; [|split]; lia).
  - cbn [step] in H. unfold timer_step in H.
    destruct (timers st !! j) as [pc|] eqn:Hj; [|discriminate].
    destruct pc;
      repeat match type of H with
             | context [match ?x with _ => _ end] => destruct x eqn:?
             end;
      try discriminate; injection H as <-;
      unfold kept_offline, copies in *;
      cbn [tgoto emit set_workers set_queue set_lock set_pending set_timers
           trace workers timers sensorsLeftToCheck];
      rewrite ?checked_app, ?occurs_app, !(tally_insert _ _ _ _ _ Hj);
      unfold occurs in *;
      cbn [tally checked flat_map map snd app timer_sensor] in *;
      (split; [|split]; lia).
  - simpl in H. destruct (0 <? d); [|discriminate]. injection H as <-.
    split; [exact P1|]. split; [exact P2 | exact P3].
  - unfold step, caller_step in H. destruct (caller st); try discriminate.
    injection H as <-. split; [exact P1|]. split; [exact P2 | exact P3].
  - unfold step, caller_step in H. destruct (caller st); try discriminate.
    injection H as <-. split; [exact P1|]. split; [exact P2 | exact P3].
  - unfold step, caller_step in H.
    repeat match type of H with
           | context [match ?x with _ => _ end] => destruct x eqn:?
           end;
      try discriminate; injection H as <-;
      (split; [exact P1|]; split; [exact P2 | exact P3]).
  - cbn [step] in H. cbn [visits] in Hv.
    apply worker_raise_inv in H as (pc & a & Hi & Hc & ->).
    destruct (unguarded_call_pc _ _ _ Hc) as (_ & _ & _ & s0 & Hsn).
    pose proof (tally_zero (checking s) _ _ _ (checking_nonneg s) P2 Hi) as Hz.
    pose proof (unguarded_call_not_check _ _ _ (Worker i) Hc) as Hnc.
    rewrite Hi, Hsn in Hv. cbn in Hv.
    destruct (Nat.eqb s s0) eqn:Es; [discriminate Hv|].
    unfold kept_offline, copies in *.
    cbn [goto emit set_workers trace workers timers sensorsLeftToCheck map].
    rewrite checked_app, occurs_app, Hnc, !(tally_insert _ _ _ _ _ Hi), Hsn.
    unfold occurs in *. cbn [tally worker_sensor checking]. rewrite Es.
    split; [|split]; lia.
Qed.

Lemma kept_offline_run cfg s n ls :
  forall st st',
    offline_throughout cfg s ls st = true -> kept_offline s n st ->
    run cfg ls st = Some st' -> kept_offline s n st'.
Proof.
  induction ls as [|l ls IH]; intros st st' Ho P H; simpl in H.
  - injection H as <-. exact P.
  - cbn [offline_throughout] in Ho. apply andb_true_iff in Ho as [Hv Hrest].
    destruct (step cfg l st) as [st1|] eqn:E; [|discriminate].
    exact (IH st1 st' Hrest (kept_offline_step _ _ _ _ _ _ Hv P E) H).
Qed.

(** X11: a sensor that stays offline is never given up and never checked.
    In a run in which the sensor [s] passes the filters and is reported
    offline on each of its visits, and no call made during its visits raises
    (the visits of the other sensors being free, exceptions included),
    whatever the interleaving: every listed handle of [s] is still in the
    scheduler, in the queue, in a worker's hands or in a deferred re-check;
    the check callback was never called with [s]; and, unless [stop] is
    called or every worker is ended by an exception, the group never becomes
    empty, so that a [wait] without timeout does not return.  The code has no
    bound on the number of retries. *)
Theorem offline_sensor_never_given_up cfg listing s ls st :
  run cfg ls (start cfg listing construct) = Some st ->
  offline_throughout cfg s ls (start cfg listing construct) = true ->
  occurs s (in_flight st) = occurs s listing
  /\ occurs s (checked (trace st)) = 0
  /\ (0 < occurs s listing -> stopEvent st = false ->
      raises ls < Z.of_nat (nConcurrent cfg) -> group_empty st = false).
Proof.
  intros R Ho.
  destruct (kept_offline_run _ _ _ _ _ _ Ho (kept_offline_start cfg s listing) R)
    as (P1 & _ & P3).
  split; [rewrite occurs_in_flight; exact P1|]. split; [exact P3|].
  intros Hin Hs Hr. destruct (group_empty st) eqn:Hg; [|reflexivity].
  exfalso. unfold group_empty in Hg. apply andb_true_iff in Hg as [Hw Ht].
  pose proof (completed_queue_empty _ _ _ _ R Hr Hs Hw) as Hq.
  destruct (all_exited_tallies _ Hw) as (_ & _ & _ & W4).
  destruct (all_done_tallies _ Ht) as (_ & T2).
  unfold copies in P1.
  rewrite <- !occurs_flat_map, Hq, W4, T2 in P1. cbn in P1. lia.
Qed.

Lemma offline_sensor_never_given_up_witness :
  run one_worker offline_twice (start one_worker [7%nat] construct)
  = Some (after one_worker [7%nat] offline_twice)
  /\ offline_throughout one_worker 7 offline_twice
       (start one_worker [7%nat] construct) = true
  /\ actions_of (Worker 0) (trace (after one_worker [7%nat] offline_twice))
     = [IsOnline 7; OnOffline 7; SpawnLater 60 7; Sleep 2;
        IsOnline 7; OnOffline 7; SpawnLater 60 7]
  /\ timers (after one_worker [7%nat] offline_twice) = [TDone; TWait 7 120]
  /\ occurs 7 (in_flight (after one_worker [7%nat] offline_twice)) = 1
  /\ group_empty (after one_worker [7%nat] offline_twice) = false.
Proof.
  assert (R : run one_worker offline_twice (start one_worker [7%nat] construct)
              = Some (after one_worker [7%nat] offline_twice))
    by (vm_compute; reflexivity).
  assert (O : offline_throughout one_worker 7 offline_twice
                (start one_worker [7%nat] construct) = true)
    by (vm_compute; reflexivity).
  split; [exact R|]. split; [exact O|].
  split; [vm_compute; reflexivity|]. split; [vm_compute; reflexivity|].
  destruct (offline_sensor_never_given_up one_worker [7%nat] 7 _ _ R O)
    as (H1 & _ & H3).
  split; [exact H1|]. exact (H3 eq_refl eq_refl eq_refl).
Defined.
